(** * Plan It Ahead: pending-item staging and itinerary save (Search page)

    A shallow embedding of [frontend/src/pages/Search.tsx]: the pending item
    store kept in the browser's [localStorage] ([getPendingItems],
    [addPendingItem], [clearPendingItems], [removePendingItem]), the save of
    all pending items into an itinerary ([handleSaveAllToItinerary]) and the
    filtering of attraction search results ([handleSearch], [isHotelLike],
    [normalizeAttraction]); further the hotel search and [normalizeHotel],
    [loadItineraries], the staging of a selected result
    ([handleAddToLocalStorage], [closeModal]), the Clear All button, the
    save handler of the earlier Search page kept in [Home.tsx], and
    [isActive] of the navigation bar.

    Conventions of the model.
    - A JavaScript value is [undefined] or a JSON value.  An object is a
      finite map from property names to JSON values: a property whose value
      is [undefined] is identified with an absent property (property reads
      and [JSON.stringify] cannot tell them apart).  A finite map does not
      record the order of the properties: [Json.stringify] writes the
      members in the order of the map, where [JSON.stringify] writes them in
      the order of the object.  What is stated of a record that a handler
      wrote is therefore stated of what [JSON.parse] reads from it, or, with
      [Json.write], of the text in any order of the members.
    - Numbers are the integers.  The reader of JSON texts reads integer
      literals only: on a JSON text with a fraction or an exponent it gives
      no value, although [JSON.parse] reads one.  [Json.json_text] tells the
      texts that are JSON, fractions and exponents included; a [SyntaxError]
      of [JSON.parse] is stated of the texts that are not.
    - Strings are sequences of 8-bit characters, read as UTF-8.
    - A handler is a computation over a world: the component state, the
      [localStorage] (taken as unbounded, so that [setItem] does not throw),
      the requests sent and the routes navigated to.  An awaited request is
      answered by a function of the request; handlers run one at a time.
      Writes to the console are left out. *)

From Stdlib Require Import ZArith NArith Ascii String DecimalString DecimalZ.
From stdpp Require Import gmap strings list fin_maps.

Set Warnings "-register-all".
Local Open Scope string_scope.

(** ** JSON values *)

Inductive json :=
| JNull
| JBool (b : bool)
| JNum (z : Z)
| JStr (s : string)
| JArr (l : list json)
| JObj (m : gmap string json).

(** [None] is JavaScript's [undefined]. *)
Abbreviation jsval := (option json).
Abbreviation undefined := (@None json).

Fixpoint json_size (v : json) : nat :=
  match v with
  | JArr l => S (foldr (λ e acc, json_size e + acc) 0 l)
  | JObj m => S (map_fold (λ _ e acc, json_size e + acc) 0 m)
  | _ => 1
  end.

(** ** [JSON.stringify] and [JSON.parse] *)

Module Json.

Definition dquote : ascii := "034"%char.
Definition backslash : ascii := "092"%char.

Definition code (c : ascii) : N := N_of_ascii c.

Definition is_ws (c : ascii) : bool :=
  (code c =? 32)%N || (code c =? 9)%N || (code c =? 10)%N || (code c =? 13)%N.

Definition is_digit (c : ascii) : bool :=
  (48 <=? code c)%N && (code c <=? 57)%N.

Fixpoint skip_ws (s : string) : string :=
  match s with
  | String c r => if is_ws c then skip_ws r else s
  | EmptyString => s
  end.

(** *** Writer *)

Definition hex_digit (n : N) : ascii :=
  if (n <? 10)%N then ascii_of_N (48 + n) else ascii_of_N (87 + n).

Definition escape_char (c : ascii) : string :=
  let n := code c in
  if (n =? 34)%N then String backslash (String dquote "")
  else if (n =? 92)%N then String backslash (String backslash "")
  else if (n =? 8)%N then String backslash "b"
  else if (n =? 12)%N then String backslash "f"
  else if (n =? 10)%N then String backslash "n"
  else if (n =? 13)%N then String backslash "r"
  else if (n =? 9)%N then String backslash "t"
  else if (n <? 32)%N then
    String backslash
      (String "u" (String "0" (String "0"
        (String (hex_digit (n / 16)) (String (hex_digit (n mod 16)) "")))))
  else String c "".

Fixpoint escape (s : string) : string :=
  match s with
  | EmptyString => ""
  | String c r => escape_char c +:+ escape r
  end.

Definition quote (s : string) : string :=
  String dquote (escape s +:+ String dquote "").

Definition render_num (z : Z) : string := NilZero.string_of_int (Z.to_int z).

Fixpoint join (parts : list string) : string :=
  match parts with
  | [] => ""
  | p :: ps => match ps with [] => p | _ => p +:+ "," +:+ join ps end
  end.

Definition render_member (kv : string * string) : string :=
  quote kv.1 +:+ ":" +:+ kv.2.

Fixpoint stringify (v : json) : string :=
  match v with
  | JNull => "null"
  | JBool true => "true"
  | JBool false => "false"
  | JNum z => render_num z
  | JStr s => quote s
  | JArr l => "[" +:+ join (map stringify l) +:+ "]"
  | JObj m => "{" +:+ join (render_member <$> map_to_list (stringify <$> m)) +:+ "}"
  end.

(** *** Reader *)

Definition hex_value (c : ascii) : option N :=
  let n := code c in
  if (48 <=? n)%N && (n <=? 57)%N then Some (n - 48)%N
  else if (97 <=? n)%N && (n <=? 102)%N then Some (n - 87)%N
  else if (65 <=? n)%N && (n <=? 70)%N then Some (n - 55)%N
  else None.

(** A [\uXXXX] escape denotes a 16-bit code unit, kept in the 8-bit strings
    of the model as its UTF-8 bytes. *)
Definition utf8 (n : N) (r : string) : string :=
  if (n <? 128)%N then String (ascii_of_N n) r
  else if (n <? 2048)%N then
    String (ascii_of_N (192 + n / 64)) (String (ascii_of_N (128 + n mod 64)) r)
  else
    String (ascii_of_N (224 + n / 4096))
      (String (ascii_of_N (128 + (n / 64) mod 64))
        (String (ascii_of_N (128 + n mod 64)) r)).

Definition unescape (e : ascii) : option ascii :=
  let n := code e in
  if (n =? 34)%N then Some dquote
  else if (n =? 92)%N then Some backslash
  else if (n =? 47)%N then Some "/"%char
  else if (n =? 98)%N then Some (ascii_of_N 8)
  else if (n =? 102)%N then Some (ascii_of_N 12)
  else if (n =? 110)%N then Some (ascii_of_N 10)
  else if (n =? 114)%N then Some (ascii_of_N 13)
  else if (n =? 116)%N then Some (ascii_of_N 9)
  else None.

(** The characters of a string literal after its opening quote, and the text
    that follows the closing quote. *)
Fixpoint parse_chars (s : string) : option (string * string) :=
  match s with
  | EmptyString => None
  | String c r =>
    if (code c =? 34)%N then Some ("", r)
    else if (code c =? 92)%N then
      match r with
      | String e r1 =>
        if (code e =? 117)%N then
          match r1 with
          | String h1 (String h2 (String h3 (String h4 r2))) =>
            match hex_value h1, hex_value h2, hex_value h3, hex_value h4 with
            | Some a, Some b, Some c', Some d =>
              match parse_chars r2 with
              | Some (t, rest) =>
                Some (utf8 (4096 * a + 256 * b + 16 * c' + d) t, rest)
              | None => None
              end
            | _, _, _, _ => None
            end
          | _ => None
          end
        else
          match unescape e with
          | Some c' =>
            match parse_chars r1 with
            | Some (t, rest) => Some (String c' t, rest)
            | None => None
            end
          | None => None
          end
      | EmptyString => None
      end
    else if (code c <? 32)%N then None
    else
      match parse_chars r with
      | Some (t, rest) => Some (String c t, rest)
      | None => None
      end
  end.

Fixpoint parse_digits (acc : Z) (s : string) : Z * string :=
  match s with
  | String c r =>
    if is_digit c then parse_digits (10 * acc + Z.of_N (code c - 48)) r
    else (acc, s)
  | EmptyString => (acc, s)
  end.

(** The text after an integer literal does not go on with a digit, a
    fraction or an exponent. *)
Definition closes_number (rest : string) : bool :=
  match rest with
  | String d _ =>
    negb (is_digit d || (code d =? 46)%N || (code d =? 101)%N || (code d =? 69)%N)
  | EmptyString => true
  end.

(** An unsigned integer literal: a lone [0], or digits without a leading
    zero.  A fraction or an exponent after it is outside the model. *)
Definition parse_nat (s : string) : option (Z * string) :=
  match s with
  | String c r =>
    if negb (is_digit c) then None
    else
      let '(z, rest) :=
        if (code c =? 48)%N then (0%Z, r) else parse_digits (Z.of_N (code c - 48)) r in
      if closes_number rest then Some (z, rest) else None
  | EmptyString => None
  end.

Definition parse_number (s : string) : option (Z * string) :=
  match s with
  | String c r =>
    if (code c =? 45)%N then
      match parse_nat r with
      | Some (z, rest) => Some ((- z)%Z, rest)
      | None => None
      end
    else parse_nat s
  | EmptyString => None
  end.

Fixpoint expect (word : string) (s : string) : option string :=
  match word with
  | EmptyString => Some s
  | String w word' =>
    match s with
    | String c r => if Ascii.eqb w c then expect word' r else None
    | EmptyString => None
    end
  end.

Fixpoint parse_elems (pv : string → option (json * string)) (n : nat)
    (s : string) : option (list json * string) :=
  match n with
  | O => None
  | S n' =>
    match pv s with
    | Some (v, r) =>
      match skip_ws r with
      | String "," r1 =>
        match parse_elems pv n' r1 with
        | Some (l, r2) => Some (v :: l, r2)
        | None => None
        end
      | String "]" r1 => Some ([v], r1)
      | _ => None
      end
    | None => None
    end
  end.

Fixpoint parse_members (pv : string → option (json * string)) (n : nat)
    (s : string) : option (list (string * json) * string) :=
  match n with
  | O => None
  | S n' =>
    match skip_ws s with
    | String c r =>
      if (code c =? 34)%N then
        match parse_chars r with
        | Some (k, r1) =>
          match skip_ws r1 with
          | String ":" r2 =>
            match pv r2 with
            | Some (v, r3) =>
              match skip_ws r3 with
              | String "," r4 =>
                match parse_members pv n' r4 with
                | Some (l, r5) => Some ((k, v) :: l, r5)
                | None => None
                end
              | String "}" r4 => Some ([(k, v)], r4)
              | _ => None
              end
            | None => None
            end
          | _ => None
          end
        | None => None
        end
      else None
    | EmptyString => None
    end
  end.

(** A later member with the same key overrides an earlier one. *)
Definition object_of (members : list (string * json)) : json :=
  JObj (list_to_map (reverse members)).

Fixpoint parse_value (n : nat) (s : string) : option (json * string) :=
  match n with
  | O => None
  | S n' =>
    match skip_ws s with
    | String c r =>
      if (code c =? 110)%N then r' ← expect "ull" r; Some (JNull, r')
      else if (code c =? 116)%N then r' ← expect "rue" r; Some (JBool true, r')
      else if (code c =? 102)%N then r' ← expect "alse" r; Some (JBool false, r')
      else if (code c =? 34)%N then
        '(t, r') ← parse_chars r; Some (JStr t, r')
      else if (code c =? 91)%N then
        match skip_ws r with
        | String c' r' =>
          if (code c' =? 93)%N then Some (JArr [], r')
          else '(l, r'') ← parse_elems (parse_value n') n' r; Some (JArr l, r'')
        | EmptyString => None
        end
      else if (code c =? 123)%N then
        match skip_ws r with
        | String c' r' =>
          if (code c' =? 125)%N then Some (JObj ∅, r')
          else '(l, r'') ← parse_members (parse_value n') n' r; Some (object_of l, r'')
        | EmptyString => None
        end
      else '(z, r') ← parse_number (String c r); Some (JNum z, r')
    | EmptyString => None
    end
  end.

(** [JSON.parse]: [None] stands for the [SyntaxError] it throws.  The reader
    also gives [None] on a JSON text with a number that has a fraction or an
    exponent, which is outside the model: see [json_text] below. *)
Definition parse (s : string) : option json :=
  match parse_value (S (String.length s)) s with
  | Some (v, r) => match skip_ws r with EmptyString => Some v | _ => None end
  | None => None
  end.

(** *** The texts that are JSON

    The reader above keeps to numbers that are integers.  [json_text] tells
    whether a text is a JSON text at all, by the grammar that [JSON.parse]
    accepts: the same values, with numbers that may have a fraction and an
    exponent.  A text that is not a JSON text is one on which [JSON.parse]
    throws its [SyntaxError]. *)

Fixpoint scan_digits (s : string) : string :=
  match s with
  | String c r => if is_digit c then scan_digits r else s
  | EmptyString => s
  end.

(** One digit or more. *)
Definition scan_digits1 (s : string) : option string :=
  match s with
  | String c r => if is_digit c then Some (scan_digits r) else None
  | EmptyString => None
  end.

(** A lone [0], or digits without a leading zero. *)
Definition scan_int (s : string) : option string :=
  match s with
  | String c r =>
    if negb (is_digit c) then None
    else if (code c =? 48)%N then Some r
    else Some (scan_digits r)
  | EmptyString => None
  end.

(** An optional fraction: a point and digits. *)
Definition scan_frac (s : string) : option string :=
  match s with
  | String c r => if (code c =? 46)%N then scan_digits1 r else Some s
  | EmptyString => Some s
  end.

(** An optional exponent: [e] or [E], an optional sign, and digits. *)
Definition scan_exp (s : string) : option string :=
  match s with
  | String c r =>
    if (code c =? 101)%N || (code c =? 69)%N then
      match r with
      | String d r1 =>
        if (code d =? 43)%N || (code d =? 45)%N then scan_digits1 r1
        else scan_digits1 r
      | EmptyString => None
      end
    else Some s
  | EmptyString => Some s
  end.

Definition scan_number (s : string) : option string :=
  match s with
  | String c r =>
    r1 ← scan_int (if (code c =? 45)%N then r else s);
    r2 ← scan_frac r1;
    scan_exp r2
  | EmptyString => None
  end.

Fixpoint scan_elems (sv : string → option string) (n : nat)
    (s : string) : option string :=
  match n with
  | O => None
  | S n' =>
    match sv s with
    | Some r =>
      match skip_ws r with
      | String "," r1 => scan_elems sv n' r1
      | String "]" r1 => Some r1
      | _ => None
      end
    | None => None
    end
  end.

Fixpoint scan_members (sv : string → option string) (n : nat)
    (s : string) : option string :=
  match n with
  | O => None
  | S n' =>
    match skip_ws s with
    | String c r =>
      if (code c =? 34)%N then
        match parse_chars r with
        | Some (_, r1) =>
          match skip_ws r1 with
          | String ":" r2 =>
            match sv r2 with
            | Some r3 =>
              match skip_ws r3 with
              | String "," r4 => scan_members sv n' r4
              | String "}" r4 => Some r4
              | _ => None
              end
            | None => None
            end
          | _ => None
          end
        | None => None
        end
      else None
    | EmptyString => None
    end
  end.

Fixpoint scan_value (n : nat) (s : string) : option string :=
  match n with
  | O => None
  | S n' =>
    match skip_ws s with
    | String c r =>
      if (code c =? 110)%N then expect "ull" r
      else if (code c =? 116)%N then expect "rue" r
      else if (code c =? 102)%N then expect "alse" r
      else if (code c =? 34)%N then
        '(_, r') ← parse_chars r; Some r'
      else if (code c =? 91)%N then
        match skip_ws r with
        | String c' r' =>
          if (code c' =? 93)%N then Some r'
          else scan_elems (scan_value n') n' r
        | EmptyString => None
        end
      else if (code c =? 123)%N then
        match skip_ws r with
        | String c' r' =>
          if (code c' =? 125)%N then Some r'
          else scan_members (scan_value n') n' r
        | EmptyString => None
        end
      else scan_number (String c r)
    | EmptyString => None
    end
  end.

Definition json_text (s : string) : bool :=
  match scan_value (S (String.length s)) s with
  | Some r => match skip_ws r with EmptyString => true | _ => false end
  | None => false
  end.

(** *** Values with the order of their properties

    A JavaScript value as [JSON.stringify] finds it: an object holds its
    properties in an order, which a finite map does not record, and
    [JSON.stringify] writes the members in that order.  [write] is
    [JSON.stringify] on such a value, and [value] the JSON value it stands
    for; for a list of members that repeats a key, [value] keeps the last
    one, as the reader does. *)
Inductive ordered :=
| ONull
| OBool (b : bool)
| ONum (z : Z)
| OStr (s : string)
| OArr (l : list ordered)
| OObj (members : list (string * ordered)).

Fixpoint write (o : ordered) : string :=
  match o with
  | ONull => "null"
  | OBool true => "true"
  | OBool false => "false"
  | ONum z => render_num z
  | OStr s => quote s
  | OArr l => "[" +:+ join (map write l) +:+ "]"
  | OObj members =>
    "{" +:+ join (map (λ '(k, e), render_member (k, write e)) members) +:+ "}"
  end.

Fixpoint value (o : ordered) : json :=
  match o with
  | ONull => JNull
  | OBool b => JBool b
  | ONum z => JNum z
  | OStr s => JStr s
  | OArr l => JArr (map value l)
  | OObj members => object_of (map (λ '(k, e), (k, value e)) members)
  end.

Fixpoint ordered_size (o : ordered) : nat :=
  match o with
  | OArr l => S (foldr (λ e acc, ordered_size e + acc) 0 l)
  | OObj members => S (foldr (λ '(_, e) acc, ordered_size e + acc) 0 members)
  | _ => 1
  end.


End Json.

(** ** JavaScript expressions over JSON values *)

Module Js.

Inductive exn :=
| SyntaxError                      (* thrown by [JSON.parse] *)
| TypeError                        (* a property read on [null]/[undefined], a missing method *)
| RequestError (data : jsval).     (* a rejected request; [data] is [err.response?.data] *)

Inductive result (A : Type) :=
| Ok (a : A)
| Throw (e : exn).
Arguments Ok {A} a.
Arguments Throw {A} e.

(** [!!v] *)
Definition truthy (v : jsval) : bool :=
  match v with
  | None | Some JNull => false
  | Some (JBool b) => b
  | Some (JNum z) => negb (z =? 0)%Z
  | Some (JStr s) => negb (String.eqb s "")
  | Some (JArr _) | Some (JObj _) => true
  end.

(** [a || b] *)
Definition or (a b : jsval) : jsval := if truthy a then a else b.

(** [a && b] *)
Definition and (a b : jsval) : jsval := if truthy a then b else a.

Definition nullish (v : jsval) : bool :=
  match v with None | Some JNull => true | _ => false end.

(** [v?.k], for the property names the program reads: besides [length], none
    of them is a built-in member of arrays, strings, numbers or objects. *)
Definition prop (v : jsval) (k : string) : jsval :=
  match v with
  | Some (JObj m) => m !! k
  | Some (JArr l) =>
    if String.eqb k "length" then Some (JNum (Z.of_nat (length l))) else None
  | Some (JStr s) =>
    if String.eqb k "length" then Some (JNum (Z.of_nat (String.length s))) else None
  | _ => None
  end.

(** [v.k] *)
Definition get (v : jsval) (k : string) : result jsval :=
  if nullish v then Throw TypeError else Ok (prop v k).

(** [o.k = v] on the properties of an object. *)
Definition set_prop (k : string) (v : jsval) (m : gmap string json) : gmap string json :=
  match v with
  | Some j => <[k := j]> m
  | None => delete k m
  end.

(** An object literal [{k1: v1, ..., kn: vn}]. *)
Definition object (fields : list (string * jsval)) : gmap string json :=
  foldl (λ m kv, set_prop kv.1 kv.2 m) ∅ fields.

Definition index_key (i : nat) : string := Json.render_num (Z.of_nat i).

Fixpoint indexed {A} (i : nat) (l : list A) : list (string * A) :=
  match l with
  | [] => []
  | x :: l' => (index_key i, x) :: indexed (S i) l'
  end.

Fixpoint chars (s : string) : list json :=
  match s with
  | EmptyString => []
  | String c r => JStr (String c "") :: chars r
  end.

(** The own enumerable properties copied by [{...v}]. *)
Definition spread (v : jsval) : gmap string json :=
  match v with
  | Some (JObj m) => m
  | Some (JArr l) => list_to_map (indexed 0 l)
  | Some (JStr s) => list_to_map (indexed 0 (chars s))
  | _ => ∅
  end.

(** [String(v)], as in a template literal. *)
Fixpoint to_string (v : json) : string :=
  match v with
  | JNull => "null"
  | JBool true => "true"
  | JBool false => "false"
  | JNum z => Json.render_num z
  | JStr s => s
  | JArr l =>
    Json.join (map (λ e, match e with JNull => "" | _ => to_string e end) l)
  | JObj _ => "[object Object]"
  end.

Definition template (v : jsval) : string :=
  match v with
  | None => "undefined"
  | Some j => to_string j
  end.

(** [v + 1] for a defined [v]. *)
Definition add_one (v : json) : json :=
  match v with
  | JNull => JNum 1
  | JBool b => JNum (if b then 2 else 1)
  | JNum z => JNum (z + 1)
  | _ => JStr (to_string v +:+ "1")
  end.

(** [a || b] where [b] is a defined value. *)
Definition or_else (a : jsval) (b : json) : json :=
  match a with
  | Some j => if truthy a then j else b
  | None => b
  end.

(** [v === s] for a string literal [s]. *)
Definition is_string (v : jsval) (s : string) : bool :=
  match v with
  | Some (JStr t) => String.eqb t s
  | _ => false
  end.

(** [v === n] for a number literal [n]. *)
Definition is_number (v : jsval) (n : Z) : bool :=
  match v with
  | Some (JNum z) => (z =? n)%Z
  | _ => false
  end.

Definition rbind {A B} (r : result A) (k : A → result B) : result B :=
  match r with
  | Ok a => k a
  | Throw e => Throw e
  end.

(** [l.filter(p)] and [l.map(f)] with callbacks that may throw. *)
Fixpoint filter_array {A} (p : A → result bool) (l : list A) : result (list A) :=
  match l with
  | [] => Ok []
  | x :: l' =>
    rbind (p x) (λ keep,
    rbind (filter_array p l') (λ kept,
    Ok (if keep then x :: kept else kept)))
  end.

Fixpoint map_array {A B} (f : A → result B) (l : list A) : result (list B) :=
  match l with
  | [] => Ok []
  | x :: l' =>
    rbind (f x) (λ y,
    rbind (map_array f l') (λ ys,
    Ok (y :: ys)))
  end.

(** [a.splice(start, 1)] on the elements of an array: what is left in [a]. *)
Definition splice1 {A} (start : Z) (l : list A) : list A :=
  let len := Z.of_nat (length l) in
  let actualStart :=
    if (start <? 0)%Z then Z.max (len + start) 0 else Z.min start len in
  let deleteCount := Z.min 1 (len - actualStart) in
  take (Z.to_nat actualStart) l ++ drop (Z.to_nat (actualStart + deleteCount)) l.

End Js.

(** ** The Search page *)

Module Search.
Import Js.

Inductive SearchType := attractions | hotels.

(** An entry of [items] in the payload of the save request:
    [{ name, price, type }]. *)
Inductive payload_item :=
| PayloadItem (name price type : jsval).

Definition payload_name (p : payload_item) : jsval := let 'PayloadItem n _ _ := p in n.
Definition payload_price (p : payload_item) : jsval := let 'PayloadItem _ c _ := p in c.
Definition payload_type (p : payload_item) : jsval := let 'PayloadItem _ _ t := p in t.

(** The body of a POST request: [{}], [{ departure_date, return_date, title }]
    or [{ flights, items }]. *)
Inductive body :=
| EmptyBody
| CreateFromFlights (departure_date return_date title : jsval)
| SaveBody (flights : list jsval) (items : list payload_item).

(** [api.get(url, { params })] and [api.post(url, body)]. *)
Inductive request :=
| GET (url : string) (params : list (string * string))
| POST (url : string) (payload : body).

(** The component's state ([useState]), but for [dayNumber], [time] and
    [durationMinutes], which only [handleAddToItinerary] reads. *)
Record state := State {
  searchType : SearchType;
  query : string;
  results : list json;
  attractionDetails : gmap string json;
  activitiesMap : gmap string json;
  expandedXid : jsval;
  loading : bool;
  error : json;
  successMessage : string;
  itineraries : json;
  showAddModal : bool;
  selectedItem : jsval;
  selectedItineraryId : jsval;
  adding : bool;
  checkIn : string;
  checkOut : string;
  pendingItems : json;
  currentItinerary : jsval;
}.

(** The component state, the browser's [localStorage] (taken as unbounded),
    the requests sent through [api] and the routes passed to [navigate],
    oldest first. *)
Record world := World {
  ui : state;
  localStorage : gmap string string;
  requests : list request;
  navigated : list string;
}.

(** The state of a freshly mounted component. *)
Definition initial_state : state :=
  State attractions "" [] ∅ ∅ (Some JNull) false (JStr "") "" (JArr []) false
        (Some JNull) (Some JNull) false "" "" (JArr []) (Some JNull).

Definition STORAGE_KEY : string := "planit_pending_items".

(** *** Computations that change the world and may throw *)

Definition M (A : Type) : Type := world → result A * world.

Definition ret {A} (a : A) : M A := λ w, (Ok a, w).

Definition bind {A B} (m : M A) (k : A → M B) : M B :=
  λ w, match m w with
       | (Ok a, w') => k a w'
       | (Throw e, w') => (Throw e, w')
       end.

Definition throw {A} (e : exn) : M A := λ w, (Throw e, w).

Definition lift {A} (r : result A) : M A := λ w, (r, w).

Definition try_catch {A} (block : M A) (handler : exn → M A) : M A :=
  λ w, match block w with
       | (Ok a, w') => (Ok a, w')
       | (Throw e, w') => handler e w'
       end.

Definition finally {A} (block : M A) (cleanup : M unit) : M A :=
  λ w, let '(r, w1) := block w in
       match cleanup w1 with
       | (Ok _, w2) => (r, w2)
       | (Throw e, w2) => (Throw e, w2)
       end.

Declare Scope js_scope.
Delimit Scope js_scope with js.
Notation "x <- m ;; k" := (bind m (λ x, k))
  (at level 100, m at next level, right associativity) : js_scope.
Notation "m ;; k" := (bind m (λ _, k))
  (at level 100, right associativity) : js_scope.
Local Open Scope js_scope.

(** The state as rendered: what the handler's closure reads. *)
Definition rendered : M state := λ w, (Ok (ui w), w).

Definition modify (f : state → state) : M unit :=
  λ w, let 'World s ls rs ns := w in (Ok tt, World (f s) ls rs ns).

Definition getItem (k : string) : M (option string) :=
  λ w, (Ok (localStorage w !! k), w).

Definition setItem (k v : string) : M unit :=
  λ w, let 'World s ls rs ns := w in (Ok tt, World s (<[k := v]> ls) rs ns).

Definition removeItem (k : string) : M unit :=
  λ w, let 'World s ls rs ns := w in (Ok tt, World s (delete k ls) rs ns).

Definition navigate (route : string) : M unit :=
  λ w, let 'World s ls rs ns := w in (Ok tt, World s ls rs (ns ++ [route])).

Definition JSON_parse (text : string) : M json :=
  match Json.parse text with
  | Some v => ret v
  | None => throw SyntaxError
  end.

(** [stored ? JSON.parse(stored) : fallback] for [stored] read from
    [localStorage]: a string, or [null] when the key is absent. *)
Definition parse_stored (stored : option string) (fallback : json) : M json :=
  match stored with
  | None | Some EmptyString => ret fallback
  | Some text => JSON_parse text
  end.

Section server.
(** What the backend answers to a request: [inr data] resolves with
    [response.data = data], [inl data] rejects with an error whose
    [response?.data] is [data]. *)
Context (server : request → jsval + jsval).

Definition api (r : request) : M jsval :=
  λ w, let 'World s ls rs ns := w in
       let w' := World s ls (rs ++ [r]) ns in
       match server r with
       | inr data => (Ok data, w')
       | inl data => (Throw (RequestError data), w')
       end.

(** [err.response?.data?.msg] *)
Definition msg_of (err : exn) : jsval :=
  match err with
  | RequestError data => prop data "msg"
  | _ => None
  end.

(** The setters of the component's state. *)
Definition setResults v : M unit :=
  modify (λ s, let 'State a1 a2 _ a4 a5 a6 a7 a8 a9 a10 a11 a12 a13 a14 a15 a16 a17 a18 := s in
             State a1 a2 v a4 a5 a6 a7 a8 a9 a10 a11 a12 a13 a14 a15 a16 a17 a18).
Definition setAttractionDetails v : M unit :=
  modify (λ s, let 'State a1 a2 a3 _ a5 a6 a7 a8 a9 a10 a11 a12 a13 a14 a15 a16 a17 a18 := s in
             State a1 a2 a3 v a5 a6 a7 a8 a9 a10 a11 a12 a13 a14 a15 a16 a17 a18).
Definition setActivitiesMap v : M unit :=
  modify (λ s, let 'State a1 a2 a3 a4 _ a6 a7 a8 a9 a10 a11 a12 a13 a14 a15 a16 a17 a18 := s in
             State a1 a2 a3 a4 v a6 a7 a8 a9 a10 a11 a12 a13 a14 a15 a16 a17 a18).
Definition setExpandedXid v : M unit :=
  modify (λ s, let 'State a1 a2 a3 a4 a5 _ a7 a8 a9 a10 a11 a12 a13 a14 a15 a16 a17 a18 := s in
             State a1 a2 a3 a4 a5 v a7 a8 a9 a10 a11 a12 a13 a14 a15 a16 a17 a18).
Definition setLoading v : M unit :=
  modify (λ s, let 'State a1 a2 a3 a4 a5 a6 _ a8 a9 a10 a11 a12 a13 a14 a15 a16 a17 a18 := s in
             State a1 a2 a3 a4 a5 a6 v a8 a9 a10 a11 a12 a13 a14 a15 a16 a17 a18).
Definition setError v : M unit :=
  modify (λ s, let 'State a1 a2 a3 a4 a5 a6 a7 _ a9 a10 a11 a12 a13 a14 a15 a16 a17 a18 := s in
             State a1 a2 a3 a4 a5 a6 a7 v a9 a10 a11 a12 a13 a14 a15 a16 a17 a18).
Definition setSuccessMessage v : M unit :=
  modify (λ s, let 'State a1 a2 a3 a4 a5 a6 a7 a8 _ a10 a11 a12 a13 a14 a15 a16 a17 a18 := s in
             State a1 a2 a3 a4 a5 a6 a7 a8 v a10 a11 a12 a13 a14 a15 a16 a17 a18).
Definition setItineraries v : M unit :=
  modify (λ s, let 'State a1 a2 a3 a4 a5 a6 a7 a8 a9 _ a11 a12 a13 a14 a15 a16 a17 a18 := s in
             State a1 a2 a3 a4 a5 a6 a7 a8 a9 v a11 a12 a13 a14 a15 a16 a17 a18).
Definition setShowAddModal v : M unit :=
  modify (λ s, let 'State a1 a2 a3 a4 a5 a6 a7 a8 a9 a10 _ a12 a13 a14 a15 a16 a17 a18 := s in
             State a1 a2 a3 a4 a5 a6 a7 a8 a9 a10 v a12 a13 a14 a15 a16 a17 a18).
Definition setSelectedItem v : M unit :=
  modify (λ s, let 'State a1 a2 a3 a4 a5 a6 a7 a8 a9 a10 a11 _ a13 a14 a15 a16 a17 a18 := s in
             State a1 a2 a3 a4 a5 a6 a7 a8 a9 a10 a11 v a13 a14 a15 a16 a17 a18).
Definition setSelectedItineraryId v : M unit :=
  modify (λ s, let 'State a1 a2 a3 a4 a5 a6 a7 a8 a9 a10 a11 a12 _ a14 a15 a16 a17 a18 := s in
             State a1 a2 a3 a4 a5 a6 a7 a8 a9 a10 a11 a12 v a14 a15 a16 a17 a18).
Definition setAdding v : M unit :=
  modify (λ s, let 'State a1 a2 a3 a4 a5 a6 a7 a8 a9 a10 a11 a12 a13 _ a15 a16 a17 a18 := s in
             State a1 a2 a3 a4 a5 a6 a7 a8 a9 a10 a11 a12 a13 v a15 a16 a17 a18).
Definition setPendingItems v : M unit :=
  modify (λ s, let 'State a1 a2 a3 a4 a5 a6 a7 a8 a9 a10 a11 a12 a13 a14 a15 a16 _ a18 := s in
             State a1 a2 a3 a4 a5 a6 a7 a8 a9 a10 a11 a12 a13 a14 a15 a16 v a18).
Definition setCurrentItinerary v : M unit :=
  modify (λ s, let 'State a1 a2 a3 a4 a5 a6 a7 a8 a9 a10 a11 a12 a13 a14 a15 a16 a17 _ := s in
             State a1 a2 a3 a4 a5 a6 a7 a8 a9 a10 a11 a12 a13 a14 a15 a16 a17 v).

(** *** The pending item store *)

Definition getPendingItems : M json :=
  stored <- getItem STORAGE_KEY;;
  parse_stored stored (JArr []).

(** [items.push(item)]: only arrays have the method. *)
Definition push (items item : json) : M json :=
  match items with
  | JArr l => ret (JArr (l ++ [item]))
  | _ => throw TypeError
  end.

Definition addPendingItem (item : json) : M unit :=
  items <- getPendingItems;;
  items <- push items item;;
  setItem STORAGE_KEY (Json.stringify items).

Definition clearPendingItems : M unit := removeItem STORAGE_KEY.

Definition removePendingItem (index : Z) : M unit :=
  items <- getPendingItems;;
  match items with
  | JArr l =>
    let l' := splice1 index l in
    setItem STORAGE_KEY (Json.stringify (JArr l'));;
    setPendingItems (JArr l')
  | _ => throw TypeError
  end.

(** *** Search results *)

Definition isHotelLike (item : jsval) : bool :=
  if negb (truthy item) then false
  else truthy (or (prop item "hotel_id") (or (prop item "hotel_key")
         (or (prop item "price_per_night") (or (prop item "rating")
           (prop item "address"))))).

Definition normalizeAttraction (item : json) : json :=
  if negb (truthy (Some item)) then item
  else
    let i := Some item in
    let normalized := spread i in
    let normalized :=
      set_prop "image_url"
        (or (prop i "image_url") (or (prop i "image") (or (prop i "thumbnail")
          (or (prop i "photo") (Some JNull))))) normalized in
    let normalized :=
      set_prop "xid" (or (prop i "xid") (or (prop i "id") (prop i "xid")))
        normalized in
    JObj normalized.

Definition normalizeHotel (item : json) : json :=
  if negb (truthy (Some item)) then item
  else
    let i := Some item in
    let normalized := spread i in
    let normalized :=
      set_prop "image"
        (or (prop i "image") (or (prop i "thumbnail") (or (prop i "image_url")
          (or (prop i "photo") (Some JNull))))) normalized in
    let normalized :=
      set_prop "price_per_night"
        (or (prop i "price_per_night") (or (prop i "price")
          (or (prop i "nightly_price") (Some JNull)))) normalized in
    let normalized :=
      set_prop "hotel_id"
        (or (prop i "hotel_id") (or (prop i "id") (or (prop i "hotel_key")
          (Some JNull)))) normalized in
    JObj normalized.

Definition loadItineraries : M unit :=
  try_catch
    (data <- api (GET "/itineraries" []);;
     setItineraries (or_else data (JArr [])))
    (λ _, ret tt).

(** White space as [trim] removes it, in UTF-8: the ASCII controls TAB to CR
    and the space; U+00A0, U+1680, U+2000 to U+200A, U+2028, U+2029,
    U+202F, U+205F, U+3000 and U+FEFF. *)
Definition space_prefix (s : string) : option string :=
  match s with
  | String c r =>
    let n := Json.code c in
    if ((9 <=? n) && (n <=? 13) || (n =? 32))%N then Some r
    else
      match r with
      | String c1 r1 =>
        let n1 := Json.code c1 in
        if ((n =? 194) && (n1 =? 160))%N then Some r1
        else
          match r1 with
          | String c2 r2 =>
            let n2 := Json.code c2 in
            if ((n =? 225) && (n1 =? 154) && (n2 =? 128))%N then Some r2
            else if ((n =? 226) && (n1 =? 128)
                     && ((128 <=? n2) && (n2 <=? 138) || (n2 =? 168)
                         || (n2 =? 169) || (n2 =? 175)))%N then Some r2
            else if ((n =? 226) && (n1 =? 129) && (n2 =? 159))%N then Some r2
            else if ((n =? 227) && (n1 =? 128) && (n2 =? 128))%N then Some r2
            else if ((n =? 239) && (n1 =? 187) && (n2 =? 191))%N then Some r2
            else None
          | EmptyString => None
          end
      | EmptyString => None
      end
  | EmptyString => None
  end.

(** [!query.trim()]: the text is white space only. *)
Fixpoint blank_fuel (n : nat) (s : string) : bool :=
  match s with
  | EmptyString => true
  | _ =>
    match n with
    | O => false
    | S n' =>
      match space_prefix s with
      | Some r => blank_fuel n' r
      | None => false
      end
    end
  end.

Definition blank (s : string) : bool := blank_fuel (String.length s) s.

Definition handleSearch (forceType : option SearchType) : M unit :=
  s <- rendered;;
  let activeType := default (searchType s) forceType in
  if blank (query s) then ret tt
  else
    setLoading true;;
    setError (JStr "");;
    setSuccessMessage "";;
    finally
      (try_catch
         match activeType with
         | attractions =>
           data <- api (GET "/search/attractions" [("location", query s)]);;
           match (if truthy data then prop data "attractions" else None) with
           | Some (JArr raw) =>
             let normalized :=
               List.filter (λ it, negb (isHotelLike (Some it)))
                 (map normalizeAttraction raw) in
             setResults normalized;;
             setExpandedXid (Some JNull);;
             setAttractionDetails ∅;;
             setActivitiesMap ∅;;
             if (length normalized =? 0)%nat && (0 <? length raw)%nat then
               setError (JStr "Attractions endpoint returned results that appear to be hotels; none shown.")
             else ret tt
           | _ =>
             setResults [];;
             setError (JStr "No attractions found (server returned unexpected data).")
           end
         | hotels =>
           if String.eqb (checkIn s) "" || String.eqb (checkOut s) "" then
             setError (JStr "Check-in and check-out dates are required");;
             setLoading false
           else
             data <- api (GET "/search/hotels"
                            [("location", query s); ("check_in", checkIn s);
                             ("check_out", checkOut s)]);;
             rawHotels <- lift (get data "hotels");;
             match or_else rawHotels (JArr []) with
             | JArr l => setResults (map normalizeHotel l)
             | _ => throw TypeError
             end
         end
         (λ err, setError (or_else (msg_of err) (JStr "Search failed"))))
      (setLoading false).

Definition closeModal : M unit :=
  setShowAddModal false;;
  setSelectedItem (Some JNull);;
  setError (JStr "").

(** [now] is [new Date().toISOString()]. *)
Definition handleAddToLocalStorage (now : string) : M unit :=
  s <- rendered;;
  if negb (truthy (selectedItem s)) then ret tt
  else
    let itemType := match searchType s with hotels => "hotel" | attractions => "attraction" end in
    let pendingItem :=
      JObj (object [("type", Some (JStr itemType)); ("data", selectedItem s);
                    ("addedAt", Some (JStr now))]) in
    addPendingItem pendingItem;;
    items <- getPendingItems;;
    setPendingItems items;;
    setSuccessMessage
      (match searchType s with hotels => "Hotel" | attractions => "Attraction" end
       +:+ " added to pending items!");;
    closeModal.

(** *** Saving all pending items *)

(** [pendingItems.filter(...)]: only arrays have the method. *)
Definition elements (v : json) : result (list json) :=
  match v with
  | JArr l => Ok l
  | _ => Throw TypeError
  end.

(** The callback that projects a pending item.  Once [item.data.name] has
    been read without a [TypeError], [item] and [item.data] are neither
    [null] nor [undefined], and the reads that follow cannot throw. *)
Definition project (item : json) : result payload_item :=
  rbind (get (Some item) "data") (λ data,
  rbind (get data "name") (λ name,
  Ok (PayloadItem
        (or name (prop data "title"))
        (or (prop data "price") (or (prop data "price_per_night") (Some (JNum 0))))
        (prop (Some item) "type")))).

(** The second block ("Prepare payload"): [flights] and [items]. *)
Definition payload (pendingItems : json) : result (list jsval * list payload_item) :=
  rbind (elements pendingItems) (λ l,
  rbind (filter_array (λ item, rbind (get (Some item) "type")
                                 (λ t, Ok (is_string t "flight"))) l) (λ fl,
  rbind (map_array (λ item, get (Some item) "data") fl) (λ flights,
  rbind (elements pendingItems) (λ l,
  rbind (filter_array (λ item, rbind (get (Some item) "type")
                                 (λ t, Ok (negb (is_string t "flight")))) l) (λ others,
  rbind (map_array project others) (λ items,
  Ok (flights, items))))))).

(** The first block of [handleSaveAllToItinerary]'s [try]: the itinerary to
    save into is the selected one, or one created on the spot; [None] when
    the creation failed and the handler returned. *)
Definition ensureItinerary (s : state) : M (option jsval) :=
  let itineraryId := selectedItineraryId s in
  if truthy itineraryId then ret (Some itineraryId)
  else
    stored <- getItem "planit_current_itinerary";;
    storedItinerary <- parse_stored stored JNull;;
    let storedItinerary := Some storedItinerary in
    try_catch
      (createResp <-
         (if truthy (and storedItinerary
                      (and (prop storedItinerary "departure_date")
                           (prop storedItinerary "return_date")))
          then api (POST "/itineraries/create-from-flights"
                      (CreateFromFlights
                         (prop storedItinerary "departure_date")
                         (prop storedItinerary "return_date")
                         (or (prop storedItinerary "title") None)))
          else api (POST "/itineraries" EmptyBody));;
       itineraryId <- lift (get createResp "itinerary_id");;
       let title :=
         or_else (prop storedItinerary "title")
           (JStr ("Itinerary " +:+
                  to_string (add_one (or_else (prop (Some (itineraries s)) "length")
                                        (JNum 0))))) in
       let current :=
         object [("itinerary_id", itineraryId); ("title", Some title);
                 ("origin", prop storedItinerary "origin");
                 ("destination", prop storedItinerary "destination");
                 ("departure_date", prop storedItinerary "departure_date");
                 ("return_date", prop storedItinerary "return_date")] in
       setItem "planit_current_itinerary" (Json.stringify (JObj current));;
       setCurrentItinerary (Some (JObj current));;
       setSelectedItineraryId itineraryId;;
       loadItineraries;;
       ret (Some itineraryId))
      (λ createErr,
         setError (or_else (msg_of createErr) (JStr "Failed to create itinerary"));;
         setAdding false;;
         ret None).

Definition handleSaveAllToItinerary : M unit :=
  s <- rendered;;
  len <- lift (get (Some (pendingItems s)) "length");;
  if is_number len 0 then setError (JStr "No pending items to save")
  else
    setAdding true;;
    setError (JStr "");;
    finally
      (try_catch
         (target <- ensureItinerary s;;
          match target with
          | None => ret tt
          | Some itineraryId =>
            body <- lift (payload (pendingItems s));;
            let '(flights, items) := body in
            data <- api (POST ("/itineraries/" +:+ template itineraryId +:+ "/save")
                           (SaveBody flights items));;
            setItem "planit_saved_data"
              (Json.stringify
                 (JObj (spread data ∪ object [("itinerary_id", itineraryId)])));;
            clearPendingItems;;
            setPendingItems (JArr []);;
            removeItem "planit_current_itinerary";;
            setCurrentItinerary (Some JNull);;
            setSuccessMessage "All items saved to itinerary!";;
            navigate ("/itineraries/" +:+ template itineraryId)
          end)
         (λ err, setError (or_else (msg_of err) (JStr "Failed to save items"))))
      (setAdding false).

End server.

(** *** Pending items as the interface [PendingItem] declares them *)

Inductive item_type := flight | hotel | attraction.

Global Instance item_type_eq_dec : EqDecision item_type.
Proof. solve_decision. Defined.

Definition type_name (t : item_type) : string :=
  match t with
  | flight => "flight"
  | hotel => "hotel"
  | attraction => "attraction"
  end.

Record PendingItem := {
  type : item_type;
  data : gmap string json;
  addedAt : string;
}.

Definition to_json (item : PendingItem) : json :=
  JObj (object [("type", Some (JStr (type_name (type item))));
                ("data", Some (JObj (data item)));
                ("addedAt", Some (JStr (addedAt item)))]).

(** *** [handleSearch] on any argument

    [handleSearch] above takes the calls [handleSearch()] and
    [handleSearch(type)].  The function is also handed to the Search button
    as its click handler, [onClick={handleSearch}], and a click handler is
    called with the click event: here is the same function with an argument
    that is any value. *)
Definition search_type_name (t : SearchType) : string :=
  match t with
  | attractions => "attractions"
  | hotels => "hotels"
  end.

Definition handleSearchWith (server : request → jsval + jsval) (forceType : jsval) : M unit :=
  s <- rendered;;
  let activeType := or forceType (Some (JStr (search_type_name (searchType s)))) in
  if blank (query s) then ret tt
  else
    setLoading true;;
    setError (JStr "");;
    setSuccessMessage "";;
    finally
      (try_catch
         (if is_string activeType "attractions" then
            data <- api server (GET "/search/attractions" [("location", query s)]);;
            match (if truthy data then prop data "attractions" else None) with
            | Some (JArr raw) =>
              let normalized :=
                List.filter (λ it, negb (isHotelLike (Some it)))
                  (map normalizeAttraction raw) in
              setResults normalized;;
              setExpandedXid (Some JNull);;
              setAttractionDetails ∅;;
              setActivitiesMap ∅;;
              if (length normalized =? 0)%nat && (0 <? length raw)%nat then
                setError (JStr "Attractions endpoint returned results that appear to be hotels; none shown.")
              else ret tt
            | _ =>
              setResults [];;
              setError (JStr "No attractions found (server returned unexpected data).")
            end
          else if is_string activeType "hotels" then
            if String.eqb (checkIn s) "" || String.eqb (checkOut s) "" then
              setError (JStr "Check-in and check-out dates are required");;
              setLoading false
            else
              data <- api server
                        (GET "/search/hotels"
                           [("location", query s); ("check_in", checkIn s);
                            ("check_out", checkOut s)]);;
              rawHotels <- lift (get data "hotels");;
              match or_else rawHotels (JArr []) with
              | JArr l => setResults (map normalizeHotel l)
              | _ => throw TypeError
              end
          else ret tt)
         (λ err, setError (or_else (msg_of err) (JStr "Search failed"))))
      (setLoading false).

(** *** The Clear All button of the pending list

    [onClick={() => { clearPendingItems(); setPendingItems([]); }}] *)
Definition onClearAll : M unit :=
  clearPendingItems;;
  setPendingItems (JArr []).

End Search.

(** ** The Search page of [Home.tsx]

    The second document of [Home.tsx] is an earlier version of the Search
    page.  Its pending item store ([getPendingItems], [addPendingItem],
    [clearPendingItems], [removePendingItem]) and the payload of its save
    request are, word for word, those of [Search.tsx]; its component state is
    the one above without [attractionDetails], [activitiesMap] and
    [expandedXid], which its save handler could not touch.  The handler
    differs: it creates no itinerary. *)

Module Home.
Import Js Search.
Local Open Scope js_scope.

Section server.
Context (server : request → jsval + jsval).

Definition handleSaveAllToItinerary : M unit :=
  s <- rendered;;
  len <- lift (get (Some (pendingItems s)) "length");;
  if is_number len 0 then setError (JStr "No pending items to save")
  else if negb (truthy (selectedItineraryId s)) then
    setError (JStr "Please select an itinerary first")
  else
    setAdding true;;
    setError (JStr "");;
    finally
      (try_catch
         (body <- lift (payload (pendingItems s));;
          let '(flights, items) := body in
          data <- api server
                    (POST ("/itineraries/" +:+ template (selectedItineraryId s) +:+ "/save")
                       (SaveBody flights items));;
          setItem "planit_saved_data"
            (Json.stringify
               (JObj (spread data ∪ object [("itinerary_id", selectedItineraryId s)])));;
          clearPendingItems;;
          setPendingItems (JArr []);;
          removeItem "planit_current_itinerary";;
          setCurrentItinerary (Some JNull);;
          setSuccessMessage "All items saved to itinerary!";;
          navigate ("/itineraries/" +:+ template (selectedItineraryId s)))
         (λ err, setError (or_else (msg_of err) (JStr "Failed to save items"))))
      (setAdding false).

End server.

End Home.

(** ** The navigation bar *)

Module Navbar.

(** [isActive(path)], where [pathname] is [location.pathname]. *)
Definition isActive (pathname path : string) : bool :=
  String.eqb pathname path || String.prefix (path +:+ "/") pathname.

(** The paths of the links shown to a signed-in user, in the order of the bar. *)
Definition links : list string := ["/itineraries"; "/ai"; "/companions"; "/chat"].

End Navbar.

(** * Statements

    The vocabulary of the properties below: what a computation leaves behind,
    the requests of the save handler, the ways it ends, and the data of the
    examples. *)

Import Js Search.
Local Open Scope js_scope.
Local Open Scope nat_scope.
Local Open Scope list_scope.

(** The world and the outcome after a computation, and the requests it sent. *)
Definition after {A} (m : M A) (w : world) : world := (m w).2.
Definition outcome {A} (m : M A) (w : world) : result A := (m w).1.
Definition issued {A} (m : M A) (w : world) : list request :=
  drop (length (requests w)) (requests (after m w)).

(** [addPendingItem] called on each item in turn. *)
Definition add_all (items : list json) : M unit :=
  foldr (λ item rest, addPendingItem item;; rest) (ret tt) items.

(** The store lists [v] and the component shows the same list: the component
    re-reads the store after every add, and rewrites both on every remove,
    clear and save. *)
Definition staged (w : world) (v : json) : Prop :=
  outcome getPendingItems w = Ok v ∧ pendingItems (ui w) = v.

(** Nothing stored, sent, navigated or staged differs between two worlds. *)
Definition quiet (w w' : world) : Prop :=
  localStorage w' = localStorage w ∧ requests w' = requests w
  ∧ navigated w' = navigated w ∧ pendingItems (ui w') = pendingItems (ui w).

Definition DRAFT_KEY : string := "planit_current_itinerary".
Definition SAVED_KEY : string := "planit_saved_data".

(** The creation request for a draft context [d] ([null] when none is stored). *)
Definition create_request (d : json) : request :=
  if truthy (prop (Some d) "departure_date") && truthy (prop (Some d) "return_date")
  then POST "/itineraries/create-from-flights"
         (CreateFromFlights (prop (Some d) "departure_date")
            (prop (Some d) "return_date") (or (prop (Some d) "title") None))
  else POST "/itineraries" EmptyBody.

Definition save_request (id : jsval) (fl : list jsval) (its : list payload_item) : request :=
  POST ("/itineraries/" +:+ template id +:+ "/save") (SaveBody fl its).

Definition read_draft (w : world) : result json :=
  (parse_stored (localStorage w !! DRAFT_KEY) JNull w).1.

(** What [project] makes of a well-formed pending item. *)
Definition projection (item : PendingItem) : payload_item :=
  PayloadItem
    (or (data item !! "name") (data item !! "title"))
    (or (data item !! "price") (or (data item !! "price_per_night") (Some (JNum 0))))
    (Some (JStr (type_name (type item)))).

(** A property name that is neither an array index nor [length]. *)
Definition plain_key (k : string) : bool :=
  match k with
  | String c _ => negb (Json.is_digit c || (Json.code c =? 45)%N)
  | EmptyString => true
  end && negb (String.eqb k "length").

(** The price fallback in the order "nightly price, then generic price,
    defaulting to zero", to be compared with the one of [project]. *)
Definition price_nightly_first (d : gmap string json) : jsval :=
  or (d !! "price_per_night") (or (d !! "price") (Some (JNum 0))).

Section paths.
Context (server : request → jsval + jsval).

(** The ways [ensureItinerary] ends. *)
Inductive ensured (s : state) (w : world) : result (option jsval) → world → Prop :=
| ensured_selected w1 :
    truthy (selectedItineraryId s) = true → quiet w w1 →
    ensured s w (Ok (Some (selectedItineraryId s))) w1
| ensured_corrupt e w1 :
    truthy (selectedItineraryId s) = false → read_draft w = Throw e → quiet w w1 →
    ensured s w (Throw e) w1
| ensured_failed d w1 :
    truthy (selectedItineraryId s) = false → read_draft w = Ok d →
    ((∃ data, server (create_request d) = inl data)
     ∨ (∃ data, server (create_request d) = inr data ∧ nullish data = true)) →
    localStorage w1 = localStorage w →
    requests w1 = requests w ++ [create_request d] →
    navigated w1 = navigated w →
    pendingItems (ui w1) = pendingItems (ui w) →
    ensured s w (Ok None) w1
| ensured_created d data id text w1 :
    truthy (selectedItineraryId s) = false → read_draft w = Ok d →
    server (create_request d) = inr data → get data "itinerary_id" = Ok id →
    localStorage w1 = <[DRAFT_KEY := text]> (localStorage w) →
    requests w1 = requests w ++ [create_request d; GET "/itineraries" []] →
    navigated w1 = navigated w →
    pendingItems (ui w1) = pendingItems (ui w) →
    selectedItineraryId (ui w1) = id →
    ensured s w (Ok (Some id)) w1.

(** The ways [handleSaveAllToItinerary] ends. *)
Inductive save_path (w : world) : result unit → world → Prop :=
| path_type_error e :
    get (Some (pendingItems (ui w))) "length" = Throw e →
    save_path w (Throw e) w
| path_no_pending len w' :
    get (Some (pendingItems (ui w))) "length" = Ok len →
    is_number len 0 = true →
    quiet w w' → error (ui w') = JStr "No pending items to save" →
    save_path w (Ok tt) w'
| path_aborted len r w1 w' :
    get (Some (pendingItems (ui w))) "length" = Ok len →
    is_number len 0 = false →
    ensured (ui w) w r w1 →
    match r with
    | Ok (Some id) => ∃ e, payload (pendingItems (ui w)) = Throw e
    | _ => True
    end →
    quiet w1 w' →
    save_path w (Ok tt) w'
| path_save_failed len id fl its data w1 w' :
    get (Some (pendingItems (ui w))) "length" = Ok len →
    is_number len 0 = false →
    ensured (ui w) w (Ok (Some id)) w1 →
    payload (pendingItems (ui w)) = Ok (fl, its) →
    server (save_request id fl its) = inl data →
    localStorage w' = localStorage w1 →
    requests w' = requests w1 ++ [save_request id fl its] →
    navigated w' = navigated w1 →
    pendingItems (ui w') = pendingItems (ui w1) →
    save_path w (Ok tt) w'
| path_saved len id fl its data w1 w' :
    get (Some (pendingItems (ui w))) "length" = Ok len →
    is_number len 0 = false →
    ensured (ui w) w (Ok (Some id)) w1 →
    payload (pendingItems (ui w)) = Ok (fl, its) →
    server (save_request id fl its) = inr data →
    localStorage w'
    = delete DRAFT_KEY (delete STORAGE_KEY
        (<[SAVED_KEY := Json.stringify
                          (JObj (spread data ∪ object [("itinerary_id", id)]))]>
           (localStorage w1))) →
    requests w' = requests w1 ++ [save_request id fl its] →
    navigated w' = navigated w1 ++ ["/itineraries/" +:+ template id] →
    pendingItems (ui w') = JArr [] →
    currentItinerary (ui w') = Some JNull →
    save_path w (Ok tt) w'.

End paths.

(** Worlds and backends for the examples. *)
Definition showing (pending : json) (selected : jsval) : state :=
  State attractions "" [] ∅ ∅ (Some JNull) false (JStr "") "" (JArr []) false
        (Some JNull) selected false "" "" pending (Some JNull).

Definition world_of (pending : json) (selected : jsval) (draft : option string) : world :=
  World (showing pending selected)
        (match draft with
         | Some text => <[DRAFT_KEY := text]> {[STORAGE_KEY := Json.stringify pending]}
         | None => {[STORAGE_KEY := Json.stringify pending]}
         end) [] [].

Definition hotel_a : PendingItem :=
  {| type := hotel;
     data := {["name" := JStr "Hotel A"; "price_per_night" := JNum 120]};
     addedAt := "2025-01-01T10:00:00.000Z" |}.

Definition flight_x : PendingItem :=
  {| type := flight;
     data := {["airline" := JStr "XY"; "price" := JNum 300]};
     addedAt := "2025-01-01T09:00:00.000Z" |}.

Definition backend_down : request → jsval + jsval := λ _, inl None.

Definition backend_up : request → jsval + jsval :=
  λ _, inr (Some (JObj {["itinerary_id" := JNum 7]})).

Definition searching (text : string) : state :=
  State attractions text [] ∅ ∅ (Some JNull) false (JStr "") "" (JArr []) false
        (Some JNull) (Some JNull) false "" "" (JArr []) (Some JNull).

Definition only_a_hotel : list json :=
  [JObj {["name" := JStr "Grand Hotel"; "hotel_id" := JStr "h1";
          "price_per_night" := JNum 150]}].

Definition backend_hotels : request → jsval + jsval :=
  λ _, inr (Some (JObj {["attractions" := JArr only_a_hotel]})).

Definition hotel_b : PendingItem :=
  {| type := hotel;
     data := {["name" := JStr "Hotel B"; "price" := JNum 50;
               "price_per_night" := JNum 120]};
     addedAt := "2025-01-01T11:00:00.000Z" |}.

Definition hotel_free_price : PendingItem :=
  {| type := hotel;
     data := {["name" := JStr ""; "title" := JStr "Harbour Inn"; "price" := JNum 0;
               "price_per_night" := JNum 95]};
     addedAt := "2025-01-01T12:00:00.000Z" |}.

Definition summer_draft : json :=
  JObj {["departure_date" := JStr "2025-06-01"; "return_date" := JStr "2025-06-08"]}.


(** The request of a search of kind [activeType] from the state [s]. *)
Definition search_request (s : state) (activeType : SearchType) : request :=
  match activeType with
  | attractions => GET "/search/attractions" [("location", query s)]
  | hotels =>
    GET "/search/hotels"
      [("location", query s); ("check_in", checkIn s); ("check_out", checkOut s)]
  end.

Definition searching_hotels (text check_in check_out : string) : state :=
  State hotels text [] ∅ ∅ (Some JNull) false (JStr "") "" (JArr []) false
        (Some JNull) (Some JNull) false check_in check_out (JArr []) (Some JNull).

Definition backend_busy : request → jsval + jsval :=
  λ _, inl (Some (JObj {["msg" := JStr "Service unavailable"]})).

(** An entry from which the payload cannot be built: [null], or an entry
    other than a flight whose [data] is [null] or missing. *)
Definition malformed (item : json) : bool :=
  nullish (Some item)
  || negb (is_string (prop (Some item) "type") "flight")
     && nullish (prop (Some item) "data").

(** A backend that creates itineraries and lists them, but rejects saves. *)
Definition backend_no_save : request → jsval + jsval :=
  λ r, match r with
       | POST _ (SaveBody _ _) => inl None
       | _ => inr (Some (JObj {["itinerary_id" := JNum 7]}))
       end.

(** The argument of [handleSearchWith] for a call [handleSearch()] or
    [handleSearch(type)]. *)
Definition argument (forceType : option SearchType) : jsval :=
  match forceType with
  | Some t => Some (JStr (search_type_name t))
  | None => None
  end.

(** A backend that answers every request with a status and no id. *)
Definition backend_ok : request → jsval + jsval :=
  λ _, inr (Some (JObj {["status" := JStr "ok"]})).

(** * Properties *)

(** ** The JSON reader reads back what the writer wrote *)

Module JsonFacts.
Import Json.

Lemma app_cons c r s : String c r +:+ s = String c (r +:+ s).
Proof. reflexivity. Qed.

Lemma app_empty s : "" +:+ s = s.
Proof. reflexivity. Qed.

Lemma app_assoc (a b c : string) : (a +:+ b) +:+ c = a +:+ (b +:+ c).
Proof. induction a as [|x a IH]; [done|]. by rewrite !app_cons, IH. Qed.

Lemma app_length (a b : string) :
  String.length (a +:+ b) = String.length a + String.length b.
Proof. induction a as [|x a IH]; [done|]. rewrite app_cons. simpl. by rewrite IH. Qed.

Ltac norm_app := rewrite ?app_assoc, ?app_cons, ?app_empty.

Lemma parse_chars_escape_char c r :
  parse_chars (escape_char c +:+ r) =
  match parse_chars r with
  | Some (t, rest) => Some (String c t, rest)
  | None => None
  end.
Proof. destruct c as [[] [] [] [] [] [] [] []]; reflexivity. Qed.

Lemma parse_chars_escape s rest :
  parse_chars (escape s +:+ String dquote rest) = Some (s, rest).
Proof.
  induction s as [|c s IH]; [done|].
  cbn [escape]. by rewrite app_assoc, parse_chars_escape_char, IH.
Qed.

Lemma parse_digits_acc d p rest :
  closes_number rest = true →
  parse_digits (Zpos p) (NilEmpty.string_of_uint d +:+ rest) =
  (Zpos (Pos.of_uint_acc d p), rest).
Proof.
  intros Hrest. revert p.
  induction d; intros p; cbn [NilEmpty.string_of_uint];
    rewrite ?app_cons, ?app_empty.
  2-11: cbn [parse_digits Pos.of_uint_acc]; change (is_digit _) with true;
    cbv iota; rewrite <- IHd; f_equal;
    match goal with
    | |- context [Z.of_N ?n] => let n' := eval vm_compute in n in change n with n'
    end; lia.
  destruct rest as [|c r]; [done|]. cbn [parse_digits].
  cbn in Hrest. rewrite !negb_orb in Hrest.
  destruct (is_digit c); [done|]. done.
Qed.

Lemma to_uint_normal p : Decimal.unorm (Pos.to_uint p) = Pos.to_uint p.
Proof.
  rewrite <- DecimalPos.Unsigned.to_of, DecimalPos.Unsigned.of_to. reflexivity.
Qed.

Lemma parse_nat_pos p rest :
  closes_number rest = true →
  parse_nat (NilEmpty.string_of_uint (Pos.to_uint p) +:+ rest) = Some (Zpos p, rest)
  ∧ ∃ c r, NilEmpty.string_of_uint (Pos.to_uint p) = String c r
           ∧ is_digit c = true.
Proof.
  intros Hrest.
  pose proof (DecimalPos.Unsigned.of_to p) as Hof.
  pose proof (to_uint_normal p) as Hnorm.
  pose proof (DecimalPos.Unsigned.to_uint_nonzero p) as Hnz.
  destruct (Pos.to_uint p) as [|d|d|d|d|d|d|d|d|d|d] eqn:Hd; [done| |..].
  { exfalso. rewrite DecimalFacts.unorm_D0 in Hnorm.
    unfold Decimal.unorm in Hnorm.
    destruct (Decimal.nzhead d) eqn:Hh;
      by apply (DecimalFacts.nzhead_nonzero d d); congruence. }
  all: split; [|by eexists _, _].
  all: cbn [NilEmpty.string_of_uint]; rewrite app_cons; unfold parse_nat;
    match goal with
    | |- context [negb (is_digit ?c)] => change (is_digit c) with true
    end; cbn [negb];
    match goal with
    | |- context [(code ?c =? 48)%N] => change (code c =? 48)%N with false
    end; cbv iota;
    match goal with
    | |- context [Z.of_N ?n] => let n' := eval vm_compute in (Z.of_N n) in
                                 change (Z.of_N n) with n'
    end;
    rewrite parse_digits_acc by done;
    cbn in Hof; injection Hof as ->; by rewrite Hrest.
Qed.

Lemma parse_number_render z rest :
  closes_number rest = true →
  parse_number (render_num z +:+ rest) = Some (z, rest)
  ∧ ∃ c r, render_num z = String c r
           ∧ (is_digit c || (code c =? 45)%N) = true.
Proof.
  intros Hrest. unfold render_num. destruct z as [|p|p]; cbn [Z.to_int].
  - split; [|by eexists _, _].
    change (NilZero.string_of_int _) with "0". rewrite app_cons, app_empty.
    unfold parse_number, parse_nat.
    change (code "0" =? 45)%N with false. change (is_digit "0") with true.
    change (code "0" =? 48)%N with true. cbv iota. cbn [negb]. by rewrite Hrest.
  - destruct (parse_nat_pos p rest Hrest) as (Hp & c & r & Hc & Hdig).
    pose proof (DecimalPos.Unsigned.to_uint_nonnil p) as Hnn.
    assert (NilZero.string_of_int (Decimal.Pos (Pos.to_uint p))
            = NilEmpty.string_of_uint (Pos.to_uint p)) as ->.
    { cbn. unfold NilZero.string_of_uint. by destruct (Pos.to_uint p). }
    split; [|exists c, r; by rewrite Hdig].
    rewrite Hc, app_cons in *. unfold parse_number.
    assert ((code c =? 45)%N = false) as ->; [|done].
    clear -Hdig. by destruct c as [[] [] [] [] [] [] [] []].
  - destruct (parse_nat_pos p rest Hrest) as (Hp & _).
    assert (NilZero.string_of_int (Decimal.Neg (Pos.to_uint p))
            = String "-" (NilEmpty.string_of_uint (Pos.to_uint p))) as ->.
    { cbn. unfold NilZero.string_of_uint.
      pose proof (DecimalPos.Unsigned.to_uint_nonnil p).
      by destruct (Pos.to_uint p). }
    split; [|by eexists _, _].
    rewrite app_cons. unfold parse_number.
    change (code "-" =? 45)%N with true. cbv iota. by rewrite Hp.
Qed.

(** Induction on JSON values, through the elements of arrays and the
    members of objects. *)
Lemma json_size_pos v : (1 ≤ json_size v)%nat.
Proof. destruct v; simpl; lia. Qed.

Lemma sum_sizes_elem (l : list json) e :
  e ∈ l → (json_size e ≤ foldr (λ e acc, json_size e + acc) 0 l)%nat.
Proof. induction 1; simpl; lia. Qed.

Lemma sum_sizes_member (l : list (string * json)) kv :
  kv ∈ l → (json_size kv.2 ≤ foldr (λ kv acc, json_size kv.2 + acc) 0 l)%nat.
Proof. induction 1; simpl; lia. Qed.

Lemma json_size_obj (m : gmap string json) :
  json_size (JObj m) = S (foldr (λ kv acc, json_size kv.2 + acc) 0 (map_to_list m)).
Proof.
  simpl. f_equal. rewrite map_fold_foldr.
  induction (map_to_list m) as [|[k e] l IH]; simpl; congruence.
Qed.

Lemma json_induction (P : json → Prop) :
  P JNull → (∀ b, P (JBool b)) → (∀ z, P (JNum z)) → (∀ s, P (JStr s)) →
  (∀ l, Forall P l → P (JArr l)) →
  (∀ m, Forall (λ kv, P kv.2) (map_to_list m) → P (JObj m)) →
  ∀ v, P v.
Proof.
  intros Hnull Hbool Hnum Hstr Harr Hobj v.
  remember (json_size v) as n eqn:Hn.
  assert (json_size v ≤ n)%nat as Hle by lia. clear Hn.
  revert v Hle. induction n as [|n IH]; intros v Hle.
  { pose proof (json_size_pos v). lia. }
  destruct v as [| | | |l|m]; auto.
  - apply Harr, Forall_forall. intros e He. apply IH.
    apply sum_sizes_elem in He. simpl in Hle. lia.
  - apply Hobj, Forall_forall. intros kv Hkv. apply IH.
    apply sum_sizes_member in Hkv. rewrite json_size_obj in Hle. lia.
Qed.

Lemma skip_ws_head c r : is_ws c = false → skip_ws (String c r) = String c r.
Proof. intros H. simpl. by rewrite H. Qed.

Lemma number_head c :
  (is_digit c || (code c =? 45)%N) = true →
  is_ws c = false ∧ (code c =? 110)%N = false ∧ (code c =? 116)%N = false
  ∧ (code c =? 102)%N = false ∧ (code c =? 34)%N = false
  ∧ (code c =? 91)%N = false ∧ (code c =? 123)%N = false
  ∧ (code c =? 93)%N = false.
Proof. by destruct c as [[] [] [] [] [] [] [] []]. Qed.

(** A written value starts with a character that is neither white space nor
    a closing bracket. *)
Lemma stringify_head v rest :
  ∃ c r, stringify v +:+ rest = String c r
         ∧ is_ws c = false ∧ (code c =? 93)%N = false.
Proof.
  destruct v as [|[]|z|s|l|m]; try by eexists _, _.
  simpl. destruct (parse_number_render z "" eq_refl) as (_ & c & r & -> & Hc).
  apply number_head in Hc. rewrite app_cons. eexists _, _. intuition eauto.
Qed.

Section elements.
Context (pv : string → option (json * string)).

Lemma parse_elems_join l n rest :
  l ≠ [] → (length l ≤ n)%nat →
  Forall (λ e, ∀ rest', closes_number rest' = true →
                pv (stringify e +:+ rest') = Some (e, rest')) l →
  parse_elems pv n (join (map stringify l) +:+ String "]" rest) = Some (l, rest).
Proof.
  intros Hne Hlen Hall. revert n Hlen.
  induction Hall as [|e l He Hall IH]; [done|]. intros [|n] Hlen; simpl in Hlen; [lia|].
  destruct l as [|e' l].
  - cbn [map join parse_elems]. by rewrite He.
  - change (join (map stringify (e :: e' :: l)))
      with (stringify e +:+ "," +:+ join (map stringify (e' :: l))).
    rewrite !app_assoc, app_cons, app_empty. cbn [parse_elems].
    rewrite He by done. cbn [skip_ws]. change (is_ws ",") with false. cbv iota.
    rewrite IH; [done..|]. simpl in *. lia.
Qed.

Lemma parse_members_join (l : list (string * json)) n rest :
  l ≠ [] → (length l ≤ n)%nat →
  Forall (λ kv, ∀ rest', closes_number rest' = true →
                pv (stringify kv.2 +:+ rest') = Some (kv.2, rest')) l →
  parse_members pv n
    (join (render_member <$> (prod_map id stringify <$> l)) +:+ String "}" rest)
  = Some (l, rest).
Proof.
  intros Hne Hlen Hall. revert n Hlen.
  induction Hall as [|[k e] l He Hall IH]; [done|]. intros [|n] Hlen; simpl in Hlen; [lia|].
  assert (∀ tail, closes_number tail = true →
            parse_members pv (S n) (render_member (k, stringify e) +:+ tail)
            = match skip_ws tail with
              | String "," r4 =>
                match parse_members pv n r4 with
                | Some (l, r5) => Some ((k, e) :: l, r5)
                | None => None
                end
              | String "}" r4 => Some ([(k, e)], r4)
              | _ => None
              end) as Hstep.
  { intros tail Htail. unfold render_member, quote. cbn [fst snd].
    rewrite !app_assoc, !app_cons, !app_assoc, !app_cons, app_empty.
    cbn [parse_members skip_ws].
    change (is_ws dquote) with false. cbv iota.
    change (code dquote =? 34)%N with true. cbv iota.
    rewrite parse_chars_escape. cbn [skip_ws]. change (is_ws ":") with false.
    cbv iota. rewrite app_empty. cbn [snd] in He. by rewrite (He tail Htail). }
  destruct l as [|kv' l].
  - cbn [fmap list_fmap join prod_map]. by rewrite Hstep.
  - change (join (render_member <$> (prod_map id stringify <$> (k, e) :: kv' :: l)))
      with (render_member (k, stringify e) +:+ "," +:+
            join (render_member <$> (prod_map id stringify <$> kv' :: l))).
    rewrite !app_assoc, Hstep by done. rewrite app_cons, app_empty.
    cbn [skip_ws]. change (is_ws ",") with false. cbv iota.
    rewrite IH; [done..|]. simpl in *. lia.
Qed.
End elements.

Lemma sum_sizes_length (l : list json) :
  (length l ≤ foldr (λ e acc, json_size e + acc) 0 l)%nat.
Proof. induction l as [|e l IH]; simpl; [lia|]. pose proof (json_size_pos e). lia. Qed.

Lemma sum_sizes_members_length (l : list (string * json)) :
  (length l ≤ foldr (λ kv acc, json_size kv.2 + acc) 0 l)%nat.
Proof.
  induction l as [|[k e] l IH]; simpl; [lia|]. pose proof (json_size_pos e). lia.
Qed.

Lemma parse_value_stringify v :
  ∀ n rest, (json_size v ≤ n)%nat → closes_number rest = true →
            parse_value n (stringify v +:+ rest) = Some (v, rest).
Proof.
  induction v as [|b|z|s|l IH|m IH] using json_induction;
    intros [|n] rest Hn Hrest;
    try (exfalso; pose proof (json_size_pos (JArr [])); simpl in Hn; lia).
  - reflexivity.
  - by destruct b.
  - destruct (parse_number_render z rest Hrest) as (Hp & c & r & Hc & Hhead).
    apply number_head in Hhead as (Hws & H1 & H2 & H3 & H4 & H5 & H6 & _).
    cbn [stringify]. rewrite Hc, app_cons in *.
    cbn [parse_value]. rewrite skip_ws_head by done.
    by rewrite H1, H2, H3, H4, H5, H6, Hp.
  - cbn [stringify]. unfold quote. rewrite !app_cons, app_assoc, app_cons, app_empty.
    cbn [parse_value skip_ws]. change (is_ws dquote) with false. cbv iota.
    change (code dquote =? 110)%N with false.
    change (code dquote =? 116)%N with false.
    change (code dquote =? 102)%N with false.
    change (code dquote =? 34)%N with true. cbv iota.
    by rewrite parse_chars_escape.
  - cbn [stringify]. rewrite !app_cons, app_empty, app_assoc, app_cons, app_empty.
    cbn [parse_value skip_ws]. change (is_ws "[") with false. cbv iota.
    change (code "[" =? 110)%N with false. change (code "[" =? 116)%N with false.
    change (code "[" =? 102)%N with false. change (code "[" =? 34)%N with false.
    change (code "[" =? 91)%N with true. cbv iota.
    destruct l as [|e l]; [done|].
    assert (∃ c r, join (map stringify (e :: l)) +:+ String "]" rest = String c r
                   ∧ is_ws c = false ∧ (code c =? 93)%N = false)
      as (c & r & Hc & Hws & Hclose).
    { destruct l as [|e' l]; cbn [map join]; rewrite ?app_assoc;
        apply stringify_head. }
    rewrite Hc, skip_ws_head, Hclose, <- Hc by done.
    simpl in Hn. pose proof (sum_sizes_length (e :: l)) as Hlen. simpl in Hlen.
    rewrite parse_elems_join; [done|done|simpl; lia|].
    apply Forall_forall. intros x Hx rest' Hrest'.
    rewrite Forall_forall in IH. apply IH; [done| |done].
    apply sum_sizes_elem in Hx. simpl in Hx. lia.
  - rewrite json_size_obj in Hn.
    cbn [stringify]. rewrite !app_cons, app_empty, app_assoc, app_cons, app_empty.
    cbn [parse_value skip_ws]. change (is_ws "{") with false. cbv iota.
    change (code "{" =? 110)%N with false. change (code "{" =? 116)%N with false.
    change (code "{" =? 102)%N with false. change (code "{" =? 34)%N with false.
    change (code "{" =? 91)%N with false. change (code "{" =? 123)%N with true.
    cbv iota. rewrite map_to_list_fmap.
    destruct (map_to_list m) as [|[k e] l] eqn:Hm.
    { apply map_to_list_empty_iff in Hm as ->. done. }
    assert (∃ r, join (render_member <$> (prod_map id stringify <$> (k, e) :: l))
                 +:+ String "}" rest = String dquote r) as (r & Hc).
    { destruct l as [|kv' l]; cbn [fmap list_fmap join]; unfold render_member at 1, quote;
        rewrite ?app_assoc, ?app_cons; by eexists. }
    rewrite Hc. cbn [skip_ws]. change (is_ws dquote) with false. cbv iota.
    change (code dquote =? 125)%N with false. cbv iota. rewrite <- Hc.
    pose proof (sum_sizes_members_length ((k, e) :: l)) as Hlen.
    rewrite parse_members_join; [|done|lia|].
    + cbn. unfold object_of. do 3 f_equal. rewrite <- Hm.
      rewrite <- (list_to_map_to_list m) at 2.
      apply list_to_map_proper; [|apply reverse_Permutation].
      rewrite fmap_reverse, reverse_Permutation. apply NoDup_fst_map_to_list.
    + apply Forall_forall. intros x Hx rest' Hrest'.
      rewrite Forall_forall in IH. apply IH; [done| |done].
      apply sum_sizes_member in Hx. lia.
Qed.

Lemma app_nil_r (s : string) : s +:+ "" = s.
Proof. induction s as [|c s IH]; [done|]. by rewrite app_cons, IH. Qed.

Lemma join_length (parts : list string) :
  (foldr (λ p acc, String.length p + acc) 0 parts ≤ S (String.length (join parts)))%nat.
Proof.
  induction parts as [|p [|q parts] IH]; cbn [foldr join] in *; [lia..|].
  rewrite !app_length. cbn [String.length]. lia.
Qed.

Lemma stringify_length v : (json_size v ≤ String.length (stringify v))%nat.
Proof.
  induction v as [|b|z|s|l IH|m IH] using json_induction.
  - simpl. lia.
  - destruct b; simpl; lia.
  - destruct (parse_number_render z "" eq_refl) as (_ & c & r & Hc & _).
    cbn [stringify json_size]. rewrite Hc. simpl. lia.
  - simpl. lia.
  - cbn [stringify json_size]. rewrite !app_length. cbn [String.length].
    pose proof (join_length (map stringify l)) as Hj.
    assert (foldr (λ e acc, json_size e + acc) 0 l
            ≤ foldr (λ p acc, String.length p + acc) 0 (map stringify l))%nat.
    { clear Hj. induction IH; simpl; lia. }
    lia.
  - rewrite json_size_obj. cbn [stringify]. rewrite map_to_list_fmap, !app_length.
    cbn [String.length].
    pose proof (join_length
      (render_member <$> (prod_map id stringify <$> map_to_list m))) as Hj.
    assert (foldr (λ kv acc, json_size kv.2 + acc) 0 (map_to_list m)
            ≤ foldr (λ p acc, String.length p + acc) 0
                (render_member <$> (prod_map id stringify <$> map_to_list m)))%nat.
    { clear Hj. induction IH as [|[k e] l He _ IHl]; [done|].
      cbn [foldr fmap list_fmap prod_map fst snd id] in *.
      unfold render_member at 1. rewrite !app_length. cbn [snd]. lia. }
    lia.
Qed.

(** [JSON.parse] reads back every value that [JSON.stringify] wrote. *)
Lemma parse_stringify v : parse (stringify v) = Some v.
Proof.
  unfold parse. rewrite <- (app_nil_r (stringify v)) at 2.
  rewrite parse_value_stringify; [done| |done].
  pose proof (stringify_length v). lia.
Qed.


(** ** Every text that the reader accepts is a JSON text *)

Lemma scan_digits_parse s : ∀ acc, scan_digits s = (parse_digits acc s).2.
Proof.
  induction s as [|c r IH]; intros acc; [done|]. cbn [scan_digits parse_digits].
  destruct (is_digit c); [apply IH|done].
Qed.

Lemma closes_number_scan rest :
  closes_number rest = true → scan_frac rest = Some rest ∧ scan_exp rest = Some rest.
Proof.
  destruct rest as [|d r]; [done|]. cbn [closes_number scan_frac scan_exp].
  intros H. apply negb_true_iff in H.
  apply orb_false_iff in H as [H H69]. apply orb_false_iff in H as [H H101].
  apply orb_false_iff in H as [_ H46]. by rewrite H46, H101, H69.
Qed.

Lemma scan_int_parse s z rest :
  parse_nat s = Some (z, rest) → scan_int s = Some rest ∧ closes_number rest = true.
Proof.
  destruct s as [|c r]; [done|]. cbn [parse_nat scan_int].
  destruct (negb (is_digit c)); [done|].
  destruct (code c =? 48)%N.
  - destruct (closes_number r) eqn:Hc; [|done]. by intros [= _ <-].
  - rewrite (scan_digits_parse r (Z.of_N (code c - 48))).
    destruct (parse_digits _ r) as [z' rest']. cbn [snd].
    destruct (closes_number rest') eqn:Hc; [|done]. by intros [= _ <-].
Qed.

Lemma scan_number_parse s z rest :
  parse_number s = Some (z, rest) → scan_number s = Some rest.
Proof.
  destruct s as [|c r]; [done|]. cbn [parse_number scan_number].
  assert (∀ t z', parse_nat t = Some (z', rest) →
            scan_int t ≫= (λ r1, scan_frac r1 ≫= scan_exp) = Some rest) as Hnat.
  { intros t z' [-> Hc]%scan_int_parse.
    destruct (closes_number_scan rest Hc) as [Hf He]. cbn. rewrite Hf. cbn.
    exact He. }
  destruct (code c =? 45)%N.
  - destruct (parse_nat r) as [[z' rest']|] eqn:Hp; [|done].
    intros [= _ <-]. by eapply Hnat.
  - apply Hnat.
Qed.

Section scan.
Context (pv : string → option (json * string)) (sv : string → option string).
Context (Hsv : ∀ s v r, pv s = Some (v, r) → sv s = Some r).

Lemma scan_elems_parse n : ∀ s l r,
  parse_elems pv n s = Some (l, r) → scan_elems sv n s = Some r.
Proof.
  induction n as [|n IH]; intros s l r; [done|]. cbn [parse_elems scan_elems].
  destruct (pv s) as [[v r0]|] eqn:Hpv; [|done]. rewrite (Hsv _ _ _ Hpv).
  destruct (skip_ws r0) as [|c r1]; [done|].
  destruct c as [[] [] [] [] [] [] [] []]; cbv beta iota; try done;
    try (by intros [= _ <-]).
  destruct (parse_elems pv n r1) as [[l' r2]|] eqn:Hp; [|done].
  intros [= _ <-]. by eapply IH.
Qed.

Lemma scan_members_parse n : ∀ s l r,
  parse_members pv n s = Some (l, r) → scan_members sv n s = Some r.
Proof.
  induction n as [|n IH]; intros s l r; [done|]. cbn [parse_members scan_members].
  destruct (skip_ws s) as [|c r0]; [done|].
  destruct (code c =? 34)%N; [|done].
  destruct (parse_chars r0) as [[k r1]|]; [|done].
  destruct (skip_ws r1) as [|c1 r2]; [done|].
  destruct c1 as [[] [] [] [] [] [] [] []]; cbv beta iota; try done.
  destruct (pv r2) as [[v r3]|] eqn:Hpv; [|done]. rewrite (Hsv _ _ _ Hpv).
  destruct (skip_ws r3) as [|c2 r4]; [done|].
  destruct c2 as [[] [] [] [] [] [] [] []]; cbv beta iota; try done;
    try (by intros [= _ <-]).
  destruct (parse_members pv n r4) as [[l' r5]|] eqn:Hp; [|done].
  intros [= _ <-]. by eapply IH.
Qed.

End scan.

Lemma scan_value_parse n : ∀ s v r,
  parse_value n s = Some (v, r) → scan_value n s = Some r.
Proof.
  induction n as [|n IH]; intros s v r; [done|]. cbn [parse_value scan_value].
  destruct (skip_ws s) as [|c r0]; [done|].
  destruct (code c =? 110)%N.
  { destruct (expect "ull" r0); [|done]. by intros [= _ <-]. }
  destruct (code c =? 116)%N.
  { destruct (expect "rue" r0); [|done]. by intros [= _ <-]. }
  destruct (code c =? 102)%N.
  { destruct (expect "alse" r0); [|done]. by intros [= _ <-]. }
  destruct (code c =? 34)%N.
  { destruct (parse_chars r0) as [[t r']|]; [|done]. by intros [= _ <-]. }
  destruct (code c =? 91)%N.
  { destruct (skip_ws r0) as [|c' r']; [done|].
    destruct (code c' =? 93)%N; [by intros [= _ <-]|].
    destruct (parse_elems _ n r0) as [[l r'']|] eqn:Hp; [|done].
    intros [= _ <-]. by eapply scan_elems_parse. }
  destruct (code c =? 123)%N.
  { destruct (skip_ws r0) as [|c' r']; [done|].
    destruct (code c' =? 125)%N; [by intros [= _ <-]|].
    destruct (parse_members _ n r0) as [[l r'']|] eqn:Hp; [|done].
    intros [= _ <-]. by eapply scan_members_parse. }
  destruct (parse_number (String c r0)) as [[z r']|] eqn:Hp; [|done].
  intros [= _ <-]. by eapply scan_number_parse.
Qed.

(** On a text that is not a JSON text, the reader fails. *)
Lemma parse_json_text s : json_text s = false → parse s = None.
Proof.
  unfold json_text, parse. intros H.
  destruct (parse_value _ s) as [[v r]|] eqn:Hp; [|done].
  rewrite (scan_value_parse _ _ _ _ Hp) in H. by destruct (skip_ws r).
Qed.

(** ** The reader reads back what [JSON.stringify] writes, whatever the order
    of the members *)

Lemma ordered_induction (P : ordered → Prop) :
  P ONull → (∀ b, P (OBool b)) → (∀ z, P (ONum z)) → (∀ s, P (OStr s)) →
  (∀ l, Forall P l → P (OArr l)) →
  (∀ members, Forall (λ kv, P kv.2) members → P (OObj members)) →
  ∀ o, P o.
Proof.
  intros Hnull Hbool Hnum Hstr Harr Hobj. fix IH 1.
  intros [|b|z|s|l|members];
    [apply Hnull|apply Hbool|apply Hnum|apply Hstr| |].
  - apply Harr. induction l as [|e l IHl]; constructor; [apply IH|exact IHl].
  - apply Hobj. induction members as [|[k e] members IHm]; constructor;
      [apply IH|exact IHm].
Qed.

Lemma write_head o rest :
  ∃ c r, write o +:+ rest = String c r
         ∧ is_ws c = false ∧ (code c =? 93)%N = false.
Proof.
  destruct o as [|[]|z|s|l|members]; try by eexists _, _.
  simpl. destruct (parse_number_render z "" eq_refl) as (_ & c & r & -> & Hc).
  apply number_head in Hc. rewrite app_cons. eexists _, _. intuition eauto.
Qed.

Section texts.
Context {A : Type} (den : A → json) (wr : A → string).
Context (pv : string → option (json * string)).

Lemma parse_elems_texts (l : list A) n rest :
  l ≠ [] → (length l ≤ n)%nat →
  Forall (λ e, ∀ rest', closes_number rest' = true →
                pv (wr e +:+ rest') = Some (den e, rest')) l →
  parse_elems pv n (join (map wr l) +:+ String "]" rest) = Some (map den l, rest).
Proof.
  intros Hne Hlen Hall. revert n Hlen.
  induction Hall as [|e l He Hall IH]; [done|]. intros [|n] Hlen; simpl in Hlen; [lia|].
  destruct l as [|e' l].
  - cbn [map join parse_elems]. by rewrite He.
  - change (join (map wr (e :: e' :: l)))
      with (wr e +:+ "," +:+ join (map wr (e' :: l))).
    rewrite !app_assoc, app_cons, app_empty. cbn [parse_elems].
    rewrite He by done. cbn [skip_ws]. change (is_ws ",") with false. cbv iota.
    rewrite IH; [done..|]. simpl in *. lia.
Qed.

Lemma parse_members_texts (l : list (string * A)) n rest :
  l ≠ [] → (length l ≤ n)%nat →
  Forall (λ kv, ∀ rest', closes_number rest' = true →
                pv (wr kv.2 +:+ rest') = Some (den kv.2, rest')) l →
  parse_members pv n
    (join (map (λ '(k, e), render_member (k, wr e)) l) +:+ String "}" rest)
  = Some (map (λ '(k, e), (k, den e)) l, rest).
Proof.
  intros Hne Hlen Hall. revert n Hlen.
  induction Hall as [|[k e] l He Hall IH]; [done|]. intros [|n] Hlen; simpl in Hlen; [lia|].
  assert (∀ tail, closes_number tail = true →
            parse_members pv (S n) (render_member (k, wr e) +:+ tail)
            = match skip_ws tail with
              | String "," r4 =>
                match parse_members pv n r4 with
                | Some (l, r5) => Some ((k, den e) :: l, r5)
                | None => None
                end
              | String "}" r4 => Some ([(k, den e)], r4)
              | _ => None
              end) as Hstep.
  { intros tail Htail. unfold render_member, quote. cbn [fst snd].
    rewrite !app_assoc, !app_cons, !app_assoc, !app_cons, app_empty.
    cbn [parse_members skip_ws].
    change (is_ws dquote) with false. cbv iota.
    change (code dquote =? 34)%N with true. cbv iota.
    rewrite parse_chars_escape. cbn [skip_ws]. change (is_ws ":") with false.
    cbv iota. rewrite app_empty. cbn [snd] in He. by rewrite (He tail Htail). }
  destruct l as [|[k' e'] l].
  - cbn [map join]. by rewrite Hstep.
  - change (join (map (λ '(k, e), render_member (k, wr e)) ((k, e) :: (k', e') :: l)))
      with (render_member (k, wr e) +:+ "," +:+
            join (map (λ '(k, e), render_member (k, wr e)) ((k', e') :: l))).
    rewrite !app_assoc, Hstep by done. rewrite app_cons, app_empty.
    cbn [skip_ws]. change (is_ws ",") with false. cbv iota.
    rewrite IH; [done..|]. simpl in *. lia.
Qed.

End texts.

Lemma ordered_size_pos o : (1 ≤ ordered_size o)%nat.
Proof. destruct o; simpl; lia. Qed.

Lemma ordered_sizes_elem (l : list ordered) e :
  e ∈ l → (ordered_size e ≤ foldr (λ e acc, ordered_size e + acc) 0 l)%nat.
Proof. induction 1; simpl; lia. Qed.

Lemma ordered_sizes_member (l : list (string * ordered)) kv :
  kv ∈ l →
  (ordered_size kv.2 ≤ foldr (λ '(_, e) acc, ordered_size e + acc) 0 l)%nat.
Proof. induction 1 as [[k e] l|[k e] [k' e'] l _ IH]; simpl in *; lia. Qed.

Lemma ordered_sizes_length (l : list ordered) :
  (length l ≤ foldr (λ e acc, ordered_size e + acc) 0 l)%nat.
Proof.
  induction l as [|e l IH]; simpl; [lia|]. pose proof (ordered_size_pos e). lia.
Qed.

Lemma ordered_sizes_members_length (l : list (string * ordered)) :
  (length l ≤ foldr (λ '(_, e) acc, ordered_size e + acc) 0 l)%nat.
Proof.
  induction l as [|[k e] l IH]; simpl; [lia|]. pose proof (ordered_size_pos e). lia.
Qed.

Lemma parse_value_write o :
  ∀ n rest, (ordered_size o ≤ n)%nat → closes_number rest = true →
            parse_value n (write o +:+ rest) = Some (value o, rest).
Proof.
  induction o as [|b|z|s|l IH|members IH] using ordered_induction;
    intros [|n] rest Hn Hrest;
    try (exfalso; pose proof (ordered_size_pos (OArr [])); simpl in Hn; lia).
  - reflexivity.
  - by destruct b.
  - destruct (parse_number_render z rest Hrest) as (Hp & c & r & Hc & Hhead).
    apply number_head in Hhead as (Hws & H1 & H2 & H3 & H4 & H5 & H6 & _).
    cbn [write value]. rewrite Hc, app_cons in *.
    cbn [parse_value]. rewrite skip_ws_head by done.
    by rewrite H1, H2, H3, H4, H5, H6, Hp.
  - cbn [write value]. unfold quote. rewrite !app_cons, app_assoc, app_cons, app_empty.
    cbn [parse_value skip_ws]. change (is_ws dquote) with false. cbv iota.
    change (code dquote =? 110)%N with false.
    change (code dquote =? 116)%N with false.
    change (code dquote =? 102)%N with false.
    change (code dquote =? 34)%N with true. cbv iota.
    by rewrite parse_chars_escape.
  - cbn [write value]. rewrite !app_cons, app_empty, app_assoc, app_cons, app_empty.
    cbn [parse_value skip_ws]. change (is_ws "[") with false. cbv iota.
    change (code "[" =? 110)%N with false. change (code "[" =? 116)%N with false.
    change (code "[" =? 102)%N with false. change (code "[" =? 34)%N with false.
    change (code "[" =? 91)%N with true. cbv iota.
    destruct l as [|e l]; [done|].
    assert (∃ c r, join (map write (e :: l)) +:+ String "]" rest = String c r
                   ∧ is_ws c = false ∧ (code c =? 93)%N = false)
      as (c & r & Hc & Hws & Hclose).
    { destruct l as [|e' l]; cbn [map join]; rewrite ?app_assoc; apply write_head. }
    rewrite Hc, skip_ws_head, Hclose, <- Hc by done.
    simpl in Hn. pose proof (ordered_sizes_length (e :: l)) as Hlen. simpl in Hlen.
    rewrite (parse_elems_texts value write); [done|done|simpl; lia|].
    apply Forall_forall. intros x Hx rest' Hrest'.
    rewrite Forall_forall in IH. apply IH; [done| |done].
    apply ordered_sizes_elem in Hx. simpl in Hx. lia.
  - cbn [write value]. rewrite !app_cons, app_empty, app_assoc, app_cons, app_empty.
    cbn [parse_value skip_ws]. change (is_ws "{") with false. cbv iota.
    change (code "{" =? 110)%N with false. change (code "{" =? 116)%N with false.
    change (code "{" =? 102)%N with false. change (code "{" =? 34)%N with false.
    change (code "{" =? 91)%N with false. change (code "{" =? 123)%N with true.
    cbv iota.
    destruct members as [|[k e] l]; [done|].
    assert (∃ r, join (map (λ '(k, e), render_member (k, write e)) ((k, e) :: l))
                 +:+ String "}" rest = String dquote r) as (r & Hc).
    { destruct l as [|[k' e'] l]; cbn [map join]; unfold render_member at 1, quote;
        rewrite ?app_assoc, ?app_cons; by eexists. }
    rewrite Hc. cbn [skip_ws]. change (is_ws dquote) with false. cbv iota.
    change (code dquote =? 125)%N with false. cbv iota. rewrite <- Hc.
    pose proof (ordered_sizes_members_length ((k, e) :: l)) as Hlen.
    cbn [ordered_size] in Hn.
    rewrite (parse_members_texts value write); [done|done|lia|].
    apply Forall_forall. intros x Hx rest' Hrest'.
    rewrite Forall_forall in IH. apply IH; [done| |done].
    apply ordered_sizes_member in Hx. lia.
Qed.

Lemma write_length o : (ordered_size o ≤ String.length (write o))%nat.
Proof.
  induction o as [|b|z|s|l IH|members IH] using ordered_induction.
  - simpl. lia.
  - destruct b; simpl; lia.
  - destruct (parse_number_render z "" eq_refl) as (_ & c & r & Hc & _).
    cbn [write ordered_size]. rewrite Hc. simpl. lia.
  - simpl. lia.
  - cbn [write ordered_size]. rewrite !app_length. cbn [String.length].
    pose proof (join_length (map write l)) as Hj.
    assert (foldr (λ e acc, ordered_size e + acc) 0 l
            ≤ foldr (λ p acc, String.length p + acc) 0 (map write l))%nat.
    { clear Hj. induction IH; simpl; lia. }
    lia.
  - cbn [write ordered_size]. rewrite !app_length. cbn [String.length].
    pose proof (join_length
      (map (λ '(k, e), render_member (k, write e)) members)) as Hj.
    assert (foldr (λ '(_, e) acc, ordered_size e + acc) 0 members
            ≤ foldr (λ p acc, String.length p + acc) 0
                (map (λ '(k, e), render_member (k, write e)) members))%nat.
    { clear Hj. induction IH as [|[k e] l He _ IHl]; [done|].
      cbn [foldr map snd] in *.
      unfold render_member at 1. rewrite !app_length. cbn [snd]. lia. }
    lia.
Qed.

(** [JSON.parse] reads back the value of every text that [JSON.stringify]
    writes. *)
Lemma parse_write o : parse (write o) = Some (value o).
Proof.
  unfold parse. rewrite <- (app_nil_r (write o)) at 2.
  rewrite parse_value_write; [done| |done].
  pose proof (write_length o). lia.
Qed.
End JsonFacts.

(** ** The Search page *)

Ltac unfold_M :=
  unfold getPendingItems, addPendingItem, removePendingItem, clearPendingItems,
    JSON_parse, push, api, finally, try_catch, bind, ret, throw,
    lift, rendered, modify, getItem, setItem, removeItem, navigate in *.

Ltac run :=
  cbv beta iota zeta delta
    [bind ret throw lift try_catch finally rendered modify getItem setItem
     removeItem navigate api loadItineraries clearPendingItems
     setResults setAttractionDetails setActivitiesMap setExpandedXid
     setLoading setError setSuccessMessage setItineraries setShowAddModal
     setSelectedItem setSelectedItineraryId setAdding setPendingItems
     setCurrentItinerary
     fst snd ui localStorage requests navigated searchType query results
     attractionDetails activitiesMap expandedXid loading error successMessage
     itineraries showAddModal selectedItem selectedItineraryId adding checkIn
     checkOut pendingItems currentItinerary] in *.

Lemma bind_ok {A B} (m : M A) (k : A → M B) w a w1 :
  m w = (Ok a, w1) → bind m k w = k a w1.
Proof. unfold bind. by intros ->. Qed.

(** *** The pending item store *)

Section store.

Lemma parse_stored_pure stored fallback w :
  parse_stored stored fallback w = ((parse_stored stored fallback w).1, w).
Proof.
  unfold parse_stored, JSON_parse, ret, throw. by repeat case_match.
Qed.

Lemma parse_stored_world stored fallback w w' :
  (parse_stored stored fallback w).1 = (parse_stored stored fallback w').1.
Proof.
  unfold parse_stored, JSON_parse, ret, throw. by repeat case_match.
Qed.

Lemma stringify_nonempty v : Json.stringify v ≠ "".
Proof.
  intros H. pose proof (JsonFacts.stringify_length v) as Hlen.
  pose proof (JsonFacts.json_size_pos v). rewrite H in Hlen. simpl in Hlen. lia.
Qed.

Lemma parse_stored_stringify v fallback w :
  parse_stored (Some (Json.stringify v)) fallback w = (Ok v, w).
Proof.
  unfold parse_stored, JSON_parse.
  destruct (Json.stringify v) eqn:Hs; [by apply stringify_nonempty in Hs|].
  by rewrite <- Hs, JsonFacts.parse_stringify.
Qed.

Lemma write_nonempty o : Json.write o ≠ "".
Proof.
  intros H. pose proof (JsonFacts.write_length o) as Hlen.
  pose proof (JsonFacts.ordered_size_pos o). rewrite H in Hlen. simpl in Hlen. lia.
Qed.

Lemma parse_stored_write o fallback w :
  parse_stored (Some (Json.write o)) fallback w = (Ok (Json.value o), w).
Proof.
  unfold parse_stored, JSON_parse.
  destruct (Json.write o) eqn:Hs; [by apply write_nonempty in Hs|].
  by rewrite <- Hs, JsonFacts.parse_write.
Qed.

Lemma parse_stored_rejects text fallback w :
  text ≠ "" → Json.json_text text = false →
  parse_stored (Some text) fallback w = (Throw SyntaxError, w).
Proof.
  intros Hne Hno. unfold parse_stored, JSON_parse.
  destruct text; [done|]. by rewrite (JsonFacts.parse_json_text _ Hno).
Qed.

Lemma getPendingItems_missing w :
  localStorage w !! STORAGE_KEY = None → getPendingItems w = (Ok (JArr []), w).
Proof. intros H. unfold_M. by rewrite H. Qed.

Lemma getPendingItems_stored w v :
  localStorage w !! STORAGE_KEY = Some (Json.stringify v) →
  getPendingItems w = (Ok v, w).
Proof. intros H. unfold_M. rewrite H. apply parse_stored_stringify. Qed.

Lemma getPendingItems_pure w : getPendingItems w = (outcome getPendingItems w, w).
Proof.
  unfold outcome, getPendingItems, bind, getItem. apply parse_stored_pure.
Qed.

Lemma addPendingItem_array w l item :
  getPendingItems w = (Ok (JArr l), w) →
  addPendingItem item w
  = (Ok tt, World (ui w) (<[STORAGE_KEY := Json.stringify (JArr (l ++ [item]))]> (localStorage w))
              (requests w) (navigated w)).
Proof.
  intros H. unfold addPendingItem, bind at 1. rewrite H.
  unfold push, bind, ret, setItem. by destruct w.
Qed.

Lemma add_all_array items : ∀ w l,
  getPendingItems w = (Ok (JArr l), w) →
  outcome (add_all items) w = Ok tt
  ∧ getPendingItems (after (add_all items) w)
    = (Ok (JArr (l ++ items)), after (add_all items) w).
Proof.
  unfold outcome, after.
  induction items as [|item items IH]; intros w l Hw.
  { rewrite app_nil_r. by unfold add_all, ret. }
  change (add_all (item :: items)) with (addPendingItem item;; add_all items).
  rewrite (bind_ok _ _ _ _ _ (addPendingItem_array _ _ _ Hw)).
  rewrite (cons_middle item l items), (assoc_L (++)). apply IH.
  apply getPendingItems_stored. cbn [localStorage]. by rewrite lookup_insert_eq.
Qed.

Lemma splice1_beyond {A} (l : list A) (index : Z) :
  (Z.of_nat (length l) ≤ index)%Z → splice1 index l = l.
Proof.
  intros H. unfold splice1.
  destruct (index <? 0)%Z eqn:Hneg; [lia|].
  rewrite Z.min_r by done.
  rewrite Z.sub_diag, Z.min_r, Z.add_0_r, Nat2Z.id by lia.
  by rewrite firstn_all, drop_all, app_nil_r.
Qed.

Lemma splice1_negative {A} (l : list A) (index : Z) :
  (index < 0)%Z →
  splice1 index l = delete (Z.to_nat (Z.max (Z.of_nat (length l) + index) 0)) l.
Proof.
  intros H. unfold splice1.
  destruct (index <? 0)%Z eqn:Hneg; [|lia].
  set (start := Z.max (Z.of_nat (length l) + index) 0).
  destruct l as [|x l]; [by rewrite take_nil, drop_nil|].
  assert (0 ≤ start < Z.of_nat (length (x :: l)))%Z as Hstart
    by (unfold start; simpl; lia).
  rewrite Z.min_l by lia.
  rewrite Z2Nat.inj_add, delete_take_drop by lia.
  by rewrite Nat.add_1_r.
Qed.

Lemma removePendingItem_array w l index :
  getPendingItems w = (Ok (JArr l), w) →
  removePendingItem index w
  = (Ok tt, World (ui (after (setPendingItems (JArr (splice1 index l))) w))
              (<[STORAGE_KEY := Json.stringify (JArr (splice1 index l))]> (localStorage w))
              (requests w) (navigated w)).
Proof.
  intros H. unfold removePendingItem. rewrite (bind_ok _ _ _ _ _ H).
  destruct w as [[] ls rs ns]. reflexivity.
Qed.

(** The component's list keeps mirroring the store. *)
Lemma removePendingItem_staged w l index :
  staged w (JArr l) →
  staged (after (removePendingItem index) w) (JArr (splice1 index l)).
Proof.
  intros [Hout _]. pose proof (getPendingItems_pure w) as Hw. rewrite Hout in Hw.
  unfold after. rewrite (removePendingItem_array w l index Hw). cbn [snd].
  split; [|by destruct w as [[] ? ? ?]].
  unfold outcome.
  by erewrite getPendingItems_stored by (cbn [localStorage]; apply lookup_insert_eq).
Qed.

Lemma handleAddToLocalStorage_staged w l now :
  staged w (JArr l) → truthy (selectedItem (ui w)) = true →
  ∃ item, staged (after (handleAddToLocalStorage now) w) (JArr (l ++ [item])).
Proof.
  intros [Hout _] Hsel. pose proof (getPendingItems_pure w) as Hw. rewrite Hout in Hw.
  unfold after, handleAddToLocalStorage.
  rewrite (bind_ok _ _ w (ui w) w) by done. rewrite Hsel. cbn [negb].
  eexists. rewrite (bind_ok _ _ _ _ _ (addPendingItem_array _ _ _ Hw)).
  erewrite bind_ok;
    [|apply getPendingItems_stored; cbn [localStorage]; apply lookup_insert_eq].
  destruct w as [[] ls rs ns]. split; [|reflexivity].
  unfold outcome. cbn [snd].
  by erewrite getPendingItems_stored by (cbn [localStorage]; apply lookup_insert_eq).
Qed.

End store.

(** *** The payload of the save request *)

Section payload.

Lemma to_json_type item :
  prop (Some (to_json item)) "type" = Some (JStr (type_name (type item))).
Proof. unfold to_json, object. cbn. by simplify_map_eq. Qed.

Lemma to_json_data item :
  prop (Some (to_json item)) "data" = Some (JObj (data item)).
Proof. unfold to_json, object. cbn. by simplify_map_eq. Qed.

Lemma get_to_json item k : get (Some (to_json item)) k = Ok (prop (Some (to_json item)) k).
Proof. reflexivity. Qed.

Lemma is_flight_to_json item :
  is_string (prop (Some (to_json item)) "type") "flight" = bool_decide (type item = flight).
Proof. rewrite to_json_type. by destruct (type item). Qed.

Lemma project_to_json item : project (to_json item) = Ok (projection item).
Proof.
  unfold project. rewrite get_to_json.
  cbn [rbind]. rewrite to_json_data, to_json_type. by cbn [nullish rbind prop].
Qed.

Lemma filter_flights (l : list PendingItem) :
  filter_array (λ item, rbind (get (Some item) "type") (λ t, Ok (is_string t "flight")))
    (to_json <$> l)
  = Ok (to_json <$> filter (λ i, type i = flight) l).
Proof.
  induction l as [|i l IH]; [done|]. cbn [fmap list_fmap filter_array].
  fold (fmap (M:=list) to_json l).
  rewrite IH, get_to_json. cbn [rbind]. rewrite is_flight_to_json, filter_cons.
  by case_bool_decide; case_decide.
Qed.

Lemma filter_others (l : list PendingItem) :
  filter_array (λ item, rbind (get (Some item) "type")
                          (λ t, Ok (negb (is_string t "flight"))))
    (to_json <$> l)
  = Ok (to_json <$> filter (λ i, type i ≠ flight) l).
Proof.
  induction l as [|i l IH]; [done|]. cbn [fmap list_fmap filter_array].
  fold (fmap (M:=list) to_json l).
  rewrite IH, get_to_json. cbn [rbind]. rewrite is_flight_to_json, filter_cons.
  by case_bool_decide; case_decide.
Qed.

Lemma map_data (l : list PendingItem) :
  map_array (λ item, get (Some item) "data") (to_json <$> l)
  = Ok ((λ i, Some (JObj (data i))) <$> l).
Proof.
  induction l as [|i l IH]; [done|]. cbn [fmap list_fmap map_array].
  fold (fmap (M:=list) to_json l).
  by rewrite IH, get_to_json, to_json_data.
Qed.

Lemma map_project (l : list PendingItem) :
  map_array project (to_json <$> l) = Ok (projection <$> l).
Proof.
  induction l as [|i l IH]; [done|]. cbn [fmap list_fmap map_array].
  fold (fmap (M:=list) to_json l).
  by rewrite IH, project_to_json.
Qed.

Lemma payload_to_json (items : list PendingItem) :
  payload (JArr (to_json <$> items))
  = Ok ((λ i, Some (JObj (data i))) <$> filter (λ i, type i = flight) items,
        projection <$> filter (λ i, type i ≠ flight) items).
Proof.
  unfold payload. cbn [elements rbind].
  rewrite filter_flights. cbn [rbind]. rewrite map_data. cbn [rbind].
  rewrite filter_others. cbn [rbind]. by rewrite map_project.
Qed.

End payload.

(** *** Saving all pending items *)

Section save.
Context (server : request → jsval + jsval).

Lemma carries_dates d :
  truthy (and (Some d) (and (prop (Some d) "departure_date")
                             (prop (Some d) "return_date")))
  = truthy (prop (Some d) "departure_date") && truthy (prop (Some d) "return_date").
Proof.
  unfold and. destruct (truthy (Some d)) eqn:Hd.
  - destruct (truthy (prop (Some d) "departure_date")) eqn:H1; [done|].
    by rewrite H1.
  - rewrite Hd. by destruct d.
Qed.

Lemma ensureItinerary_ensured s w :
  ensured server s w (ensureItinerary server s w).1 (ensureItinerary server s w).2.
Proof.
  destruct (ensureItinerary server s w) as [r w1] eqn:He. cbn [fst snd].
  unfold ensureItinerary in He.
  destruct (truthy (selectedItineraryId s)) eqn:Hsel.
  { injection He as <- <-. by apply ensured_selected. }
  pose proof (parse_stored_pure (localStorage w !! DRAFT_KEY) JNull w) as Hpure.
  fold (read_draft w) in Hpure.
  destruct w as [[] ls rs ns].
  unfold DRAFT_KEY in *.
  run. rewrite Hpure in He. clear Hpure.
  destruct (read_draft _) as [d|e] eqn:Hd.
  2: { injection He as <- <-. by apply ensured_corrupt. }
  rewrite carries_dates in He.
  assert (∃ c, c = (truthy (prop (Some d) "departure_date")
                    && truthy (prop (Some d) "return_date"))
               ∧ create_request d
                 = if c
                   then POST "/itineraries/create-from-flights"
                          (CreateFromFlights (prop (Some d) "departure_date")
                             (prop (Some d) "return_date")
                             (or (prop (Some d) "title") None))
                   else POST "/itineraries" EmptyBody) as (c & Hc & Hreq)
    by (eexists; split; reflexivity).
  rewrite <- Hc in He. clear Hc.
  destruct c;
    (destruct (server _) as [err|data] eqn:Hsrv in He; rewrite <- Hreq in Hsrv;
     [ injection He as <- <-;
       eapply (ensured_failed _ _ _ d); cbn [localStorage requests navigated ui pendingItems];
       [done|done|by left; eexists|done|by rewrite Hreq|done|done]
     | destruct (get data "itinerary_id") as [id|e] eqn:Hid;
       [ destruct (server (GET "/itineraries" [])) as [err'|data'] in He;
         injection He as <- <-;
         eapply (ensured_created _ _ _ d data id);
         cbn [localStorage requests navigated ui pendingItems selectedItineraryId];
         first [done | by rewrite <- (assoc_L (++)), Hreq]
       | injection He as <- <-;
         eapply (ensured_failed _ _ _ d);
         cbn [localStorage requests navigated ui pendingItems];
         [done|done| |done|by rewrite Hreq|done|done];
         right; exists data; split; [done|];
         unfold get in Hid; by destruct (nullish data) ] ]).
Qed.

Lemma read_draft_quiet w w' : quiet w w' → read_draft w' = read_draft w.
Proof.
  intros (Hls & _). unfold read_draft. rewrite Hls. apply parse_stored_world.
Qed.

Lemma ensured_quiet s w w0 r w1 :
  quiet w w0 → ensured server s w0 r w1 → ensured server s w r w1.
Proof.
  intros Hq. pose proof (read_draft_quiet _ _ Hq) as Hd.
  destruct Hq as (Hls & Hrs & Hns & Hp).
  destruct 1 as [w1 Hsel (?&?&?&?)|e w1 Hsel Hread (?&?&?&?)
                |d w1 Hsel Hread Hsrv H1 H2 H3 H4
                |d data id text w1 Hsel Hread Hsrv Hid H1 H2 H3 H4 H5].
  - apply ensured_selected; [done|]. unfold quiet. by rewrite <- Hls, <- Hrs, <- Hns, <- Hp.
  - apply ensured_corrupt; [done|congruence|].
    unfold quiet. by rewrite <- Hls, <- Hrs, <- Hns, <- Hp.
  - apply (ensured_failed _ _ _ d); [done|congruence|done|congruence..].
  - apply (ensured_created _ _ _ d data id text); [done|congruence|done|done|congruence..].
Qed.

Lemma handleSaveAllToItinerary_path w :
  save_path server w (handleSaveAllToItinerary server w).1
              (handleSaveAllToItinerary server w).2.
Proof.
  destruct (handleSaveAllToItinerary server w) as [r w'] eqn:Hrun. cbn [fst snd].
  unfold handleSaveAllToItinerary in Hrun.
  rewrite (bind_ok _ _ w (ui w) w) in Hrun by done.
  destruct (get (Some (pendingItems (ui w))) "length") as [len|e] eqn:Hlen.
  2: { injection Hrun as <- <-. by apply path_type_error. }
  rewrite (bind_ok _ _ w len w) in Hrun by done.
  destruct (is_number len 0) eqn:Hzero.
  { destruct w as [[] ls rs ns]. injection Hrun as <- <-.
    by eapply path_no_pending. }
  set (w0 := ((setAdding true;; setError (JStr "")) w).2).
  assert (quiet w w0) as Hq by (by destruct w as [[] ls rs ns]).
  pose proof (ensured_quiet _ _ _ _ _ Hq (ensureItinerary_ensured (ui w) w0)) as Hens.
  assert (∀ k : M unit, (setAdding true;; setError (JStr "");; k) w = k w0) as Hstart
    by (intros k; by destruct w as [[] ls rs ns]).
  rewrite Hstart in Hrun. clear Hstart Hq. clearbody w0.
  unfold finally, try_catch in Hrun. unfold bind at 1 in Hrun.
  destruct (ensureItinerary server (ui w) w0) as [r1 w1].
  cbn [fst snd] in Hens.
  destruct w1 as [[] ls1 rs1 ns1].
  destruct r1 as [[id|]|e].
  - unfold bind at 1 in Hrun. unfold lift at 1 in Hrun.
    destruct (payload (pendingItems (ui w))) as [[fl its]|e] eqn:Hpay.
    + unfold bind at 1 in Hrun. unfold api at 1 in Hrun.
      fold (save_request id fl its) in Hrun.
      destruct (server (save_request id fl its)) as [err|data] eqn:Hsrv.
      * injection Hrun as <- <-. by eapply path_save_failed.
      * injection Hrun as <- <-. by eapply path_saved.
    + injection Hrun as <- <-.
      eapply (path_aborted _ _ _ _ _ _ Hlen Hzero Hens); [by eexists|done].
  - injection Hrun as <- <-. by eapply (path_aborted _ _ _ _ _ _ Hlen Hzero Hens).
  - injection Hrun as <- <-. by eapply (path_aborted _ _ _ _ _ _ Hlen Hzero Hens).
Qed.

(** What [ensureItinerary] leaves untouched, and what it sends. *)
Lemma ensured_frame s w r w1 :
  ensured server s w r w1 →
  (∃ pre, requests w1 = requests w ++ pre
          ∧ (∀ url b data, POST url b ∈ pre → server (POST url b) = inl data →
                           r = Ok None ∧ pre = [POST url b])
          ∧ (∀ url fl its, POST url (SaveBody fl its) ∉ pre))
  ∧ navigated w1 = navigated w
  ∧ pendingItems (ui w1) = pendingItems (ui w)
  ∧ localStorage w1 !! STORAGE_KEY = localStorage w !! STORAGE_KEY
  ∧ localStorage w1 !! SAVED_KEY = localStorage w !! SAVED_KEY
  ∧ (∀ k, is_Some (localStorage w !! k) → is_Some (localStorage w1 !! k)).
Proof.
  destruct 1 as [w1 Hsel (Hls & Hrs & Hns & Hp)|e w1 Hsel Hread (Hls & Hrs & Hns & Hp)
                |d w1 Hsel Hread Hsrv Hls Hrs Hns Hp
                |d data id text w1 Hsel Hread Hsrv Hid Hls Hrs Hns Hp Hid'].
  - rewrite Hls, Hrs, Hns, Hp. split; [|done].
    exists []. rewrite app_nil_r. split; [done|].
    split; [intros ??? H; by apply elem_of_nil in H|intros; by apply not_elem_of_nil].
  - rewrite Hls, Hrs, Hns, Hp. split; [|done].
    exists []. rewrite app_nil_r. split; [done|].
    split; [intros ??? H; by apply elem_of_nil in H|intros; by apply not_elem_of_nil].
  - rewrite Hls, Hrs, Hns, Hp. split; [|done].
    exists [create_request d]. split; [done|]. split.
    + intros url b err H _. apply list_elem_of_singleton in H. by rewrite H.
    + intros url fl its H. apply list_elem_of_singleton in H.
      unfold create_request in H. by case_match.
  - rewrite Hls, Hrs, Hns, Hp. split.
    + exists [create_request d; GET "/itineraries" []]. split; [done|]. split.
      * intros url b err H Hfail. exfalso.
        apply elem_of_cons in H as [H|H]; [congruence|].
        by apply list_elem_of_singleton in H.
      * intros url fl its H.
        apply elem_of_cons in H as [H|H];
          [unfold create_request in H; by case_match|].
        by apply list_elem_of_singleton in H.
    + unfold DRAFT_KEY, STORAGE_KEY, SAVED_KEY.
      rewrite !lookup_insert_ne by done. repeat split; try done.
      intros k Hk. destruct (decide (k = "planit_current_itinerary")) as [->|Hne].
      * by rewrite lookup_insert_eq.
      * by rewrite lookup_insert_ne.
Qed.

(** A save request is sent only after the itinerary is settled and the
    payload is built; what follows depends on the answer to it. *)
Lemma submitted w url fl its :
  POST url (SaveBody fl its) ∈ issued (handleSaveAllToItinerary server) w →
  ∃ id w0,
    url = "/itineraries/" +:+ template id +:+ "/save"
    ∧ payload (pendingItems (ui w)) = Ok (fl, its)
    ∧ ensured server (ui w) w (Ok (Some id)) w0
    ∧ outcome (handleSaveAllToItinerary server) w = Ok tt
    ∧ let w' := after (handleSaveAllToItinerary server) w in
      requests w' = requests w0 ++ [save_request id fl its]
      ∧ match server (POST url (SaveBody fl its)) with
        | inl _ =>
          localStorage w' = localStorage w0 ∧ navigated w' = navigated w0
          ∧ pendingItems (ui w') = pendingItems (ui w0)
        | inr data =>
          localStorage w'
          = delete DRAFT_KEY (delete STORAGE_KEY
              (<[SAVED_KEY := Json.stringify
                                (JObj (spread data ∪ object [("itinerary_id", id)]))]>
                 (localStorage w0)))
          ∧ navigated w' = navigated w0 ++ ["/itineraries/" +:+ template id]
          ∧ pendingItems (ui w') = JArr []
          ∧ currentItinerary (ui w') = Some JNull
        end.
Proof.
  intros Hin. unfold issued, after, outcome in *.
  pose proof (handleSaveAllToItinerary_path w) as Hpath.
  destruct (handleSaveAllToItinerary server w) as [r w1]. cbn [fst snd] in *.
  destruct Hpath as [e Hlen|len w1 Hlen Hzero (Hls & Hrs & Hns & Hp) Herr
                    |len r1 w0 w1 Hlen Hzero Hens Hpay (Hls & Hrs & Hns & Hp)
                    |len id fl' its' err w0 w1 Hlen Hzero Hens Hpay Hsrv Hls Hrs Hns Hp
                    |len id fl' its' ok w0 w1 Hlen Hzero Hens Hpay Hsrv Hls Hrs Hns Hp Hcur].
  - rewrite drop_all in Hin. by apply elem_of_nil in Hin.
  - rewrite Hrs, drop_all in Hin. by apply elem_of_nil in Hin.
  - apply ensured_frame in Hens as ((pre & Hpre & _ & Hnot) & _).
    rewrite Hrs, Hpre, drop_app_length in Hin. by apply Hnot in Hin.
  - pose proof (ensured_frame _ _ _ _ Hens) as ((pre & Hpre & _ & Hnot) & _).
    rewrite Hrs, Hpre, <- (assoc_L (++)), drop_app_length in Hin.
    apply elem_of_app in Hin as [Hin|Hin]; [by apply Hnot in Hin|].
    apply list_elem_of_singleton in Hin. injection Hin as -> -> ->.
    exists id, w0. fold (save_request id fl' its'). rewrite Hsrv. by repeat split.
  - pose proof (ensured_frame _ _ _ _ Hens) as ((pre & Hpre & _ & Hnot) & _).
    rewrite Hrs, Hpre, <- (assoc_L (++)), drop_app_length in Hin.
    apply elem_of_app in Hin as [Hin|Hin]; [by apply Hnot in Hin|].
    apply list_elem_of_singleton in Hin. injection Hin as -> -> ->.
    exists id, w0. fold (save_request id fl' its'). rewrite Hsrv. by repeat split.
Qed.

Lemma no_pending_items_rejected w :
  pendingItems (ui w) = JArr [] →
  let w' := after (handleSaveAllToItinerary server) w in
  outcome (handleSaveAllToItinerary server) w = Ok tt
  ∧ error (ui w') = JStr "No pending items to save"
  ∧ issued (handleSaveAllToItinerary server) w = []
  ∧ quiet w w'.
Proof.
  intros Hp w'. unfold w', issued, after, outcome.
  pose proof (handleSaveAllToItinerary_path w) as Hpath.
  destruct (handleSaveAllToItinerary server w) as [r w1]. cbn [fst snd] in *.
  destruct Hpath as [e Hlen|len w1 Hlen Hzero Hq Herr
                    |len r1 w0 w1 Hlen Hzero _ _ _
                    |len id fl' its' err w0 w1 Hlen Hzero _ _ _ _ _ _ _
                    |len id fl' its' ok w0 w1 Hlen Hzero _ _ _ _ _ _ _ _];
    rewrite Hp in Hlen; try discriminate;
    try (injection Hlen as <-; discriminate).
  repeat split; try done; try apply Hq.
  destruct Hq as (_ & -> & _). by rewrite drop_all.
Qed.

(** With no itinerary selected and a readable draft context, the first
    request is the creation request for that draft; when it succeeds, the id
    it returns is the one saved into. *)
Lemma creation_first w d :
  (∃ x l, pendingItems (ui w) = JArr (x :: l)) →
  truthy (selectedItineraryId (ui w)) = false →
  read_draft w = Ok d →
  head (issued (handleSaveAllToItinerary server) w) = Some (create_request d)
  ∧ ∀ data id fl its,
      server (create_request d) = inr data →
      get data "itinerary_id" = Ok id →
      payload (pendingItems (ui w)) = Ok (fl, its) →
      issued (handleSaveAllToItinerary server) w
      = [create_request d; GET "/itineraries" []; save_request id fl its].
Proof.
  intros (x & l & Hp) Hsel Hread. unfold issued, after.
  pose proof (handleSaveAllToItinerary_path w) as Hpath.
  destruct (handleSaveAllToItinerary server w) as [r w1]. cbn [fst snd] in *.
  assert (∀ r0 w0, ensured server (ui w) w r0 w0 →
            (r0 = Ok None ∧ requests w0 = requests w ++ [create_request d]
             ∧ ((∃ data, server (create_request d) = inl data)
                ∨ (∃ data, server (create_request d) = inr data ∧ nullish data = true)))
            ∨ (∃ data id, r0 = Ok (Some id)
                 ∧ requests w0 = requests w ++ [create_request d; GET "/itineraries" []]
                 ∧ server (create_request d) = inr data
                 ∧ get data "itinerary_id" = Ok id)) as Hcases.
  { destruct 1 as [|? ? ? Hread'|d' ? ? Hread'|d' ? ? ? ? ? Hread']; try congruence.

    - left. assert (d' = d) as -> by congruence. eauto.
    - right. assert (d' = d) as -> by congruence. eauto 10. }
  destruct Hpath as [e Hlen|len w1 Hlen Hzero Hq Herr
                    |len r1 w0 w1 Hlen Hzero Hens Hpay (Hls & Hrs & Hns & Hp')
                    |len id fl' its' err w0 w1 Hlen Hzero Hens Hpay Hsrv Hls Hrs Hns Hp'
                    |len id fl' its' ok w0 w1 Hlen Hzero Hens Hpay Hsrv Hls Hrs Hns Hp' Hcur];
    rewrite Hp in Hlen; try discriminate;
    try (injection Hlen as <-; discriminate).
  - apply Hcases in Hens as [(-> & Hreq & Hwhy)|(data & id & -> & Hreq & Hsrv & Hid)];
      rewrite Hrs, Hreq, drop_app_length; (split; [done|]);
      intros data' id' fl its Hsrv' Hid' Hpay'.
    + destruct Hwhy as [(? & ?)|(data0 & ? & Hnull)]; [congruence|].
      assert (data0 = data') as -> by congruence.
      unfold get in Hid'. by rewrite Hnull in Hid'.
    + destruct Hpay as [e He]. congruence.
  - apply Hcases in Hens as [(? & _)|(data & id0 & Heq & Hreq & Hsrv0 & Hid)];
      [done|]. injection Heq as <-.
    rewrite Hrs, Hreq, <- (assoc_L (++)), drop_app_length. split; [done|].
    intros data' id' fl its Hsrv' Hid' Hpay'.
    assert (data = data') as -> by congruence.
    assert (id = id') as -> by congruence.
    assert (Ok (fl', its') = Ok (fl, its) :> result _) as Heq by congruence.
    by injection Heq as -> ->.
  - apply Hcases in Hens as [(? & _)|(data & id0 & Heq & Hreq & Hsrv0 & Hid)];
      [done|]. injection Heq as <-.
    rewrite Hrs, Hreq, <- (assoc_L (++)), drop_app_length. split; [done|].
    intros data' id' fl its Hsrv' Hid' Hpay'.
    assert (data = data') as -> by congruence.
    assert (id = id') as -> by congruence.
    assert (Ok (fl', its') = Ok (fl, its) :> result _) as Heq by congruence.
    by injection Heq as -> ->.
Qed.

(** With an itinerary selected and a payload that builds, the one request
    sent is the save request. *)
Lemma selected_submits w x l fl its :
  pendingItems (ui w) = JArr (x :: l) →
  truthy (selectedItineraryId (ui w)) = true →
  payload (pendingItems (ui w)) = Ok (fl, its) →
  issued (handleSaveAllToItinerary server) w
  = [save_request (selectedItineraryId (ui w)) fl its].
Proof.
  intros Hp Hsel Hpay. unfold issued, after.
  pose proof (handleSaveAllToItinerary_path w) as Hpath.
  destruct (handleSaveAllToItinerary server w) as [r w1]. cbn [fst snd] in *.
  assert (∀ r0 w0, ensured server (ui w) w r0 w0 →
            r0 = Ok (Some (selectedItineraryId (ui w))) ∧ requests w0 = requests w)
    as Hcases.
  { destruct 1 as [? ? (?&?&?&?)| | |]; try congruence. done. }
  destruct Hpath as [e Hlen|len w1 Hlen Hzero Hq Herr
                    |len r1 w0 w1 Hlen Hzero Hens Hpay' (Hls & Hrs & Hns & Hp')
                    |len id fl' its' err w0 w1 Hlen Hzero Hens Hpay' Hsrv Hls Hrs Hns Hp'
                    |len id fl' its' ok w0 w1 Hlen Hzero Hens Hpay' Hsrv Hls Hrs Hns Hp' Hcur];
    rewrite Hp in Hlen; try discriminate;
    try (injection Hlen as <-; discriminate).
  - apply Hcases in Hens as [-> _]. destruct Hpay' as [e He]. congruence.
  - apply Hcases in Hens as [Heq Hreq]. injection Heq as ->.
    rewrite Hrs, Hreq, drop_app_length.
    assert (Ok (fl', its') = Ok (fl, its) :> result _) as Heq by congruence.
    by injection Heq as -> ->.
  - apply Hcases in Hens as [Heq Hreq]. injection Heq as ->.
    rewrite Hrs, Hreq, drop_app_length.
    assert (Ok (fl', its') = Ok (fl, its) :> result _) as Heq by congruence.
    by injection Heq as -> ->.
Qed.

End save.

(** *** Search results *)

Section search.
Context (server : request → jsval + jsval).

Lemma index_key_not_plain i : plain_key (index_key i) = false.
Proof.
  unfold index_key, plain_key.
  destruct (JsonFacts.parse_number_render (Z.of_nat i) "" eq_refl)
    as (_ & c & r & -> & Hc).
  by rewrite Hc.
Qed.

Lemma indexed_lookup {A} (l : list A) k : ∀ i,
  plain_key k = true → (list_to_map (indexed i l) : gmap string A) !! k = None.
Proof.
  induction l as [|x l IH]; intros i Hk; [done|]. cbn [indexed list_to_map foldr].
  rewrite lookup_insert_ne; [by apply IH|].
  intros Heq. cbn [fst] in Heq. by rewrite <- Heq, index_key_not_plain in Hk.
Qed.

Lemma spread_lookup r k :
  truthy (Some r) = true → plain_key k = true →
  spread (Some r) !! k = prop (Some r) k.
Proof.
  intros Hr Hk.
  assert (String.eqb k "length" = false) as Hlen.
  { unfold plain_key in Hk. apply andb_true_iff in Hk as [_ Hk].
    by apply negb_true_iff in Hk. }
  destruct r as [|b|z|s|l|m]; cbn [spread prop]; rewrite ?Hlen;
    try done; by apply indexed_lookup.
Qed.

Lemma normalizeAttraction_lookup r k :
  truthy (Some r) = true → plain_key k = true → k ≠ "image_url" → k ≠ "xid" →
  prop (Some (normalizeAttraction r)) k = prop (Some r) k.
Proof.
  intros Hr Hk Himg Hxid. unfold normalizeAttraction. rewrite Hr. cbn [negb].
  rewrite <- (spread_lookup r k) by done.
  set (image := or (prop (Some r) "image_url") _).
  set (xid := or (prop (Some r) "xid") _).
  cbn [prop]. unfold set_prop.
  destruct xid, image;
    by rewrite ?lookup_insert_ne, ?lookup_delete_ne, ?lookup_insert_ne by congruence.
Qed.

(** Normalizing an attraction does not change how it is classified. *)
Lemma isHotelLike_normalizeAttraction r :
  isHotelLike (Some (normalizeAttraction r)) = isHotelLike (Some r).
Proof.
  destruct (truthy (Some r)) eqn:Hr.
  - unfold isHotelLike. rewrite Hr.
    assert (truthy (Some (normalizeAttraction r)) = true) as ->
      by (unfold normalizeAttraction; by rewrite Hr).
    by rewrite !normalizeAttraction_lookup.
  - unfold normalizeAttraction. by rewrite Hr.
Qed.

Lemma isHotelLike_spec item :
  isHotelLike item = true ↔
  truthy item = true
  ∧ (truthy (prop item "hotel_id") = true ∨ truthy (prop item "hotel_key") = true
     ∨ truthy (prop item "price_per_night") = true
     ∨ truthy (prop item "rating") = true ∨ truthy (prop item "address") = true).
Proof.
  unfold isHotelLike, or. destruct (truthy item); cbn [negb]; [|intuition discriminate].
  destruct (truthy (prop item "hotel_id")) eqn:H1; [tauto|].
  destruct (truthy (prop item "hotel_key")) eqn:H2; [tauto|].
  destruct (truthy (prop item "price_per_night")) eqn:H3; [tauto|].
  destruct (truthy (prop item "rating")) eqn:H4; [tauto|].
  intuition discriminate.
Qed.

Lemma handleSearch_attractions w forceType data raw :
  blank (query (ui w)) = false →
  default (searchType (ui w)) forceType = attractions →
  server (GET "/search/attractions" [("location", query (ui w))]) = inr data →
  prop data "attractions" = Some (JArr raw) →
  let normalized :=
    List.filter (λ it, negb (isHotelLike (Some it))) (map normalizeAttraction raw) in
  let w' := after (handleSearch server forceType) w in
  outcome (handleSearch server forceType) w = Ok tt
  ∧ results (ui w') = normalized
  ∧ error (ui w')
    = (if ((length normalized =? 0) && (0 <? length raw))%nat
       then JStr "Attractions endpoint returned results that appear to be hotels; none shown."
       else JStr "")
  ∧ requests w' = requests w ++ [GET "/search/attractions" [("location", query (ui w))]].
Proof.
  intros Hblank Hactive Hsrv Hattr normalized w'.
  assert (truthy data = true) as Hdata by (by destruct data as [[]|]).
  unfold w', outcome, after. clear w'.
  destruct w as [[] ls rs ns]. cbn [ui query searchType] in *.
  unfold handleSearch. run. rewrite Hblank, Hactive, Hsrv, Hdata, Hattr.
  fold normalized. by destruct ((length normalized =? 0) && (0 <? length raw))%nat.
Qed.

End search.

(** * The claims *)

(** C1: when a POST request of an invocation of [handleSaveAllToItinerary]
    (the itinerary creation or the save) is rejected, the handler returns
    after it without sending anything more, and nothing is cleared: the
    pending record of the store, what [getPendingItems] lists and the
    component's list are as before, no key of the store is removed, the
    last-saved record is not written and there is no navigation. *)
Theorem failed_save_keeps_staged_items
    (server : request → jsval + jsval) (w : world) (req : request) (data : jsval) :
  req ∈ issued (handleSaveAllToItinerary server) w →
  (∃ url b, req = POST url b) →
  server req = inl data →
  let w' := after (handleSaveAllToItinerary server) w in
  outcome (handleSaveAllToItinerary server) w = Ok tt
  ∧ last (issued (handleSaveAllToItinerary server) w) = Some req
  ∧ localStorage w' !! STORAGE_KEY = localStorage w !! STORAGE_KEY
  ∧ outcome getPendingItems w' = outcome getPendingItems w
  ∧ pendingItems (ui w') = pendingItems (ui w)
  ∧ (∀ k, is_Some (localStorage w !! k) → is_Some (localStorage w' !! k))
  ∧ localStorage w' !! SAVED_KEY = localStorage w !! SAVED_KEY
  ∧ navigated w' = navigated w.
Proof.
  intros Hin (url & b & ->) Hfail w'.
  assert (∀ w1 : world,
            localStorage w1 !! STORAGE_KEY = localStorage w !! STORAGE_KEY →
            outcome getPendingItems w1 = outcome getPendingItems w) as Hlist.
  { intros w1 H. unfold outcome, getPendingItems, bind, getItem. rewrite H.
    apply parse_stored_world. }
  unfold w', issued, after, outcome in *.
  pose proof (handleSaveAllToItinerary_path server w) as Hpath.
  destruct (handleSaveAllToItinerary server w) as [r w1]. cbn [fst snd] in *.
  destruct Hpath as [e Hlen|len w1 Hlen Hzero (Hls & Hrs & Hns & Hp) Herr
                    |len r1 w0 w1 Hlen Hzero Hens Hpay (Hls & Hrs & Hns & Hp)
                    |len id fl its err w0 w1 Hlen Hzero Hens Hpay Hsrv Hls Hrs Hns Hp
                    |len id fl its ok w0 w1 Hlen Hzero Hens Hpay Hsrv Hls Hrs Hns Hp Hcur].
  - rewrite drop_all in Hin. by apply elem_of_nil in Hin.
  - rewrite Hrs, drop_all in Hin. by apply elem_of_nil in Hin.
  - apply (ensured_frame server) in Hens
      as ((pre & Hpre & Hfailed & _) & Hn0 & Hp0 & Hk0 & Hs0 & Hkeys).
    rewrite Hrs, Hpre, drop_app_length in *.
    destruct (Hfailed _ _ _ Hin Hfail) as [_ ->].
    rewrite Hls, Hns, Hp. repeat split; auto. apply Hlist. by rewrite Hls.
  - apply (ensured_frame server) in Hens
      as ((pre & Hpre & Hfailed & _) & Hn0 & Hp0 & Hk0 & Hs0 & Hkeys).
    rewrite Hrs, Hpre, <- (assoc_L (++)), drop_app_length in *.
    apply elem_of_app in Hin as [Hin|Hin];
      [by destruct (Hfailed _ _ _ Hin Hfail)|].
    apply list_elem_of_singleton in Hin. rewrite Hin, last_snoc.
    rewrite Hls, Hns, Hp. repeat split; auto. apply Hlist. by rewrite Hls.
  - exfalso.
    apply (ensured_frame server) in Hens as ((pre & Hpre & Hfailed & _) & _).
    rewrite Hrs, Hpre, <- (assoc_L (++)), drop_app_length in Hin.
    apply elem_of_app in Hin as [Hin|Hin].
    + by destruct (Hfailed _ _ _ Hin Hfail).
    + apply list_elem_of_singleton in Hin. rewrite <- Hin in Hsrv. congruence.
Qed.

Lemma failed_save_keeps_staged_items_witness :
  let w := world_of (JArr [to_json hotel_a]) (Some (JNum 7)) None in
  let w' := after (handleSaveAllToItinerary backend_down) w in
  let req := save_request (Some (JNum 7)) [] [projection hotel_a] in
  outcome (handleSaveAllToItinerary backend_down) w = Ok tt
  ∧ last (issued (handleSaveAllToItinerary backend_down) w) = Some req
  ∧ localStorage w' !! STORAGE_KEY = localStorage w !! STORAGE_KEY
  ∧ outcome getPendingItems w' = outcome getPendingItems w
  ∧ pendingItems (ui w') = pendingItems (ui w)
  ∧ (∀ k, is_Some (localStorage w !! k) → is_Some (localStorage w' !! k))
  ∧ localStorage w' !! SAVED_KEY = localStorage w !! SAVED_KEY
  ∧ navigated w' = navigated w.
Proof.
  intros w.
  apply (failed_save_keeps_staged_items backend_down w
           (save_request (Some (JNum 7)) [] [projection hotel_a]) None).
  - vm_compute. apply list_elem_of_here.
  - by eexists _, _.
  - reflexivity.
Defined.

(** C2: when the save request of an invocation of
    [handleSaveAllToItinerary] is answered, the last-saved record holds the
    answer merged with the id of the itinerary saved into: what
    [JSON.parse] reads from it is an object that has every property of an
    answer that is an object, and under [itinerary_id] the id saved into
    unless the answer has an [itinerary_id] of its own, and nothing else.
    The pending record and the draft record are gone from the store, the
    component's list is empty and its draft context is cleared, and the
    handler navigates to the detail view of that itinerary. *)
Theorem successful_save_commits
    (server : request → jsval + jsval) (w : world) (url : string)
    (fl : list jsval) (its : list payload_item) (data : jsval) :
  POST url (SaveBody fl its) ∈ issued (handleSaveAllToItinerary server) w →
  server (POST url (SaveBody fl its)) = inr data →
  let w' := after (handleSaveAllToItinerary server) w in
  ∃ id,
    url = "/itineraries/" +:+ template id +:+ "/save"
    ∧ outcome (handleSaveAllToItinerary server) w = Ok tt
    ∧ (∃ text saved,
         localStorage w' !! SAVED_KEY = Some text
         ∧ Json.parse text = Some (JObj saved)
         ∧ (∀ m, data = Some (JObj m) →
                 ∀ k, saved !! k
                      = match m !! k with
                        | Some v => Some v
                        | None => if decide (k = "itinerary_id") then id else None
                        end)
         ∧ (prop data "itinerary_id" = None → saved !! "itinerary_id" = id))
    ∧ localStorage w' !! STORAGE_KEY = None
    ∧ outcome getPendingItems w' = Ok (JArr [])
    ∧ pendingItems (ui w') = JArr []
    ∧ localStorage w' !! DRAFT_KEY = None
    ∧ currentItinerary (ui w') = Some JNull
    ∧ navigated w' = navigated w ++ ["/itineraries/" +:+ template id].
Proof.
  intros Hin Hsrv w'.
  destruct (submitted server w url fl its Hin)
    as (id & w0 & Hurl & Hpay & Hens & Hout & Hreq & Hend).
  rewrite Hsrv in Hend. destruct Hend as (Hls & Hns & Hp & Hcur).
  apply ensured_frame in Hens as (_ & Hn0 & _).
  fold w' in Hls, Hns, Hp, Hcur.
  assert (localStorage w' !! STORAGE_KEY = None) as Hgone.
  { rewrite Hls. unfold DRAFT_KEY, STORAGE_KEY.
    by rewrite lookup_delete_ne, lookup_delete_eq. }
  assert (∀ k, object [("itinerary_id", id)] !! k
               = if decide (k = "itinerary_id") then id else None) as Hid.
  { intros k. unfold object. cbn [foldl fst snd]. unfold set_prop.
    destruct id as [j|]; case_decide as Hk; subst;
      by rewrite ?lookup_insert_eq, ?lookup_insert_ne, ?lookup_delete_eq,
           ?lookup_delete_ne, ?lookup_empty. }
  exists id. repeat split; try done.
  - exists (Json.stringify (JObj (spread data ∪ object [("itinerary_id", id)]))),
      (spread data ∪ object [("itinerary_id", id)]).
    split; [|split; [apply JsonFacts.parse_stringify|split]].
    + rewrite Hls. unfold DRAFT_KEY, STORAGE_KEY, SAVED_KEY.
      by rewrite !lookup_delete_ne, lookup_insert_eq.
    + intros m -> k. cbn [spread]. destruct (m !! k) as [v|] eqn:Hk.
      * by apply lookup_union_Some_l.
      * rewrite lookup_union_r by done. apply Hid.
    + intros Hnone. rewrite lookup_union_r; [by rewrite Hid|].
      destruct data as [[| | |t|l|m]|]; try done;
        cbn [spread prop] in *; by apply indexed_lookup.
  - unfold outcome. by rewrite getPendingItems_missing.
  - rewrite Hls. apply lookup_delete_eq.
  - by rewrite Hns, Hn0.
Qed.

Lemma successful_save_commits_witness :
  let w := world_of (JArr [to_json hotel_a]) (Some (JNum 7)) (Some "{}") in
  let w' := after (handleSaveAllToItinerary backend_ok) w in
  ∃ id,
    "/itineraries/7/save" = "/itineraries/" +:+ template id +:+ "/save"
    ∧ outcome (handleSaveAllToItinerary backend_ok) w = Ok tt
    ∧ (∃ text saved,
         localStorage w' !! SAVED_KEY = Some text
         ∧ Json.parse text = Some (JObj saved)
         ∧ (∀ m, Some (JObj {["status" := JStr "ok"]}) = Some (JObj m) →
                 ∀ k, saved !! k
                      = match m !! k with
                        | Some v => Some v
                        | None => if decide (k = "itinerary_id") then id else None
                        end)
         ∧ (prop (Some (JObj {["status" := JStr "ok"]})) "itinerary_id" = None →
            saved !! "itinerary_id" = id))
    ∧ localStorage w' !! STORAGE_KEY = None
    ∧ outcome getPendingItems w' = Ok (JArr [])
    ∧ pendingItems (ui w') = JArr []
    ∧ localStorage w' !! DRAFT_KEY = None
    ∧ currentItinerary (ui w') = Some JNull
    ∧ navigated w' = navigated w ++ ["/itineraries/" +:+ template id].
Proof.
  intros w.
  apply (successful_save_commits backend_ok w "/itineraries/7/save" []
           [projection hotel_a] (Some (JObj {["status" := JStr "ok"]}))).
  - vm_compute. apply list_elem_of_here.
  - reflexivity.
Defined.

(** C3 fails as stated: the price falls back from the generic price to the
    nightly price, not the other way round.  [price_nightly_first] is the
    fallback in the order the claim gives; for a hotel with a generic price of
    50 and a nightly price of 120 the payload carries 50, the claim says 120. *)
Lemma payload_price_is_not_nightly_first :
  payload (JArr [to_json hotel_b])
  = Ok ([], [PayloadItem (Some (JStr "Hotel B")) (Some (JNum 50)) (Some (JStr "hotel"))])
  ∧ price_nightly_first (data hotel_b) = Some (JNum 120)
  ∧ payload (JArr [to_json hotel_b])
    ≠ Ok ([], [PayloadItem (Some (JStr "Hotel B")) (price_nightly_first (data hotel_b))
                 (Some (JStr "hotel"))]).
Proof. vm_compute. repeat split; [done..|discriminate]. Qed.

(** C3, amended: for pending items [items], the payload of every save
    request partitions them by type, in their order: [flights] holds the raw
    data of the flights, [items] holds for each other item its name (the
    [name] field, else the [title] field), its price (the [price] field, else
    the [price_per_night] field, else 0) and its type; with an itinerary
    selected and at least one pending item that request is the one request
    sent.  For the hotel "Hotel A" at 120 a night and one flight, [items] is
    the one entry for the hotel and [flights] is the one flight record. *)
Theorem payload_partitions_by_type
    (server : request → jsval + jsval) (w : world) (items : list PendingItem) :
  staged w (JArr (to_json <$> items)) →
  let flights := (λ i, Some (JObj (data i))) <$> filter (λ i, type i = flight) items in
  let others :=
    (λ i, PayloadItem
            (or (data i !! "name") (data i !! "title"))
            (or (data i !! "price") (or (data i !! "price_per_night") (Some (JNum 0))))
            (Some (JStr (type_name (type i)))))
    <$> filter (λ i, type i ≠ flight) items in
  (∀ url fl its,
     POST url (SaveBody fl its) ∈ issued (handleSaveAllToItinerary server) w →
     fl = flights ∧ its = others)
  ∧ (items ≠ [] → truthy (selectedItineraryId (ui w)) = true →
     issued (handleSaveAllToItinerary server) w
     = [POST ("/itineraries/" +:+ template (selectedItineraryId (ui w)) +:+ "/save")
          (SaveBody flights others)])
  ∧ (∀ fd t1 t2,
       items = [ {| type := hotel;
                    data := {["name" := JStr "Hotel A"; "price_per_night" := JNum 120]};
                    addedAt := t1 |};
                 {| type := flight; data := fd; addedAt := t2 |} ] →
       others = [PayloadItem (Some (JStr "Hotel A")) (Some (JNum 120)) (Some (JStr "hotel"))]
       ∧ flights = [Some (JObj fd)]).
Proof.
  intros [_ Hp] flights others.
  pose proof (payload_to_json items) as Hpay. rewrite <- Hp in Hpay.
  fold flights in Hpay. change (projection <$> _) with others in Hpay.
  split; [|split].
  - intros url fl its Hin.
    destruct (submitted server w url fl its Hin) as (id & w0 & _ & Hpay' & _).
    assert (Ok (fl, its) = Ok (flights, others) :> result _) as Heq by congruence.
    by injection Heq as -> ->.
  - intros Hne Hsel. destruct items as [|i items]; [done|].
    by apply (selected_submits server w (to_json i) (to_json <$> items)).
  - intros fd t1 t2 ->. done.
Qed.

Lemma payload_partitions_by_type_witness :
  let w := world_of (JArr (to_json <$> [hotel_a; flight_x])) (Some (JNum 7)) None in
  issued (handleSaveAllToItinerary backend_up) w
  = [POST "/itineraries/7/save"
       (SaveBody [Some (JObj (data flight_x))]
          [PayloadItem (Some (JStr "Hotel A")) (Some (JNum 120)) (Some (JStr "hotel"))])].
Proof.
  intros w.
  apply (proj1 (proj2 (payload_partitions_by_type backend_up w [hotel_a; flight_x]
                         (conj eq_refl eq_refl)))).
  - discriminate.
  - reflexivity.
Defined.

(** C4: with pending items staged, no itinerary selected and a draft context
    [d] read from the store ([null] when there is none), the first request of
    [handleSaveAllToItinerary] creates the itinerary: from the dates, with the
    draft's dates and its title if it has one, when [d] carries both a
    departure and a return date, and empty otherwise.  When the creation is
    answered with an itinerary id, the save request that follows goes to the
    itinerary of that id. *)
Theorem creation_follows_the_draft
    (server : request → jsval + jsval) (w : world) (x : json) (l : list json) (d : json) :
  staged w (JArr (x :: l)) →
  truthy (selectedItineraryId (ui w)) = false →
  read_draft w = Ok d →
  let departure := prop (Some d) "departure_date" in
  let back := prop (Some d) "return_date" in
  let create :=
    if truthy departure && truthy back
    then POST "/itineraries/create-from-flights"
           (CreateFromFlights departure back (or (prop (Some d) "title") None))
    else POST "/itineraries" EmptyBody in
  head (issued (handleSaveAllToItinerary server) w) = Some create
  ∧ ∀ data id fl its,
      server create = inr data →
      get data "itinerary_id" = Ok id →
      payload (JArr (x :: l)) = Ok (fl, its) →
      issued (handleSaveAllToItinerary server) w
      = [create; GET "/itineraries" [];
         POST ("/itineraries/" +:+ template id +:+ "/save") (SaveBody fl its)].
Proof.
  intros [_ Hp] Hsel Hread departure back create.
  destruct (creation_first server w d) as [Hhead Hsave]; [by eauto|done|done|].
  split; [done|]. intros data id fl its Hsrv Hid Hpay.
  apply (Hsave data id fl its); [done|done|by rewrite Hp].
Qed.

Lemma creation_follows_the_draft_witness :
  let w := world_of (JArr [to_json hotel_a]) (Some JNull)
             (Some (Json.stringify summer_draft)) in
  head (issued (handleSaveAllToItinerary backend_up) w)
  = Some (POST "/itineraries/create-from-flights"
            (CreateFromFlights (Some (JStr "2025-06-01")) (Some (JStr "2025-06-08")) None)).
Proof.
  intros w.
  exact (proj1 (creation_follows_the_draft backend_up w (to_json hotel_a) []
                  summer_draft (conj eq_refl eq_refl) eq_refl eq_refl)).
Defined.

(** C5: with nothing staged, [handleSaveAllToItinerary] reports that there is
    nothing to save and sends no request; the store is left as it is. *)
Theorem empty_store_is_rejected (server : request → jsval + jsval) (w : world) :
  staged w (JArr []) →
  let w' := after (handleSaveAllToItinerary server) w in
  outcome (handleSaveAllToItinerary server) w = Ok tt
  ∧ error (ui w') = JStr "No pending items to save"
  ∧ issued (handleSaveAllToItinerary server) w = []
  ∧ localStorage w' = localStorage w.
Proof.
  intros [_ Hp] w'.
  destruct (no_pending_items_rejected server w Hp) as (Hout & Herr & Hnone & Hq & _).
  done.
Qed.

Lemma empty_store_is_rejected_witness :
  let w := World initial_state ∅ [] [] in
  let w' := after (handleSaveAllToItinerary backend_up) w in
  outcome (handleSaveAllToItinerary backend_up) w = Ok tt
  ∧ error (ui w') = JStr "No pending items to save"
  ∧ issued (handleSaveAllToItinerary backend_up) w = []
  ∧ localStorage w' = localStorage w.
Proof.
  intros w.
  apply (empty_store_is_rejected backend_up w (conj eq_refl eq_refl)).
Defined.

(** C6: after any sequence of [addPendingItem] calls on a store that lists
    [l], [getPendingItems] returns [l] followed by the added items in the
    order of the calls; nothing is merged: an item added twice is listed
    twice. *)
Theorem add_then_list_in_insertion_order (items l : list json) (w : world) :
  outcome getPendingItems w = Ok (JArr l) →
  outcome (add_all items) w = Ok tt
  ∧ outcome getPendingItems (after (add_all items) w) = Ok (JArr (l ++ items))
  ∧ ∀ x, outcome getPendingItems (after (add_all [x; x]) w) = Ok (JArr (l ++ [x; x])).
Proof.
  intros Hout. pose proof (getPendingItems_pure w) as Hw. rewrite Hout in Hw.
  clear Hout. unfold outcome at 2 3.
  split; [|split; [|intros x]].
  - by apply (add_all_array items w l).
  - destruct (add_all_array items w l Hw) as [_ ->]. done.
  - destruct (add_all_array [x; x] w l Hw) as [_ ->]. done.
Qed.

Lemma add_then_list_witness :
  outcome (add_all [JStr "a"; JStr "a"]) (World initial_state ∅ [] []) = Ok tt
  ∧ outcome getPendingItems (after (add_all [JStr "a"; JStr "a"]) (World initial_state ∅ [] []))
    = Ok (JArr ([] ++ [JStr "a"; JStr "a"]))
  ∧ ∀ x, outcome getPendingItems (after (add_all [x; x]) (World initial_state ∅ [] []))
         = Ok (JArr ([] ++ [x; x])).
Proof.
  apply (add_then_list_in_insertion_order [JStr "a"; JStr "a"] []
           (World initial_state ∅ [] [])).
  reflexivity.
Defined.

(** C7 fails for a negative index: [splice] counts it from the end, so
    [removePendingItem (-1)] on a store listing 1, 2, 3 removes the 3. *)
Lemma remove_negative_index_removes_an_entry :
  let w := World initial_state {[STORAGE_KEY := "[1,2,3]"]} [] [] in
  outcome getPendingItems w = Ok (JArr [JNum 1; JNum 2; JNum 3])
  ∧ outcome getPendingItems (after (removePendingItem (-1)) w)
    = Ok (JArr [JNum 1; JNum 2])
  ∧ outcome getPendingItems (after (removePendingItem (-1)) w)
    ≠ outcome getPendingItems w.
Proof. vm_compute. repeat split; [done..|discriminate]. Qed.

(** C7, amended: on a store that lists [l], [removePendingItem index] does
    not throw; for [index] at or beyond the length the listed sequence and the
    component's copy of it are [l], unchanged; a negative [index] counts from
    the end, and the entry at position [max (length + index) 0] is removed. *)
Theorem remove_out_of_range (w : world) (l : list json) (index : Z) :
  outcome getPendingItems w = Ok (JArr l) →
  let w' := after (removePendingItem index) w in
  outcome (removePendingItem index) w = Ok tt
  ∧ ((Z.of_nat (length l) ≤ index)%Z →
     outcome getPendingItems w' = Ok (JArr l) ∧ pendingItems (ui w') = JArr l)
  ∧ ((index < 0)%Z →
     outcome getPendingItems w'
     = Ok (JArr (delete (Z.to_nat (Z.max (Z.of_nat (length l) + index) 0)) l))).
Proof.
  intros Hout w'. pose proof (getPendingItems_pure w) as Hw. rewrite Hout in Hw.
  clear Hout. unfold w', outcome, after.
  rewrite (removePendingItem_array w l index Hw).
  assert (∀ u v rs ns,
            getPendingItems (World u (<[STORAGE_KEY := Json.stringify v]> (localStorage w)) rs ns)
            = (Ok v, World u (<[STORAGE_KEY := Json.stringify v]> (localStorage w)) rs ns))
    as Hget.
  { intros. apply getPendingItems_stored. cbn [localStorage]. by rewrite lookup_insert_eq. }
  split; [done|]. cbn [fst snd]. rewrite Hget. cbn [fst ui].
  split; intros Hi.
  - rewrite splice1_beyond by done. split; [done|]. by destruct w as [[] ? ? ?].
  - by rewrite splice1_negative.
Qed.

Lemma remove_out_of_range_witness :
  let w := World initial_state {[STORAGE_KEY := "[1,2,3]"]} [] [] in
  let l := [JNum 1; JNum 2; JNum 3] in
  let w' := after (removePendingItem 3) w in
  outcome (removePendingItem 3) w = Ok tt
  ∧ ((Z.of_nat (length l) ≤ 3)%Z →
     outcome getPendingItems w' = Ok (JArr l) ∧ pendingItems (ui w') = JArr l)
  ∧ ((3 < 0)%Z →
     outcome getPendingItems w'
     = Ok (JArr (delete (Z.to_nat (Z.max (Z.of_nat (length l) + 3) 0)) l))).
Proof.
  apply (remove_out_of_range (World initial_state {[STORAGE_KEY := "[1,2,3]"]} [] [])
           [JNum 1; JNum 2; JNum 3] 3).
  reflexivity.
Defined.

(** C8 fails on a record that is not JSON: [getPendingItems] throws the
    [SyntaxError] of [JSON.parse]. *)
Lemma list_throws_on_corrupt_record :
  outcome getPendingItems (World initial_state {[STORAGE_KEY := "{"]} [] [])
  = Throw SyntaxError.
Proof. reflexivity. Qed.

(** C8, amended: [getPendingItems] leaves the world as it is; it returns the
    empty sequence when the record is missing or empty, and the stored value
    when the record is a text that [JSON.stringify] writes for it, whatever
    the order in which the members of its objects are written; on a record
    that is not a JSON text it throws the [SyntaxError] of [JSON.parse]
    instead of returning the empty sequence. *)
Theorem list_reads_the_record (w : world) :
  after getPendingItems w = w
  ∧ (localStorage w !! STORAGE_KEY = None ∨ localStorage w !! STORAGE_KEY = Some "" →
     outcome getPendingItems w = Ok (JArr []))
  ∧ (∀ o, localStorage w !! STORAGE_KEY = Some (Json.write o) →
          outcome getPendingItems w = Ok (Json.value o))
  ∧ (∀ v, localStorage w !! STORAGE_KEY = Some (Json.stringify v) →
          outcome getPendingItems w = Ok v)
  ∧ (∀ text, localStorage w !! STORAGE_KEY = Some text → text ≠ "" →
             Json.json_text text = false →
             outcome getPendingItems w = Throw SyntaxError).
Proof.
  unfold after, outcome. repeat split.
  - unfold_M. unfold parse_stored, JSON_parse, ret, throw.
    by repeat case_match.
  - intros [H|H]; unfold_M; by rewrite H.
  - intros o H. unfold_M. rewrite H. by rewrite parse_stored_write.
  - intros v H. by rewrite (getPendingItems_stored w v H).
  - intros text H Hne Hno. unfold_M. rewrite H.
    by rewrite parse_stored_rejects.
Qed.

Lemma list_reads_the_record_witness :
  let o := Json.OArr
             [Json.OObj [("type", Json.OStr "hotel");
                         ("data", Json.OObj [("name", Json.OStr "Hotel A");
                                             ("price_per_night", Json.ONum 120)]);
                         ("addedAt", Json.OStr "2025-01-01T10:00:00.000Z")]] in
  let w := World initial_state {[STORAGE_KEY := Json.write o]} [] [] in
  outcome getPendingItems w = Ok (Json.value o).
Proof.
  intros o w.
  apply (proj1 (proj2 (proj2 (list_reads_the_record w))) o).
  reflexivity.
Defined.

(** C9: when the attractions search answers with the records [raw], every
    record that [isHotelLike] classifies as a hotel (it carries a truthy
    [hotel_id], [hotel_key], [price_per_night], [rating] or [address]) is left
    out of the results, which are the other records, normalized; when [raw]
    is not empty and nothing is left, the error says so, whereas for an empty
    [raw] no error is set. *)
Theorem hotel_like_results_are_filtered
    (server : request → jsval + jsval) (w : world) (forceType : option SearchType)
    (data : jsval) (raw : list json) :
  blank (query (ui w)) = false →
  default (searchType (ui w)) forceType = attractions →
  server (GET "/search/attractions" [("location", query (ui w))]) = inr data →
  prop data "attractions" = Some (JArr raw) →
  let w' := after (handleSearch server forceType) w in
  results (ui w')
  = filter (λ it, isHotelLike (Some it) = false) (normalizeAttraction <$> raw)
  ∧ (∀ r, r ∈ raw → isHotelLike (Some r) = true →
          normalizeAttraction r ∉ results (ui w'))
  ∧ (∀ r, r ∈ raw → isHotelLike (Some r) = false →
          normalizeAttraction r ∈ results (ui w'))
  ∧ (∀ item, isHotelLike item = true ↔
       truthy item = true
       ∧ (truthy (prop item "hotel_id") = true ∨ truthy (prop item "hotel_key") = true
          ∨ truthy (prop item "price_per_night") = true
          ∨ truthy (prop item "rating") = true ∨ truthy (prop item "address") = true))
  ∧ (raw ≠ [] → results (ui w') = [] →
     error (ui w')
     = JStr "Attractions endpoint returned results that appear to be hotels; none shown.")
  ∧ (raw = [] → results (ui w') = [] ∧ error (ui w') = JStr "").
Proof.
  intros Hblank Hactive Hsrv Hattr w'.
  destruct (handleSearch_attractions server w forceType data raw Hblank Hactive Hsrv Hattr)
    as (_ & Hres & Herr & _).
  fold w' in Hres, Herr.
  assert (results (ui w')
          = filter (λ it, isHotelLike (Some it) = false) (normalizeAttraction <$> raw))
    as Hres'.
  { rewrite Hres. clear. induction raw as [|x l IH]; [done|].
    cbn [map List.filter]. rewrite fmap_cons, filter_cons.
    destruct (isHotelLike (Some (normalizeAttraction x)));
      cbn [negb]; case_decide; try done.
    by rewrite IH. }
  split; [done|]. split; [|split; [|split; [|split]]].
  - intros r Hr Hhotel Hin. rewrite Hres' in Hin.
    apply list_elem_of_filter in Hin as [Hno _].
    rewrite isHotelLike_normalizeAttraction in Hno. congruence.
  - intros r Hr Hno. rewrite Hres'. apply list_elem_of_filter. split.
    + by rewrite isHotelLike_normalizeAttraction.
    + apply list_elem_of_fmap. by exists r.
  - apply isHotelLike_spec.
  - intros Hraw Hnone. rewrite Herr, <- Hres, Hnone.
    destruct raw; [done|]. done.
  - intros ->. rewrite Herr, Hres. done.
Qed.

Lemma hotel_like_results_are_filtered_witness :
  let w := World (searching "Paris") ∅ [] [] in
  let w' := after (handleSearch backend_hotels None) w in
  results (ui w') = []
  ∧ error (ui w')
    = JStr "Attractions endpoint returned results that appear to be hotels; none shown.".
Proof.
  intros w w'.
  pose proof (hotel_like_results_are_filtered backend_hotels w None
                (Some (JObj {["attractions" := JArr only_a_hotel]})) only_a_hotel
                eq_refl eq_refl eq_refl eq_refl) as (Hres & _ & _ & _ & Herr & _).
  split; [exact Hres|]. apply Herr; [discriminate|exact Hres].
Defined.

(** C10: in the payload of the save request, every pending item that is not
    a flight appears with the fallbacks taken on a falsy field, not only on an
    absent one: a falsy [price] gives way to [price_per_night] (a price of 0
    with a nightly price [P > 0] yields [P]), and a falsy [name] gives way to
    [title] (an empty name yields the title). *)
Theorem fallbacks_trigger_on_falsy (items : list PendingItem) (item : PendingItem) :
  item ∈ items → type item ≠ flight →
  ∃ fl its p,
    payload (JArr (to_json <$> items)) = Ok (fl, its)
    ∧ p ∈ its
    ∧ project (to_json item) = Ok p
    ∧ (truthy (data item !! "price") = false →
       payload_price p = or (data item !! "price_per_night") (Some (JNum 0)))
    ∧ (∀ P, data item !! "price" = Some (JNum 0) →
            data item !! "price_per_night" = Some (JNum P) → (0 < P)%Z →
            payload_price p = Some (JNum P))
    ∧ (truthy (data item !! "name") = false → payload_name p = data item !! "title")
    ∧ (data item !! "name" = Some (JStr "") → payload_name p = data item !! "title").
Proof.
  intros Hin Hty. eexists _, _, (projection item).
  split; [apply payload_to_json|]. split; [|split; [apply project_to_json|]].
  - apply list_elem_of_fmap. exists item. split; [done|].
    by apply list_elem_of_filter.
  - unfold projection, payload_price, payload_name, or. repeat split.
    + by intros ->.
    + intros P -> -> HP. cbn. by destruct P.
    + by intros ->.
    + by intros ->.
Qed.

Lemma fallbacks_trigger_on_falsy_witness :
  ∃ fl its p,
    payload (JArr (to_json <$> [hotel_free_price])) = Ok (fl, its)
    ∧ p ∈ its
    ∧ project (to_json hotel_free_price) = Ok p
    ∧ (truthy (data hotel_free_price !! "price") = false →
       payload_price p = or (data hotel_free_price !! "price_per_night") (Some (JNum 0)))
    ∧ (∀ P, data hotel_free_price !! "price" = Some (JNum 0) →
            data hotel_free_price !! "price_per_night" = Some (JNum P) → (0 < P)%Z →
            payload_price p = Some (JNum P))
    ∧ (truthy (data hotel_free_price !! "name") = false →
       payload_name p = data hotel_free_price !! "title")
    ∧ (data hotel_free_price !! "name" = Some (JStr "") →
       payload_name p = data hotel_free_price !! "title").
Proof.
  apply (fallbacks_trigger_on_falsy [hotel_free_price] hotel_free_price).
  - apply list_elem_of_here.
  - discriminate.
Defined.


(** * Further properties *)

(** ** The pending item store *)

Section more_store.

Lemma splice1_within {A} (l : list A) (index : Z) :
  (0 ≤ index < Z.of_nat (length l))%Z → splice1 index l = delete (Z.to_nat index) l.
Proof.
  intros H. unfold splice1.
  destruct (index <? 0)%Z eqn:Hneg; [lia|].
  rewrite Z.min_l by lia. rewrite Z.min_l by lia.
  rewrite Z2Nat.inj_add, delete_take_drop by lia.
  by rewrite Nat.add_1_r.
Qed.

Lemma getPendingItems_after_set u v ls rs ns :
  getPendingItems (World u (<[STORAGE_KEY := Json.stringify v]> ls) rs ns)
  = (Ok v, World u (<[STORAGE_KEY := Json.stringify v]> ls) rs ns).
Proof. apply getPendingItems_stored. cbn [localStorage]. by rewrite lookup_insert_eq. Qed.

End more_store.

(** X1: after [clearPendingItems], whatever the record held, even a text
    that is not JSON, [getPendingItems] returns the empty array;
    [clearPendingItems] does not throw and leaves every other record of
    [localStorage] as it was. *)
Theorem clear_then_list_is_empty (w : world) :
  let w' := after clearPendingItems w in
  outcome clearPendingItems w = Ok tt
  ∧ outcome getPendingItems w' = Ok (JArr [])
  ∧ (∀ k, k ≠ STORAGE_KEY → localStorage w' !! k = localStorage w !! k)
  ∧ ui w' = ui w ∧ requests w' = requests w ∧ navigated w' = navigated w.
Proof.
  destruct w as [s ls rs ns]. cbn zeta. unfold outcome, after.
  unfold clearPendingItems, removeItem. cbn [fst snd].
  split; [done|]. split.
  { rewrite getPendingItems_missing; [done|]. cbn [localStorage]. apply lookup_delete_eq. }
  repeat split. intros k Hk. cbn [localStorage]. by rewrite lookup_delete_ne.
Qed.

(** X2: [addPendingItem] appends to the array that [getPendingItems] reads
    from the record.  When the record holds a JSON value that is not an
    array, it throws a [TypeError]; when the record is not a JSON text, it
    throws the [SyntaxError] of [JSON.parse]; in both cases nothing is
    written. *)
Theorem add_needs_an_array_record (w : world) (item : json) :
  let w' := after (addPendingItem item) w in
  match outcome getPendingItems w with
  | Ok (JArr l) =>
    outcome (addPendingItem item) w = Ok tt
    ∧ outcome getPendingItems w' = Ok (JArr (l ++ [item]))
  | Ok _ => outcome (addPendingItem item) w = Throw TypeError ∧ w' = w
  | Throw _ => True
  end
  ∧ ∀ text, localStorage w !! STORAGE_KEY = Some text → text ≠ "" →
            Json.json_text text = false →
            outcome (addPendingItem item) w = Throw SyntaxError ∧ w' = w.
Proof.
  cbn zeta. pose proof (getPendingItems_pure w) as Hw.
  assert (∀ e, getPendingItems w = (Throw e, w) →
               addPendingItem item w = (Throw e, w)) as Hthrow
    by (intros e He; unfold addPendingItem; unfold bind at 1; by rewrite He).
  split.
  - destruct (outcome getPendingItems w) as [v|e] eqn:Hout; [|done].
    destruct v as [|b|z|s|l|m].
    5: { unfold outcome, after. rewrite (addPendingItem_array w l item Hw).
         split; [done|]. cbn [snd]. by rewrite getPendingItems_after_set. }
    all: unfold outcome, after;
      by assert (addPendingItem item w = (Throw TypeError, w)) as ->
        by (unfold addPendingItem; unfold bind at 1; by rewrite Hw).
  - intros text Htext Hne Hno. unfold outcome, after.
    rewrite (Hthrow SyntaxError); [done|].
    unfold getPendingItems, bind, getItem. rewrite Htext.
    by apply parse_stored_rejects.
Qed.

Lemma add_needs_an_array_record_witness :
  let w := World initial_state {[STORAGE_KEY := "[1,2"]} [] [] in
  outcome (addPendingItem (JNum 3)) w = Throw SyntaxError
  ∧ after (addPendingItem (JNum 3)) w = w.
Proof.
  intros w.
  apply (proj2 (add_needs_an_array_record w (JNum 3)) "[1,2");
    [reflexivity | discriminate | reflexivity].
Defined.

(** X3: on a store that lists [l], [removePendingItem index] with
    [0 <= index < length l] removes the entry at position [index] and no
    other: the store and the component's list are both [l] without that
    entry, the others in their order. *)
Theorem remove_deletes_the_entry (w : world) (l : list json) (index : Z) :
  staged w (JArr l) → (0 ≤ index < Z.of_nat (length l))%Z →
  outcome (removePendingItem index) w = Ok tt
  ∧ staged (after (removePendingItem index) w) (JArr (delete (Z.to_nat index) l))
  ∧ length (delete (Z.to_nat index) l) = length l - 1.
Proof.
  intros Hst Hi. pose proof (removePendingItem_staged w l index Hst) as Hafter.
  rewrite splice1_within in Hafter by done.
  destruct Hst as [Hout _]. pose proof (getPendingItems_pure w) as Hw.
  rewrite Hout in Hw.
  split; [|split; [done|]].
  - unfold outcome. by rewrite (removePendingItem_array w l index Hw).
  - rewrite length_delete; [|apply lookup_lt_is_Some_2]; lia.
Qed.

Lemma remove_deletes_the_entry_witness :
  let w := World (showing (JArr [JNum 1; JNum 2; JNum 3]) (Some JNull))
                 {[STORAGE_KEY := "[1,2,3]"]} [] [] in
  staged (after (removePendingItem 1) w) (JArr [JNum 1; JNum 3]).
Proof.
  intros w.
  apply (remove_deletes_the_entry w [JNum 1; JNum 2; JNum 3] 1);
    [split; reflexivity | simpl; lia].
Defined.

(** ** Searching

    [handleSearch server forceType] is a call [handleSearch()] or
    [handleSearch(type)]. *)

Ltac settle :=
  rewrite ?drop_all, ?drop_app_length; repeat split; first [done | simpl; lia].

(** X4: [handleSearch] never throws, whatever the backend answers; it sends
    at most one request and touches neither [localStorage], nor the route,
    nor the pending items, nor the selected itinerary.  With a query that is
    blank it changes nothing at all; otherwise [loading] is off when it is
    done. *)
Theorem search_keeps_to_itself
  (server : request → jsval + jsval) (w : world) (forceType : option SearchType) :
  let w' := after (handleSearch server forceType) w in
  outcome (handleSearch server forceType) w = Ok tt
  ∧ localStorage w' = localStorage w
  ∧ navigated w' = navigated w
  ∧ pendingItems (ui w') = pendingItems (ui w)
  ∧ selectedItineraryId (ui w') = selectedItineraryId (ui w)
  ∧ length (issued (handleSearch server forceType) w) ≤ 1
  ∧ (if blank (query (ui w)) then w' = w else loading (ui w') = false).
Proof.
  cbn zeta. unfold issued, outcome, after.
  destruct w as [[] ls rs ns]. unfold handleSearch. run.
  destruct (blank _).
  { settle. }
  destruct (default _ forceType).
  - destruct (server _) as [err|data]; [settle|].
    destruct (if truthy data then _ else _) as [[| | | |raw|]|]; try settle.
    by destruct (_ && _); settle.
  - destruct (_ || _); [settle|].
    destruct (server _) as [err|data]; [settle|].
    destruct (get data "hotels") as [rawHotels|e]; [|settle].
    destruct (or_else rawHotels _); settle.
Qed.

(** X5: a hotel search with a check-in or a check-out date missing sends no
    request: it reports that both dates are required, keeps the results
    shown and leaves [loading] off. *)
Theorem hotel_search_needs_both_dates
  (server : request → jsval + jsval) (w : world) (forceType : option SearchType) :
  blank (query (ui w)) = false →
  default (searchType (ui w)) forceType = hotels →
  checkIn (ui w) = "" ∨ checkOut (ui w) = "" →
  let w' := after (handleSearch server forceType) w in
  error (ui w') = JStr "Check-in and check-out dates are required"
  ∧ loading (ui w') = false
  ∧ results (ui w') = results (ui w)
  ∧ issued (handleSearch server forceType) w = [].
Proof.
  intros Hblank Hactive Hdates. cbn zeta. unfold issued, after.
  destruct w as [[] ls rs ns]. cbn [ui query searchType checkIn checkOut] in *.
  unfold handleSearch. run. rewrite Hblank, Hactive.
  assert (String.eqb checkIn0 "" || String.eqb checkOut0 "" = true) as ->.
  { destruct Hdates as [-> | ->]; [done|]. apply orb_true_r. }
  settle.
Qed.

Lemma hotel_search_needs_both_dates_witness :
  let w := World (searching_hotels "Lisbon" "2025-06-01" "") ∅ [] [] in
  error (ui (after (handleSearch backend_up None) w))
  = JStr "Check-in and check-out dates are required"
  ∧ issued (handleSearch backend_up None) w = [].
Proof.
  intros w.
  destruct (hotel_search_needs_both_dates backend_up w None
              eq_refl eq_refl (or_intror eq_refl)) as (H1 & _ & _ & H2).
  exact (conj H1 H2).
Defined.

(** X6: when the request of a search is rejected, the message shown is the
    [msg] of the answer when it has a truthy one, and "Search failed"
    otherwise; the results shown before stay, and [loading] is off. *)
Theorem failed_search_is_reported
  (server : request → jsval + jsval) (w : world) (forceType : option SearchType)
  (data : jsval) :
  let activeType := default (searchType (ui w)) forceType in
  blank (query (ui w)) = false →
  (activeType = hotels → checkIn (ui w) ≠ "" ∧ checkOut (ui w) ≠ "") →
  server (search_request (ui w) activeType) = inl data →
  let w' := after (handleSearch server forceType) w in
  error (ui w') = or_else (prop data "msg") (JStr "Search failed")
  ∧ results (ui w') = results (ui w)
  ∧ loading (ui w') = false
  ∧ issued (handleSearch server forceType) w = [search_request (ui w) activeType].
Proof.
  intros activeType Hblank Hdates Hsrv. cbn zeta. unfold issued, after.
  unfold activeType in *. clear activeType.
  destruct w as [[] ls rs ns]. cbn [ui query searchType checkIn checkOut] in *.
  unfold handleSearch. run. rewrite Hblank.
  destruct (default _ forceType); unfold search_request in Hsrv; run.
  - rewrite Hsrv. settle.
  - destruct (Hdates eq_refl) as [Hin Hout].
    apply String.eqb_neq in Hin, Hout. rewrite Hin, Hout. cbn [orb].
    rewrite Hsrv. settle.
Qed.

Lemma failed_search_is_reported_witness :
  let w := World (searching "Lisbon") ∅ [] [] in
  error (ui (after (handleSearch backend_busy None) w)) = JStr "Service unavailable".
Proof.
  intros w.
  destruct (failed_search_is_reported backend_busy w None
              (Some (JObj {["msg" := JStr "Service unavailable"]})))
    as (H & _); [reflexivity | discriminate | reflexivity | exact H].
Defined.

(** X7: when the attractions search is answered with data that holds no
    array of attractions, the results shown are emptied and the message says
    that the server returned unexpected data. *)
Theorem unexpected_attractions_answer
  (server : request → jsval + jsval) (w : world) (forceType : option SearchType)
  (data : jsval) :
  blank (query (ui w)) = false →
  default (searchType (ui w)) forceType = attractions →
  server (search_request (ui w) attractions) = inr data →
  (∀ raw, prop data "attractions" ≠ Some (JArr raw)) →
  let w' := after (handleSearch server forceType) w in
  outcome (handleSearch server forceType) w = Ok tt
  ∧ results (ui w') = []
  ∧ error (ui w') = JStr "No attractions found (server returned unexpected data)."
  ∧ loading (ui w') = false.
Proof.
  intros Hblank Hactive Hsrv Hshape. cbn zeta. unfold outcome, after.
  destruct w as [[] ls rs ns]. cbn [ui query searchType] in *.
  unfold search_request in Hsrv. run.
  unfold handleSearch. run. rewrite Hblank, Hactive, Hsrv.
  destruct (if truthy data then _ else _) as [[| | | |raw|]|] eqn:Hattr; try settle.
  destruct (truthy data); [by apply Hshape in Hattr|done].
Qed.

Lemma unexpected_attractions_answer_witness :
  let w := World (searching "Lisbon") ∅ [] [] in
  let w' := after (handleSearch backend_up None) w in
  results (ui w') = []
  ∧ error (ui w') = JStr "No attractions found (server returned unexpected data).".
Proof.
  intros w w'.
  destruct (unexpected_attractions_answer backend_up w None
              (Some (JObj {["itinerary_id" := JNum 7]})) eq_refl eq_refl eq_refl)
    as (_ & H1 & H2 & _); [intros raw; discriminate|].
  exact (conj H1 H2).
Defined.

(** X8: a hotel search with both dates keeps every record of the answer's
    [hotels] array, each normalized by [normalizeHotel], in the order of the
    answer; nothing is filtered out.  An answer without a truthy [hotels]
    gives no results and, unlike for attractions, no message; an answer that
    is [null] or absent is reported as "Search failed". *)
Theorem hotel_search_keeps_every_record
  (server : request → jsval + jsval) (w : world) (forceType : option SearchType)
  (data : jsval) :
  blank (query (ui w)) = false →
  default (searchType (ui w)) forceType = hotels →
  checkIn (ui w) ≠ "" → checkOut (ui w) ≠ "" →
  server (search_request (ui w) hotels) = inr data →
  let w' := after (handleSearch server forceType) w in
  (∀ l, prop data "hotels" = Some (JArr l) →
        results (ui w') = map normalizeHotel l ∧ error (ui w') = JStr "")
  ∧ (nullish data = false → truthy (prop data "hotels") = false →
     results (ui w') = [] ∧ error (ui w') = JStr "")
  ∧ (nullish data = true →
     results (ui w') = results (ui w) ∧ error (ui w') = JStr "Search failed")
  ∧ loading (ui w') = false.
Proof.
  intros Hblank Hactive Hin Hout Hsrv. cbn zeta. unfold after.
  destruct w as [[] ls rs ns]. cbn [ui query searchType checkIn checkOut] in *.
  unfold search_request in Hsrv. run.
  unfold handleSearch. run. rewrite Hblank, Hactive.
  apply String.eqb_neq in Hin, Hout. rewrite Hin, Hout. cbn [orb].
  rewrite Hsrv. unfold get.
  destruct (nullish data) eqn:Hnull.
  { split; [intros l' Hl; by destruct data as [[]|]|]. by repeat split. }
  split; [|split; [|split; [done|]]].
  - intros l' ->. by cbn [or_else truthy].
  - intros _ Hfalsy. unfold or_else.
    destruct (prop data "hotels") as [h|]; [|done]. by rewrite Hfalsy.
  - destruct (or_else _ _); settle.
Qed.

Lemma hotel_search_keeps_every_record_witness :
  let w := World (searching_hotels "Lisbon" "2025-06-01" "2025-06-08") ∅ [] [] in
  let answer := λ _ : request, inr (Some (JObj {["hotels" := JArr only_a_hotel]})) in
  results (ui (after (handleSearch answer None) w)) = map normalizeHotel only_a_hotel.
Proof.
  intros w answer.
  destruct (hotel_search_keeps_every_record answer w None
              (Some (JObj {["hotels" := JArr only_a_hotel]})))
    as (H & _);
    [reflexivity | reflexivity | discriminate | discriminate | reflexivity |].
  exact (proj1 (H only_a_hotel eq_refl)).
Defined.

(** ** Normalizing the records of an answer *)

Section normalizers.

Lemma or_absorb a rest : or (or a rest) rest = or a rest.
Proof.
  unfold or. destruct (truthy a) eqn:Ha; [by rewrite Ha|]. by destruct (truthy rest).
Qed.

Lemma or_xid x id : or (or x (or id x)) (or id (or x (or id x))) = or x (or id x).
Proof.
  unfold or. destruct (truthy x) eqn:Hx, (truthy id) eqn:Hid;
    by rewrite ?Hx, ?Hid, ?Hx.
Qed.

Lemma or_defined a b : is_Some b → is_Some (or a b).
Proof. unfold or. by destruct a as [[]|]; cbn [truthy]; try case_match. Qed.

Lemma or_truthy a b : truthy a = true → or a b = a.
Proof. unfold or. by intros ->. Qed.

Lemma lookup_set_prop k v (m : gmap string json) k' :
  set_prop k v m !! k' = if decide (k = k') then v else m !! k'.
Proof.
  unfold set_prop. destruct v; case_decide; subst;
    by rewrite ?lookup_insert_eq, ?lookup_insert_ne, ?lookup_delete_eq,
         ?lookup_delete_ne.
Qed.

Lemma set_prop_same k v (m : gmap string json) : m !! k = v → set_prop k v m = m.
Proof.
  intros <-. apply map_eq. intros k'. rewrite lookup_set_prop.
  case_decide; by subst.
Qed.

End normalizers.

(** X9: [normalizeAttraction] and [normalizeHotel] are idempotent: a record
    that has been normalized is left as it is by a second normalization. *)
Theorem normalizing_twice_changes_nothing (r : json) :
  normalizeAttraction (normalizeAttraction r) = normalizeAttraction r
  ∧ normalizeHotel (normalizeHotel r) = normalizeHotel r.
Proof.
  split.
  - destruct (truthy (Some r)) eqn:Hr;
      [|unfold normalizeAttraction; rewrite Hr; cbn [negb]; by rewrite Hr].
    unfold normalizeAttraction at 2 3. rewrite Hr. cbn [negb]. cbv zeta.
    set (I := or (prop (Some r) "image_url") _).
    set (X := or (prop (Some r) "xid") _).
    set (m := set_prop "xid" X _).
    assert (∀ k, plain_key k = true → k ≠ "image_url" → k ≠ "xid" →
                 m !! k = prop (Some r) k) as Hk.
    { intros k ? ? ?. unfold m. rewrite !lookup_set_prop.
      repeat case_decide; try congruence. by apply spread_lookup. }
    assert (m !! "image_url" = I) as HI
      by (unfold m; rewrite !lookup_set_prop; by repeat case_decide).
    assert (m !! "xid" = X) as HX
      by (unfold m; rewrite !lookup_set_prop; by repeat case_decide).
    clearbody m. unfold normalizeAttraction. cbn [truthy negb spread prop]. cbv zeta.
    rewrite HI, HX, !Hk by done.
    unfold I, X in *. rewrite or_absorb, or_xid.
    by rewrite (set_prop_same "image_url"), (set_prop_same "xid").
  - destruct (truthy (Some r)) eqn:Hr;
      [|unfold normalizeHotel; rewrite Hr; cbn [negb]; by rewrite Hr].
    unfold normalizeHotel at 2 3. rewrite Hr. cbn [negb]. cbv zeta.
    set (I := or (prop (Some r) "image") _).
    set (P := or (prop (Some r) "price_per_night") _).
    set (H := or (prop (Some r) "hotel_id") _).
    set (m := set_prop "hotel_id" H _).
    assert (∀ k, plain_key k = true → k ≠ "image" → k ≠ "price_per_night" →
                 k ≠ "hotel_id" → m !! k = prop (Some r) k) as Hk.
    { intros k ? ? ? ?. unfold m. rewrite !lookup_set_prop.
      repeat case_decide; try congruence. by apply spread_lookup. }
    assert (m !! "image" = I) as HI
      by (unfold m; rewrite !lookup_set_prop; by repeat case_decide).
    assert (m !! "price_per_night" = P) as HP
      by (unfold m; rewrite !lookup_set_prop; by repeat case_decide).
    assert (m !! "hotel_id" = H) as HH
      by (unfold m; rewrite !lookup_set_prop; by repeat case_decide).
    clearbody m. unfold normalizeHotel. cbn [truthy negb spread prop]. cbv zeta.
    rewrite HI, HP, HH, !Hk by done.
    unfold I, P, H in *. rewrite !or_absorb.
    by rewrite (set_prop_same "image"), (set_prop_same "price_per_night"),
         (set_prop_same "hotel_id").
Qed.

(** X10: normalizing an object never replaces a property that holds a truthy
    value: such a property reads the same after [normalizeAttraction] and
    after [normalizeHotel]; only properties that are missing or falsy are
    filled in. *)
Theorem normalizers_keep_truthy_fields (m : gmap string json) (k : string) (v : json) :
  m !! k = Some v → truthy (Some v) = true →
  prop (Some (normalizeAttraction (JObj m))) k = Some v
  ∧ prop (Some (normalizeHotel (JObj m))) k = Some v.
Proof.
  intros Hk Hv.
  unfold normalizeAttraction, normalizeHotel. cbn [truthy negb spread prop]. cbv zeta.
  rewrite !lookup_set_prop.
  split; repeat case_decide; subst; rewrite ?Hk; try done; by rewrite or_truthy.
Qed.

Lemma normalizers_keep_truthy_fields_witness :
  prop (Some (normalizeHotel
                (JObj {["name" := JStr "Harbour Inn"; "price_per_night" := JNum 95;
                        "price" := JNum 80]})))
       "price_per_night"
  = Some (JNum 95).
Proof.
  apply (normalizers_keep_truthy_fields
           {["name" := JStr "Harbour Inn"; "price_per_night" := JNum 95;
             "price" := JNum 80]} "price_per_night" (JNum 95));
    reflexivity.
Defined.

(** X11: whatever truthy record it is given, [normalizeHotel] returns an
    object whose [image], [price_per_night] and [hotel_id] are defined, and
    [normalizeAttraction] one whose [image_url] is defined: a field with no
    truthy candidate is [null], never missing. *)
Theorem normalized_fields_are_defined (r : json) :
  truthy (Some r) = true →
  is_Some (prop (Some (normalizeAttraction r)) "image_url")
  ∧ is_Some (prop (Some (normalizeHotel r)) "image")
  ∧ is_Some (prop (Some (normalizeHotel r)) "price_per_night")
  ∧ is_Some (prop (Some (normalizeHotel r)) "hotel_id").
Proof.
  intros Hr. unfold normalizeAttraction, normalizeHotel. rewrite Hr.
  cbn [negb prop]. cbv zeta. rewrite !lookup_set_prop.
  repeat split; repeat case_decide; try done; repeat apply or_defined; by eexists.
Qed.

Lemma normalized_fields_are_defined_witness :
  is_Some (prop (Some (normalizeHotel (JObj {["name" := JStr "Harbour Inn"]}))) "image").
Proof.
  apply (normalized_fields_are_defined (JObj {["name" := JStr "Harbour Inn"]})).
  reflexivity.
Defined.

(** ** Staging a result, and emptying the stage *)

(** X12: with a result selected, [handleAddToLocalStorage] appends to the
    store one entry made of the selected result as [data], the time as
    [addedAt] and, as [type], "hotel" on the hotels tab and "attraction"
    otherwise, never "flight"; the component's list follows the store, the
    dialog is closed and no request is sent.  With nothing selected, nothing
    changes. *)
Theorem add_to_local_storage_stages_the_selection
  (w : world) (l : list json) (now : string) :
  staged w (JArr l) →
  let w' := after (handleAddToLocalStorage now) w in
  outcome (handleAddToLocalStorage now) w = Ok tt
  ∧ match selectedItem (ui w) with
    | Some d =>
      if truthy (Some d) then
        let kind :=
          match searchType (ui w) with hotels => "hotel" | attractions => "attraction" end in
        staged w'
          (JArr (l ++ [JObj {["type" := JStr kind; "data" := d;
                              "addedAt" := JStr now]}]))
        ∧ showAddModal (ui w') = false
        ∧ selectedItem (ui w') = Some JNull
        ∧ error (ui w') = JStr ""
        ∧ requests w' = requests w
      else w' = w
    | None => w' = w
    end.
Proof.
  intros [Hout _]. cbn zeta. pose proof (getPendingItems_pure w) as Hw.
  rewrite Hout in Hw. unfold outcome at 1, after.
  unfold handleAddToLocalStorage. rewrite (bind_ok _ _ w (ui w) w) by done.
  destruct (selectedItem (ui w)) as [d|] eqn:Hsel; [|done].
  destruct (truthy (Some d)) eqn:Hd; [|done]. cbn [negb].
  rewrite (bind_ok _ _ _ _ _ (addPendingItem_array _ _ _ Hw)).
  erewrite bind_ok by apply getPendingItems_after_set.
  assert (object [("type", Some (JStr
                     match searchType (ui w) with
                     | hotels => "hotel" | attractions => "attraction"
                     end));
                  ("data", Some d); ("addedAt", Some (JStr now))]
          = {["type" := JStr match searchType (ui w) with
                             | hotels => "hotel" | attractions => "attraction"
                             end;
              "data" := d; "addedAt" := JStr now]}) as ->.
  { unfold object. cbn [foldl set_prop fst snd].
    apply map_eq. intros k. rewrite <- insert_empty, !lookup_insert.
    repeat case_decide; by subst. }
  destruct w as [[] ls rs ns]. unfold closeModal. run.
  split; [done|]. split; [|done]. split; [|done].
  unfold outcome. by rewrite getPendingItems_after_set.
Qed.

Lemma add_to_local_storage_stages_the_selection_witness :
  let s := State hotels "" [] ∅ ∅ (Some JNull) false (JStr "") "" (JArr []) true
                 (Some (JStr "Harbour Inn")) (Some JNull) false "" "" (JArr [])
                 (Some JNull) in
  outcome (handleAddToLocalStorage "2025-01-01T10:00:00.000Z") (World s ∅ [] []) = Ok tt.
Proof.
  intros s.
  apply (add_to_local_storage_stages_the_selection (World s ∅ [] []) []
           "2025-01-01T10:00:00.000Z").
  split; reflexivity.
Defined.

(** X13: adding an item to a store that lists [l] and then removing the entry
    at position [length l], or at position -1, gives back a store that lists
    [l], and the component shows [l]. *)
Theorem add_then_remove_last (w : world) (l : list json) (item : json) (index : Z) :
  outcome getPendingItems w = Ok (JArr l) →
  index = Z.of_nat (length l) ∨ index = (-1)%Z →
  let undo := (addPendingItem item;; removePendingItem index) in
  outcome undo w = Ok tt ∧ staged (after undo w) (JArr l).
Proof.
  intros Hout Hindex. cbn zeta. pose proof (getPendingItems_pure w) as Hw.
  rewrite Hout in Hw. unfold outcome at 1, after.
  rewrite (bind_ok _ _ _ _ _ (addPendingItem_array _ _ _ Hw)).
  rewrite (removePendingItem_array _ (l ++ [item]) index)
    by apply getPendingItems_after_set.
  assert (splice1 index (l ++ [item]) = l) as ->.
  { destruct Hindex as [-> | ->].
    - rewrite splice1_within by (rewrite length_app; simpl; lia).
      rewrite Nat2Z.id, delete_take_drop, take_app_length.
      rewrite drop_ge by (rewrite length_app; simpl; lia). apply app_nil_r.
    - rewrite splice1_negative by lia. rewrite length_app. simpl.
      replace (Z.to_nat (Z.max (Z.of_nat (length l + 1) + -1) 0)) with (length l)
        by lia.
      rewrite delete_take_drop, take_app_length.
      rewrite drop_ge by (rewrite length_app; simpl; lia). apply app_nil_r. }
  split; [done|]. cbn [snd]. split; [|by destruct w as [[] ? ? ?]].
  unfold outcome. cbn [localStorage]. rewrite insert_insert_eq.
  by rewrite getPendingItems_after_set.
Qed.

Lemma add_then_remove_last_witness :
  let w := World initial_state {[STORAGE_KEY := "[1,2]"]} [] [] in
  let undo := (addPendingItem (JNum 3);; removePendingItem (-1)) in
  staged (after undo w) (JArr [JNum 1; JNum 2]).
Proof.
  intros w undo.
  apply (add_then_remove_last w [JNum 1; JNum 2] (JNum 3) (-1));
    [reflexivity | by right].
Defined.

(** X14: the Clear All button empties the store and the component's list,
    whatever they held; a save that follows is turned down as having no
    pending items, and sends no request. *)
Theorem clear_all_empties_the_stage (server : request → jsval + jsval) (w : world) :
  let w1 := after onClearAll w in
  let w2 := after (handleSaveAllToItinerary server) w1 in
  outcome onClearAll w = Ok tt
  ∧ staged w1 (JArr [])
  ∧ error (ui w2) = JStr "No pending items to save"
  ∧ issued (handleSaveAllToItinerary server) w1 = []
  ∧ requests w1 = requests w.
Proof.
  cbn zeta.
  assert (outcome onClearAll w = Ok tt ∧ staged (after onClearAll w) (JArr [])
          ∧ requests (after onClearAll w) = requests w) as (Hok & Hst & Hrs).
  { destruct w as [[] ls rs ns]. unfold outcome, after, onClearAll. run.
    split; [done|]. split; [|done]. split; [|done].
    unfold outcome. rewrite getPendingItems_missing; [done|].
    cbn [localStorage]. apply lookup_delete_eq. }
  destruct (no_pending_items_rejected server _ (proj2 Hst)) as (_ & Herr & Hnone & _).
  done.
Qed.

(** ** Saving all pending items: how the handler ends *)

Section more_save.
Context (server : request → jsval + jsval).

(** The handler past its guard, from the answer of [ensureItinerary] on. *)
Lemma save_after_ensured w len r1 w1 :
  get (Some (pendingItems (ui w))) "length" = Ok len →
  is_number len 0 = false →
  ensureItinerary server (ui w) (after (setAdding true;; setError (JStr "")) w) = (r1, w1) →
  handleSaveAllToItinerary server w
  = (Ok tt,
     let failed e :=
       after (setError (or_else (msg_of e) (JStr "Failed to save items"));;
              setAdding false) in
     match r1 with
     | Ok None => after (setAdding false) w1
     | Throw e => failed e w1
     | Ok (Some id) =>
       match payload (pendingItems (ui w)) with
       | Throw e => failed e w1
       | Ok (fl, its) =>
         let w2 := World (ui w1) (localStorage w1)
                         (requests w1 ++ [save_request id fl its]) (navigated w1) in
         match server (save_request id fl its) with
         | inl data => failed (RequestError data) w2
         | inr data =>
           after (setItem SAVED_KEY
                    (Json.stringify
                       (JObj (spread data ∪ object [("itinerary_id", id)])));;
                  clearPendingItems;;
                  setPendingItems (JArr []);;
                  removeItem DRAFT_KEY;;
                  setCurrentItinerary (Some JNull);;
                  setSuccessMessage "All items saved to itinerary!";;
                  navigate ("/itineraries/" +:+ template id);;
                  setAdding false) w2
         end
       end
     end).
Proof.
  intros Hlen Hzero Hens. unfold handleSaveAllToItinerary.
  rewrite (bind_ok _ _ w (ui w) w) by done.
  rewrite (bind_ok _ _ w len w) by (unfold lift; by rewrite Hlen). rewrite Hzero.
  assert (∀ k : M unit, (setAdding true;; setError (JStr "");; k) w
                        = k (after (setAdding true;; setError (JStr "")) w)) as ->
    by (intros k; by destruct w as [[] ls rs ns]).
  unfold finally, try_catch. unfold bind at 1. rewrite Hens.
  destruct w1 as [[] ls1 rs1 ns1]. cbv zeta.
  destruct r1 as [[id|]|e]; [|done|done].
  unfold bind at 1. unfold lift at 1.
  destruct (payload (pendingItems (ui w))) as [[fl its]|e]; [|done].
  unfold bind at 1. unfold api at 1. fold (save_request id fl its).
  cbn [ui localStorage requests navigated].
  by destruct (server (save_request id fl its)) as [err|data].
Qed.

Lemma guard_passes x l :
  get (Some (JArr (x :: l))) "length" = Ok (Some (JNum (Z.of_nat (length (x :: l)))))
  ∧ is_number (Some (JNum (Z.of_nat (length (x :: l))))) 0 = false.
Proof. split; [done|]. cbn [is_number length]. apply Z.eqb_neq. lia. Qed.

Lemma payload_throws v e : payload v = Throw e → e = TypeError.
Proof.
  assert (∀ (p : json → result bool) l e,
            (∀ x e, p x = Throw e → e = TypeError) →
            filter_array p l = Throw e → e = TypeError) as Hfilter.
  { intros p l. induction l as [|x l IH]; intros e0 Hp; [done|]. cbn [filter_array].
    destruct (p x) eqn:Hx; cbn [rbind]; [|intros [= <-]; by eapply Hp].
    destruct (filter_array p l); cbn [rbind]; [done|]. intros [= <-]. by eapply IH. }
  assert (∀ B (f : json → result B) l e,
            (∀ x e, f x = Throw e → e = TypeError) →
            map_array f l = Throw e → e = TypeError) as Hmap.
  { intros B f l. induction l as [|x l IH]; intros e0 Hf; [done|]. cbn [map_array].
    destruct (f x) eqn:Hx; cbn [rbind]; [|intros [= <-]; by eapply Hf].
    destruct (map_array f l); cbn [rbind]; [done|]. intros [= <-]. by eapply IH. }
  assert (∀ x k e, get x k = Throw e → e = TypeError) as Hget.
  { intros x k e0. unfold get. case_match; congruence. }
  unfold payload. destruct v as [| | | |l|]; cbn [elements rbind]; try congruence.
  destruct (filter_array _ l) as [fl|e1] eqn:H1; cbn [rbind].
  2: { intros [= <-]. eapply Hfilter; [|done]. intros x e2. cbn beta.
       destruct (get (Some x) "type") eqn:Hx; cbn [rbind]; [done|].
       intros [= <-]. by eapply Hget. }
  destruct (map_array _ fl) as [flights|e2] eqn:H2; cbn [rbind].
  2: { intros [= <-]. eapply Hmap; [|done]. intros x e3. apply Hget. }
  clear H1 H2.
  destruct (filter_array _ l) as [others|e3] eqn:H3; cbn [rbind].
  2: { intros [= <-]. eapply Hfilter; [|done]. intros x e4. cbn beta.
       destruct (get (Some x) "type") eqn:Hx; cbn [rbind]; [done|].
       intros [= <-]. by eapply Hget. }
  destruct (map_array project others) as [items|e4] eqn:H4; cbn [rbind]; [done|].
  intros [= <-]. eapply Hmap; [|done]. intros x e5. unfold project.
  destruct (get (Some x) "data") eqn:Hd; cbn [rbind]; [|intros [= <-]; by eapply Hget].
  destruct (get _ "name") eqn:Hn; cbn [rbind]; [done|]. intros [= <-]. by eapply Hget.
Qed.

Lemma guard_passes_on w x l :
  pendingItems (ui w) = JArr (x :: l) →
  ∃ len, get (Some (pendingItems (ui w))) "length" = Ok len ∧ is_number len 0 = false.
Proof. intros ->. eexists. apply guard_passes. Qed.

Lemma read_draft_started w :
  read_draft (after (setAdding true;; setError (JStr "")) w) = read_draft w.
Proof. apply read_draft_quiet. by destruct w as [[] ls rs ns]. Qed.

Lemma ensureItinerary_selected s w :
  truthy (selectedItineraryId s) = true →
  ensureItinerary server s w = (Ok (Some (selectedItineraryId s)), w).
Proof. intros Hsel. unfold ensureItinerary. by rewrite Hsel. Qed.

Lemma ensureItinerary_corrupt s w e :
  truthy (selectedItineraryId s) = false → read_draft w = Throw e →
  ensureItinerary server s w = (Throw e, w).
Proof.
  intros Hsel Hread. unfold ensureItinerary. rewrite Hsel.
  pose proof (parse_stored_pure (localStorage w !! DRAFT_KEY) JNull w) as Hpure.
  fold (read_draft w) in Hpure. rewrite Hread in Hpure.
  unfold bind at 1. unfold getItem at 1. unfold bind at 1.
  unfold DRAFT_KEY in Hpure. by rewrite Hpure.
Qed.

Lemma ensureItinerary_rejected s w d data :
  truthy (selectedItineraryId s) = false → read_draft w = Ok d →
  server (create_request d) = inl data →
  ensureItinerary server s w
  = (Ok None,
     after (setError (or_else (prop data "msg") (JStr "Failed to create itinerary"));;
            setAdding false)
       (World (ui w) (localStorage w) (requests w ++ [create_request d]) (navigated w))).
Proof.
  intros Hsel Hread Hsrv. unfold ensureItinerary. rewrite Hsel.
  pose proof (parse_stored_pure (localStorage w !! DRAFT_KEY) JNull w) as Hpure.
  fold (read_draft w) in Hpure. rewrite Hread in Hpure.
  unfold bind at 1. unfold getItem at 1. unfold bind at 1.
  unfold DRAFT_KEY in Hpure. rewrite Hpure. clear Hpure.
  rewrite carries_dates. unfold create_request in Hsrv.
  destruct w as [[] ls rs ns]. unfold create_request. run.
  by destruct (truthy (prop (Some d) "departure_date")
               && truthy (prop (Some d) "return_date")); rewrite Hsrv.
Qed.

Lemma ensureItinerary_created s w d data id :
  truthy (selectedItineraryId s) = false → read_draft w = Ok d →
  server (create_request d) = inr data → get data "itinerary_id" = Ok id →
  ∃ w1, ensureItinerary server s w = (Ok (Some id), w1)
        ∧ requests w1 = requests w ++ [create_request d; GET "/itineraries" []]
        ∧ navigated w1 = navigated w
        ∧ pendingItems (ui w1) = pendingItems (ui w)
        ∧ selectedItineraryId (ui w1) = id
        ∧ localStorage w1 !! STORAGE_KEY = localStorage w !! STORAGE_KEY.
Proof.
  intros Hsel Hread Hsrv Hid.
  pose proof (ensureItinerary_ensured server s w) as Hens.
  destruct (ensureItinerary server s w) as [r1 w1]. cbn [fst snd] in Hens.
  exists w1.
  destruct Hens as [? ? ?|? ? ? Hread'|d' ? ? Hread' Hwhy
                   |d' data' id' ? ? ? Hread' Hsrv' Hid' Hls Hrs Hns Hp Hsel'];
    try congruence.
  - assert (d' = d) as -> by congruence.
    destruct Hwhy as [(? & ?)|(data0 & ? & Hnull)]; [congruence|].
    assert (data0 = data) as -> by congruence.
    unfold get in Hid. by rewrite Hnull in Hid.
  - assert (d' = d) as -> by congruence.
    assert (data' = data) as -> by congruence.
    assert (id' = id) as -> by congruence.
    repeat split; try done. rewrite Hls. unfold DRAFT_KEY, STORAGE_KEY.
    by rewrite lookup_insert_ne.
Qed.

End more_save.

(** X15: with a pending list that is not [null], [handleSaveAllToItinerary]
    never throws: every failure ends in a message.  Unless it found nothing
    pending, [adding] is off when it is done.  It sends at most three
    requests, and it navigates at most once, to the itinerary whose save
    request was answered. *)
Theorem save_always_settles (server : request → jsval + jsval) (w : world) :
  pendingItems (ui w) ≠ JNull →
  let w' := after (handleSaveAllToItinerary server) w in
  outcome (handleSaveAllToItinerary server) w = Ok tt
  ∧ (prop (Some (pendingItems (ui w))) "length" ≠ Some (JNum 0) →
     adding (ui w') = false)
  ∧ length (issued (handleSaveAllToItinerary server) w) ≤ 3
  ∧ (navigated w' = navigated w
     ∨ ∃ id fl its data,
         server (save_request id fl its) = inr data
         ∧ navigated w' = navigated w ++ ["/itineraries/" +:+ template id]).
Proof.
  intros Hp. cbn zeta.
  assert (get (Some (pendingItems (ui w))) "length"
          = Ok (prop (Some (pendingItems (ui w))) "length")) as Hlen
    by (unfold get; by destruct (pendingItems (ui w))).
  assert (∀ s r w1, ensured server s w r w1 →
            (∃ pre, requests w1 = requests w ++ pre ∧ length pre ≤ 2)
            ∧ navigated w1 = navigated w) as Hframe.
  { destruct 1 as [? ? (?&Hrs&?&?)|? ? ? ? (?&Hrs&?&?)|? ? ? ? ? ? Hrs|? ? ? ? ? ? ? ? ? ? Hrs];
      (split; [|done]); rewrite Hrs;
      [exists []|exists []|eexists [_]|eexists [_; _]];
      rewrite ?app_nil_r; split; first [done | simpl; lia]. }
  split; [|split; [|split]].
  - pose proof (handleSaveAllToItinerary_path server w) as Hpath.
    unfold outcome. destruct Hpath; try done. congruence.
  - intros Hne.
    assert (is_number (prop (Some (pendingItems (ui w))) "length") 0 = false) as Hzero.
    { destruct (prop _ "length") as [[| |z| | |]|]; try done.
      cbn [is_number]. apply Z.eqb_neq. congruence. }
    unfold after at 1.
    destruct (ensureItinerary server (ui w)
                (after (setAdding true;; setError (JStr "")) w)) as [r1 w1] eqn:Hens.
    rewrite (save_after_ensured server w _ r1 w1 Hlen Hzero Hens). cbn [snd]. cbv zeta.
    destruct w1 as [[] ls1 rs1 ns1].
    destruct r1 as [[id|]|e]; [|done|done].
    destruct (payload _) as [[fl its]|e]; [|done].
    by destruct (server _).
  - unfold issued, after.
    pose proof (handleSaveAllToItinerary_path server w) as Hpath.
    destruct (handleSaveAllToItinerary server w) as [r w']. cbn [fst snd] in *.
    destruct Hpath as [e _|len w' _ _ (_ & Hrs & _) _
                      |len r1 w1 w' _ _ Hens _ (_ & Hrs & _)
                      |len id fl its err w1 w' _ _ Hens _ _ _ Hrs _ _
                      |len id fl its ok w1 w' _ _ Hens _ _ _ Hrs _ _ _].
    + rewrite drop_all. simpl. lia.
    + rewrite Hrs, drop_all. simpl. lia.
    + apply Hframe in Hens as [(pre & Hpre & Hn) _].
      rewrite Hrs, Hpre, drop_app_length. lia.
    + apply Hframe in Hens as [(pre & Hpre & Hn) _].
      rewrite Hrs, Hpre, <- (assoc_L (++)), drop_app_length, length_app. simpl. lia.
    + apply Hframe in Hens as [(pre & Hpre & Hn) _].
      rewrite Hrs, Hpre, <- (assoc_L (++)), drop_app_length, length_app. simpl. lia.
  - unfold after.
    pose proof (handleSaveAllToItinerary_path server w) as Hpath.
    destruct (handleSaveAllToItinerary server w) as [r w']. cbn [fst snd] in *.
    destruct Hpath as [e _|len w' _ _ (_ & _ & Hns & _) _
                      |len r1 w1 w' _ _ Hens _ (_ & _ & Hns & _)
                      |len id fl its err w1 w' _ _ Hens _ _ _ _ Hns _
                      |len id fl its ok w1 w' _ _ Hens _ Hsrv _ _ Hns _ _].
    + by left.
    + by left.
    + apply Hframe in Hens as [_ Hns1]. left. congruence.
    + apply Hframe in Hens as [_ Hns1]. left. congruence.
    + apply Hframe in Hens as [_ Hns1]. right. exists id, fl, its, ok.
      split; [done|]. congruence.
Qed.

Lemma save_always_settles_witness :
  outcome (handleSaveAllToItinerary backend_down)
          (world_of (JArr [to_json hotel_a]) (Some (JNum 7)) None)
  = Ok tt.
Proof.
  apply (save_always_settles backend_down
           (world_of (JArr [to_json hotel_a]) (Some (JNum 7)) None)).
  discriminate.
Defined.

(** X16: with items pending, no itinerary selected and a readable draft
    context, a rejected creation request ends the save: the message is the
    [msg] of the answer when it has a truthy one and "Failed to create
    itinerary" otherwise, the creation request is the only request sent,
    nothing is stored, [adding] is off and the page stays where it is. *)
Theorem failed_creation_is_reported
  (server : request → jsval + jsval) (w : world) (x : json) (l : list json)
  (d : json) (data : jsval) :
  pendingItems (ui w) = JArr (x :: l) →
  truthy (selectedItineraryId (ui w)) = false →
  read_draft w = Ok d →
  server (create_request d) = inl data →
  let w' := after (handleSaveAllToItinerary server) w in
  error (ui w') = or_else (prop data "msg") (JStr "Failed to create itinerary")
  ∧ adding (ui w') = false
  ∧ issued (handleSaveAllToItinerary server) w = [create_request d]
  ∧ localStorage w' = localStorage w
  ∧ navigated w' = navigated w.
Proof.
  intros Hp Hsel Hread Hsrv. cbn zeta.
  destruct (guard_passes_on w x l Hp) as (len & Hlen & Hzero).
  rewrite <- read_draft_started in Hread.
  pose proof (ensureItinerary_rejected server (ui w) _ d data Hsel Hread Hsrv) as Hens.
  unfold issued, after at 1 2 3 4 5.
  rewrite (save_after_ensured server w len _ _ Hlen Hzero Hens). cbn [snd].
  unfold after. destruct w as [[] ls rs ns]. run. by rewrite drop_app_length.
Qed.

Lemma failed_creation_is_reported_witness :
  let w := world_of (JArr [to_json hotel_a]) (Some JNull) None in
  error (ui (after (handleSaveAllToItinerary backend_busy) w))
  = JStr "Service unavailable".
Proof.
  intros w.
  destruct (failed_creation_is_reported backend_busy w (to_json hotel_a) [] JNull
              (Some (JObj {["msg" := JStr "Service unavailable"]})))
    as (H & _); [reflexivity | reflexivity | reflexivity | reflexivity | exact H].
Defined.

(** X17: with items pending and an itinerary selected, a rejected save
    request is reported with the [msg] of the answer when it has a truthy
    one and "Failed to save items" otherwise; [adding] is off, and the
    itinerary stays selected. *)
Theorem failed_save_is_reported
  (server : request → jsval + jsval) (w : world) (x : json) (l : list json)
  (fl : list jsval) (its : list payload_item) (data : jsval) :
  pendingItems (ui w) = JArr (x :: l) →
  truthy (selectedItineraryId (ui w)) = true →
  payload (pendingItems (ui w)) = Ok (fl, its) →
  server (save_request (selectedItineraryId (ui w)) fl its) = inl data →
  let w' := after (handleSaveAllToItinerary server) w in
  error (ui w') = or_else (prop data "msg") (JStr "Failed to save items")
  ∧ adding (ui w') = false
  ∧ successMessage (ui w') = successMessage (ui w)
  ∧ selectedItineraryId (ui w') = selectedItineraryId (ui w).
Proof.
  intros Hp Hsel Hpay Hsrv. cbn zeta.
  destruct (guard_passes_on w x l Hp) as (len & Hlen & Hzero).
  pose proof (ensureItinerary_selected server (ui w)
                (after (setAdding true;; setError (JStr "")) w) Hsel) as Hens.
  unfold after at 1 2 3 4.
  rewrite (save_after_ensured server w len _ _ Hlen Hzero Hens). cbn [snd].
  rewrite Hpay. cbv zeta. rewrite Hsrv.
  unfold after. by destruct w as [[] ls rs ns].
Qed.

Lemma failed_save_is_reported_witness :
  let w := world_of (JArr [to_json hotel_a]) (Some (JNum 7)) None in
  error (ui (after (handleSaveAllToItinerary backend_busy) w))
  = JStr "Service unavailable".
Proof.
  intros w.
  destruct (failed_save_is_reported backend_busy w (to_json hotel_a) []
              [] [projection hotel_a]
              (Some (JObj {["msg" := JStr "Service unavailable"]})))
    as (H & _); [reflexivity | reflexivity | reflexivity | reflexivity | exact H].
Defined.

(** X18: with items pending and no itinerary selected, a draft record that
    is not a JSON text ends the save before any request: [JSON.parse] throws,
    the message is "Failed to save items", nothing is sent or stored,
    [adding] is off and the page stays where it is. *)
Theorem corrupt_draft_aborts_the_save
  (server : request → jsval + jsval) (w : world) (x : json) (l : list json)
  (text : string) :
  pendingItems (ui w) = JArr (x :: l) →
  truthy (selectedItineraryId (ui w)) = false →
  localStorage w !! DRAFT_KEY = Some text → text ≠ "" →
  Json.json_text text = false →
  let w' := after (handleSaveAllToItinerary server) w in
  outcome (handleSaveAllToItinerary server) w = Ok tt
  ∧ error (ui w') = JStr "Failed to save items"
  ∧ adding (ui w') = false
  ∧ issued (handleSaveAllToItinerary server) w = []
  ∧ localStorage w' = localStorage w
  ∧ navigated w' = navigated w.
Proof.
  intros Hp Hsel Htext Hne Hno. cbn zeta.
  destruct (guard_passes_on w x l Hp) as (len & Hlen & Hzero).
  assert (read_draft w = Throw SyntaxError) as Hread
    by (unfold read_draft; rewrite Htext; by rewrite parse_stored_rejects).
  rewrite <- read_draft_started in Hread.
  pose proof (ensureItinerary_corrupt server (ui w) _ _ Hsel Hread) as Hens.
  unfold issued, outcome, after.
  rewrite (save_after_ensured server w len _ _ Hlen Hzero Hens). cbn [fst snd].
  destruct w as [[] ls rs ns]. run. by rewrite drop_all.
Qed.

Lemma corrupt_draft_aborts_the_save_witness :
  let w := world_of (JArr [to_json hotel_a]) (Some JNull) (Some "{") in
  error (ui (after (handleSaveAllToItinerary backend_up) w))
  = JStr "Failed to save items"
  ∧ issued (handleSaveAllToItinerary backend_up) w = [].
Proof.
  intros w.
  destruct (corrupt_draft_aborts_the_save backend_up w (to_json hotel_a) [] "{")
    as (_ & H1 & _ & H2 & _);
    [reflexivity | reflexivity | reflexivity | discriminate | reflexivity |].
  exact (conj H1 H2).
Defined.

(** ** The payload of entries that are not well formed *)

Section more_payload.

Lemma filter_array_type (f : jsval → bool) (l : list json) :
  filter_array (λ item, rbind (get (Some item) "type") (λ t, Ok (f t))) l
  = if existsb (λ x, nullish (Some x)) l then Throw TypeError
    else Ok (List.filter (λ item, f (prop (Some item) "type")) l).
Proof.
  induction l as [|x l IH]; [done|]. cbn [filter_array existsb List.filter].
  rewrite IH. unfold get. destruct (nullish (Some x)); [done|]. cbn [rbind orb].
  by destruct (existsb _ l).
Qed.

Lemma map_array_total {B} (g : json → result B) (h : json → B) (bad : json → bool) l :
  (∀ x, g x = if bad x then Throw TypeError else Ok (h x)) →
  map_array g l = if existsb bad l then Throw TypeError else Ok (map h l).
Proof.
  intros Hg. induction l as [|x l IH]; [done|]. cbn [map_array existsb map].
  rewrite IH, Hg. destruct (bad x); [done|]. cbn [rbind orb].
  by destruct (existsb bad l).
Qed.

Lemma existsb_filter {A} (p q : A → bool) l :
  existsb p l = false → existsb p (List.filter q l) = false.
Proof.
  induction l as [|x l IH]; [done|]. cbn [existsb List.filter].
  intros [Hx Hl]%orb_false_iff. destruct (q x); cbn [existsb]; rewrite ?Hx; by apply IH.
Qed.

Lemma existsb_malformed l :
  existsb (λ x, nullish (Some x)) l = false →
  existsb malformed l
  = existsb (λ x, nullish (Some x) || nullish (prop (Some x) "data"))
      (List.filter (λ item, negb (is_string (prop (Some item) "type") "flight")) l).
Proof.
  induction l as [|x l IH]; [done|]. cbn [existsb List.filter].
  intros [Hx Hl]%orb_false_iff. rewrite (IH Hl). unfold malformed. rewrite Hx.
  destruct (is_string _ "flight"); cbn [negb andb orb existsb]; by rewrite ?Hx.
Qed.

Lemma filter_split {A} (p : A → bool) l :
  length (List.filter p l) + length (List.filter (λ x, negb (p x)) l) = length l.
Proof.
  induction l as [|x l IH]; [done|]. cbn [List.filter].
  destruct (p x); cbn [negb length]; lia.
Qed.

End more_payload.

(** X19: the payload is built from a pending list exactly when no entry is
    [null] and every entry other than a flight has a [data] that is neither
    [null] nor missing; every entry then goes to [flights] or to [items],
    none to both and none is dropped.  Otherwise building it throws a
    [TypeError]. *)
Theorem payload_builds_unless_malformed (l : list json) :
  match payload (JArr l) with
  | Ok (fl, its) =>
    existsb malformed l = false ∧ length fl + length its = length l
  | Throw e => e = TypeError ∧ existsb malformed l = true
  end.
Proof.
  unfold payload. cbn [elements rbind]. rewrite !filter_array_type.
  destruct (existsb (λ x, nullish (Some x)) l) eqn:Hnull.
  { cbn [rbind]. split; [done|].
    apply existsb_exists in Hnull as (x & Hin & Hx). apply existsb_exists.
    exists x. split; [done|]. unfold malformed. by rewrite Hx. }
  cbn [rbind].
  rewrite (map_array_total _ (λ item, prop (Some item) "data")
             (λ x, nullish (Some x)))
    by (intros x; unfold get; by destruct (nullish (Some x))).
  rewrite existsb_filter by done. cbn [rbind].
  rewrite (map_array_total project
             (λ item, PayloadItem
                        (or (prop (prop (Some item) "data") "name")
                            (prop (prop (Some item) "data") "title"))
                        (or (prop (prop (Some item) "data") "price")
                            (or (prop (prop (Some item) "data") "price_per_night")
                                (Some (JNum 0))))
                        (prop (Some item) "type"))
             (λ x, nullish (Some x) || nullish (prop (Some x) "data"))).
  2: { intros x. unfold project, get. destruct (nullish (Some x)); [done|].
       cbn [rbind orb]. by destruct (nullish (prop (Some x) "data")). }
  rewrite <- existsb_malformed by done.
  destruct (existsb malformed l); cbn [rbind]; [done|]. split; [done|].
  rewrite !length_map. apply filter_split.
Qed.

(** ** Saving all pending items: creation and what follows *)

(** X20: the itinerary is created before the payload is built.  With no
    itinerary selected, a readable draft context and an answered creation
    request, a pending list from which the payload cannot be built still has
    the itinerary created and the list of itineraries reloaded; no save
    request follows, the message is "Failed to save items", the new
    itinerary is left selected and the pending record is as it was. *)
Theorem itinerary_is_created_before_the_payload
  (server : request → jsval + jsval) (w : world) (x : json) (l : list json)
  (d : json) (data id : jsval) (e : exn) :
  pendingItems (ui w) = JArr (x :: l) →
  truthy (selectedItineraryId (ui w)) = false →
  read_draft w = Ok d →
  server (create_request d) = inr data →
  get data "itinerary_id" = Ok id →
  payload (pendingItems (ui w)) = Throw e →
  let w' := after (handleSaveAllToItinerary server) w in
  issued (handleSaveAllToItinerary server) w
  = [create_request d; GET "/itineraries" []]
  ∧ error (ui w') = JStr "Failed to save items"
  ∧ selectedItineraryId (ui w') = id
  ∧ localStorage w' !! STORAGE_KEY = localStorage w !! STORAGE_KEY
  ∧ navigated w' = navigated w.
Proof.
  intros Hp Hsel Hread Hsrv Hid Hpay. cbn zeta.
  destruct (guard_passes_on w x l Hp) as (len & Hlen & Hzero).
  pose proof (payload_throws _ _ Hpay) as ->.
  rewrite <- read_draft_started in Hread.
  destruct (ensureItinerary_created server (ui w) _ d data id Hsel Hread Hsrv Hid)
    as (w1 & Hens & Hrs & Hns & _ & Hid1 & Hls).
  unfold issued, after at 1 2 3 4 5.
  rewrite (save_after_ensured server w len _ _ Hlen Hzero Hens). cbn [snd].
  rewrite Hpay. cbv zeta. unfold after in *.
  destruct w as [[] ls rs ns], w1 as [[] ls1 rs1 ns1]. run.
  rewrite Hrs, drop_app_length. by rewrite Hls, Hns.
Qed.

Lemma itinerary_is_created_before_the_payload_witness :
  let w := world_of (JArr [JObj {["type" := JStr "hotel"]}]) (Some JNull) None in
  issued (handleSaveAllToItinerary backend_up) w
  = [create_request JNull; GET "/itineraries" []].
Proof.
  intros w.
  destruct (itinerary_is_created_before_the_payload backend_up w
              (JObj {["type" := JStr "hotel"]}) [] JNull
              (Some (JObj {["itinerary_id" := JNum 7]})) (Some (JNum 7)) TypeError)
    as (H & _);
    [reflexivity | reflexivity | reflexivity | reflexivity | reflexivity
    | reflexivity | exact H].
Defined.

(** X21: a save that created an itinerary and then had its save request
    rejected leaves the new itinerary selected and the pending items in
    place, so that the next attempt creates nothing: the one request it
    sends is the save request for that itinerary. *)
Theorem retry_reuses_the_created_itinerary
  (server : request → jsval + jsval) (w : world) (x : json) (l : list json)
  (d : json) (data id : jsval) (fl : list jsval) (its : list payload_item)
  (err : jsval) :
  pendingItems (ui w) = JArr (x :: l) →
  truthy (selectedItineraryId (ui w)) = false →
  read_draft w = Ok d →
  server (create_request d) = inr data →
  get data "itinerary_id" = Ok id →
  truthy id = true →
  payload (pendingItems (ui w)) = Ok (fl, its) →
  server (save_request id fl its) = inl err →
  let w' := after (handleSaveAllToItinerary server) w in
  selectedItineraryId (ui w') = id
  ∧ pendingItems (ui w') = pendingItems (ui w)
  ∧ issued (handleSaveAllToItinerary server) w' = [save_request id fl its].
Proof.
  intros Hp Hsel Hread Hsrv Hid Htruthy Hpay Hsave. cbn zeta.
  destruct (guard_passes_on w x l Hp) as (len & Hlen & Hzero).
  rewrite <- read_draft_started in Hread.
  destruct (ensureItinerary_created server (ui w) _ d data id Hsel Hread Hsrv Hid)
    as (w1 & Hens & _ & _ & Hp1 & Hid1 & _).
  assert (selectedItineraryId (ui (after (handleSaveAllToItinerary server) w)) = id
          ∧ pendingItems (ui (after (handleSaveAllToItinerary server) w))
            = pendingItems (ui w)) as [Hid' Hp'].
  { unfold after at 1 2.
    rewrite (save_after_ensured server w len _ _ Hlen Hzero Hens). cbn [snd].
    rewrite Hpay. cbv zeta. rewrite Hsave. unfold after in *.
    destruct w as [[] ls rs ns], w1 as [[] ls1 rs1 ns1]. by run. }
  split; [done|]. split; [done|].
  rewrite (selected_submits server _ x l fl its); rewrite ?Hid', ?Hp'; done.
Qed.

Lemma retry_reuses_the_created_itinerary_witness :
  let w := world_of (JArr [to_json hotel_a]) (Some JNull) None in
  let w' := after (handleSaveAllToItinerary backend_no_save) w in
  issued (handleSaveAllToItinerary backend_no_save) w'
  = [save_request (Some (JNum 7)) [] [projection hotel_a]].
Proof.
  intros w w'.
  destruct (retry_reuses_the_created_itinerary backend_no_save w (to_json hotel_a) []
              JNull (Some (JObj {["itinerary_id" := JNum 7]})) (Some (JNum 7))
              [] [projection hotel_a] None)
    as (_ & _ & H);
    [reflexivity | reflexivity | reflexivity | reflexivity | reflexivity
    | reflexivity | reflexivity | reflexivity | exact H].
Defined.

(** ** Loading the itineraries *)

(** X22: [loadItineraries] never throws and sends exactly one request.  An
    answer sets the list of itineraries to its data, or to the empty array
    when the data is falsy; a rejection leaves the component as it was.
    Neither touches [localStorage] or the route. *)
Theorem load_itineraries_never_throws (server : request → jsval + jsval) (w : world) :
  let w' := after (loadItineraries server) w in
  outcome (loadItineraries server) w = Ok tt
  ∧ issued (loadItineraries server) w = [GET "/itineraries" []]
  ∧ localStorage w' = localStorage w
  ∧ navigated w' = navigated w
  ∧ match server (GET "/itineraries" []) with
    | inr data =>
      itineraries (ui w') = (if truthy data then default JNull data else JArr [])
      ∧ pendingItems (ui w') = pendingItems (ui w)
      ∧ selectedItineraryId (ui w') = selectedItineraryId (ui w)
    | inl _ => ui w' = ui w
    end.
Proof.
  cbn zeta. unfold issued, outcome, after. destruct w as [[] ls rs ns].
  unfold loadItineraries. run.
  destruct (server _) as [err|data]; rewrite drop_app_length; [done|].
  repeat split. unfold or_else. by destruct data.
Qed.

(** ** The Search page of [Home.tsx] *)

(** X23: the save handler of the earlier Search page creates no itinerary:
    with items pending and no itinerary selected it asks for one to be
    selected, and sends, stores and navigates nothing. *)
Theorem earlier_save_needs_a_selection
  (server : request → jsval + jsval) (w : world) (x : json) (l : list json) :
  pendingItems (ui w) = JArr (x :: l) →
  truthy (selectedItineraryId (ui w)) = false →
  let w' := after (Home.handleSaveAllToItinerary server) w in
  outcome (Home.handleSaveAllToItinerary server) w = Ok tt
  ∧ error (ui w') = JStr "Please select an itinerary first"
  ∧ issued (Home.handleSaveAllToItinerary server) w = []
  ∧ quiet w w'
  ∧ adding (ui w') = adding (ui w).
Proof.
  intros Hp Hsel. cbn zeta. unfold issued, outcome, after, quiet.
  destruct w as [[] ls rs ns]. cbn [ui pendingItems selectedItineraryId] in *.
  unfold Home.handleSaveAllToItinerary. run. rewrite Hp, Hsel. cbn.
  rewrite drop_all. by repeat split.
Qed.

Lemma earlier_save_needs_a_selection_witness :
  let w := world_of (JArr [to_json hotel_a]) (Some JNull) None in
  error (ui (after (Home.handleSaveAllToItinerary backend_up) w))
  = JStr "Please select an itinerary first"
  ∧ issued (Home.handleSaveAllToItinerary backend_up) w = [].
Proof.
  intros w.
  destruct (earlier_save_needs_a_selection backend_up w (to_json hotel_a) [])
    as (_ & H1 & H2 & _); [reflexivity | reflexivity |].
  exact (conj H1 H2).
Defined.

(** X24: with an itinerary selected, the save handlers of the two Search
    pages do the same: the same outcome, the same requests, the same
    records in [localStorage], the same component state and the same
    route. *)
Theorem both_saves_agree_on_a_selection
  (server : request → jsval + jsval) (w : world) :
  truthy (selectedItineraryId (ui w)) = true →
  Home.handleSaveAllToItinerary server w = handleSaveAllToItinerary server w.
Proof.
  intros Hsel. unfold Home.handleSaveAllToItinerary, handleSaveAllToItinerary.
  rewrite (bind_ok _ _ w (ui w) w) by done.
  rewrite (bind_ok rendered _ w (ui w) w) by done.
  destruct (get (Some (pendingItems (ui w))) "length") as [len|e]; [|reflexivity].
  rewrite (bind_ok _ _ w len w) by done.
  rewrite (bind_ok (lift _) _ w len w) by done.
  destruct (is_number len 0); [reflexivity|].
  rewrite Hsel. cbn [negb]. unfold ensureItinerary. rewrite Hsel. reflexivity.
Qed.

Lemma both_saves_agree_on_a_selection_witness :
  let w := world_of (JArr [to_json hotel_a]) (Some (JNum 7)) None in
  Home.handleSaveAllToItinerary backend_up w = handleSaveAllToItinerary backend_up w.
Proof.
  intros w. apply (both_saves_agree_on_a_selection backend_up w). reflexivity.
Defined.

(** ** The navigation bar *)

Section navbar.

Lemma prefix_app s1 : ∀ s2, String.prefix s1 s2 = true → ∃ r, s2 = s1 +:+ r.
Proof.
  induction s1 as [|a s1 IH]; intros s2 H; [by exists s2|].
  destruct s2 as [|b s2]; [done|]. cbn [String.prefix] in H.
  destruct (Ascii.ascii_dec a b) as [->|]; [|done].
  destruct (IH s2 H) as [r ->]. by exists r.
Qed.

Lemma isActive_under pathname path :
  Navbar.isActive pathname path = true → ∃ r, pathname = path +:+ r.
Proof.
  unfold Navbar.isActive. intros [H|H]%orb_true_iff.
  - apply String.eqb_eq in H as ->. exists "". by rewrite JsonFacts.app_nil_r.
  - apply prefix_app in H as [r ->]. exists ("/" +:+ r).
    by rewrite JsonFacts.app_assoc.
Qed.

End navbar.

(** X25: whatever the location, at most one of the four links of the bar is
    shown as active: when one is, every other one is not. *)
Theorem at_most_one_link_is_active (pathname p q : string) :
  p ∈ Navbar.links → q ∈ Navbar.links → p ≠ q →
  Navbar.isActive pathname p = true → Navbar.isActive pathname q = false.
Proof.
  intros Hp Hq Hne [r1 H1]%isActive_under.
  destruct (Navbar.isActive pathname q) eqn:Hactive; [|done]. exfalso.
  apply isActive_under in Hactive as [r2 H2].
  rewrite H1 in H2. clear H1. unfold Navbar.links in *.
  repeat (apply elem_of_cons in Hp as [->|Hp]);
    [| | | |by apply elem_of_nil in Hp];
    (repeat (apply elem_of_cons in Hq as [->|Hq]);
     [| | | |by apply elem_of_nil in Hq]);
    try done; vm_compute in H2; discriminate.
Qed.

Lemma at_most_one_link_is_active_witness :
  Navbar.isActive "/itineraries/7" "/ai" = false.
Proof.
  apply (at_most_one_link_is_active "/itineraries/7" "/itineraries" "/ai");
    [by apply elem_of_cons; left
    |by apply elem_of_cons; right; apply elem_of_cons; left
    |discriminate
    |reflexivity].
Defined.

(** ** The Search button *)

(** On the calls [handleSearch()] and [handleSearch(type)], the function on
    any argument is [handleSearch]. *)
Lemma handleSearchWith_argument
  (server : request → jsval + jsval) (forceType : option SearchType) (w : world) :
  handleSearchWith server (argument forceType) w = handleSearch server forceType w.
Proof.
  unfold handleSearchWith, handleSearch.
  rewrite !(bind_ok rendered _ w (ui w) w) by done.
  destruct (blank _); [done|].
  by destruct forceType as [[]|], (searchType (ui w)).
Qed.

(** X26: [handleSearch] searches only when its argument is missing or names
    a kind of search.  Called with any other truthy value, such as the click
    event that a click handler receives, and a query that is not blank, it
    sends no request and keeps the results shown: it clears the two messages
    and leaves [loading] off. *)
Theorem search_button_sends_no_request
  (server : request → jsval + jsval) (w : world) (event : jsval) :
  truthy event = true →
  is_string event "attractions" = false → is_string event "hotels" = false →
  blank (query (ui w)) = false →
  let w' := after (handleSearchWith server event) w in
  outcome (handleSearchWith server event) w = Ok tt
  ∧ issued (handleSearchWith server event) w = []
  ∧ results (ui w') = results (ui w)
  ∧ error (ui w') = JStr "" ∧ successMessage (ui w') = ""
  ∧ loading (ui w') = false.
Proof.
  intros Hev Hattr Hhot Hblank. cbn zeta. unfold issued, outcome, after.
  destruct w as [[] ls rs ns]. cbn [ui query] in Hblank.
  unfold handleSearchWith. run. rewrite Hblank. unfold or. rewrite Hev, Hattr, Hhot.
  by rewrite drop_all.
Qed.

Lemma search_button_sends_no_request_witness :
  let w := World (searching "Lisbon") ∅ [] [] in
  issued (handleSearchWith backend_up (Some (JObj {["type" := JStr "click"]}))) w = [].
Proof.
  intros w.
  destruct (search_button_sends_no_request backend_up w
              (Some (JObj {["type" := JStr "click"]})))
    as (_ & H & _); [reflexivity | reflexivity | reflexivity | reflexivity | exact H].
Defined.

(** ** The record of the last save *)

(** X27: after a save into the selected itinerary that the backend answers
    with an object, the record of the last save holds every property of the
    answer, and the id of the itinerary under [itinerary_id] unless the
    answer has an [itinerary_id] of its own; [JSON.parse] reads the record
    back. *)
Theorem saved_record_keeps_the_answer
  (server : request → jsval + jsval) (w : world) (x : json) (l : list json)
  (fl : list jsval) (its : list payload_item) (m : gmap string json) :
  pendingItems (ui w) = JArr (x :: l) →
  truthy (selectedItineraryId (ui w)) = true →
  payload (pendingItems (ui w)) = Ok (fl, its) →
  server (save_request (selectedItineraryId (ui w)) fl its) = inr (Some (JObj m)) →
  let w' := after (handleSaveAllToItinerary server) w in
  ∃ saved text,
    localStorage w' !! SAVED_KEY = Some text
    ∧ Json.parse text = Some (JObj saved)
    ∧ (∀ k v, m !! k = Some v → saved !! k = Some v)
    ∧ (m !! "itinerary_id" = None →
       saved !! "itinerary_id" = selectedItineraryId (ui w)).
Proof.
  intros Hp Hsel Hpay Hsrv. cbn zeta.
  destruct (guard_passes_on w x l Hp) as (len & Hlen & Hzero).
  pose proof (ensureItinerary_selected server (ui w)
                (after (setAdding true;; setError (JStr "")) w) Hsel) as Hens.
  unfold after at 1.
  rewrite (save_after_ensured server w len _ _ Hlen Hzero Hens). cbn [snd].
  rewrite Hpay. cbv zeta. rewrite Hsrv.
  exists (m ∪ object [("itinerary_id", selectedItineraryId (ui w))]).
  eexists. split; [|split; [apply JsonFacts.parse_stringify|split]].
  - unfold after, DRAFT_KEY, STORAGE_KEY, SAVED_KEY.
    destruct w as [[] ls rs ns]. run.
    rewrite !lookup_delete_ne by done. by rewrite lookup_insert_eq.
  - intros k v Hk. by apply lookup_union_Some_l.
  - intros Hnone. rewrite lookup_union_r by done.
    unfold object. cbn [foldl fst snd]. unfold set_prop.
    destruct (selectedItineraryId (ui w)); [apply lookup_insert_eq|done].
Qed.

Lemma saved_record_keeps_the_answer_witness :
  let w := world_of (JArr [to_json hotel_a]) (Some (JNum 3)) None in
  ∃ saved text,
    localStorage (after (handleSaveAllToItinerary backend_up) w) !! SAVED_KEY = Some text
    ∧ Json.parse text = Some (JObj saved)
    ∧ (∀ k v, ({["itinerary_id" := JNum 7]} : gmap string json) !! k = Some v →
              saved !! k = Some v)
    ∧ (({["itinerary_id" := JNum 7]} : gmap string json) !! "itinerary_id" = None →
       saved !! "itinerary_id" = Some (JNum 3)).
Proof.
  intros w.
  apply (saved_record_keeps_the_answer backend_up w (to_json hotel_a) []
           [] [projection hotel_a] {["itinerary_id" := JNum 7]});
    reflexivity.
Defined.
